(** * Colony Radio: routing engine, codec shims and client mixer

    A shallow embedding of the parts of the relay server
    ([session_mgr.py], [opus_shim.py], [server.py], [udp_protocol.py])
    and of the client ([opus_shim.py], [app/app.py], [udp_client.py],
    [udp_protocol.py]) that carry the routing, caching, mixing, wire
    format and playout logic, followed by the properties proved about
    them.

    Conventions of the embedding:
    - a Python [float] is an IEEE-754 binary64 value ([spec_float] with
      precision 53), a numpy [float32] a binary32 value (precision 24);
    - a Python [str] is a [string] whose characters are read as the code
      points 0..255;
    - a Python [dict] keyed by strings is a [gmap]; a [dict] whose
      iteration order is observed is an association list in insertion
      order;
    - a call that can raise returns an [option], [None] standing for the
      exception. *)

From Stdlib Require Import ZArith Lia List Bool Ascii String.
From Stdlib Require Import Strings.Byte.
From Stdlib Require Import Floats.SpecFloat.
From stdpp Require Import gmap strings list.

#[local] Set Warnings "-clear-no-such-hyp".

Local Open Scope Z_scope.

(** ** Python floats *)

Module PyFloat.

Definition float := spec_float.

Definition prec : Z := 53.
Definition emax : Z := 1024.

Definition fmul : float -> float -> float := SFmul prec emax.
Definition fsub : float -> float -> float := SFsub prec emax.
Definition fdiv : float -> float -> float := SFdiv prec emax.
Definition fltb : float -> float -> bool := SFltb.
Definition fleb : float -> float -> bool := SFleb.
Definition valid (x : float) : bool := valid_binary prec emax x.

(** [float(z)] for an integer literal (exact below 2^53). *)
Definition of_Z (z : Z) : float := binary_normalize prec emax z 0 false.

(** [int(x)]: truncation toward zero; [None] is the [ValueError] on NaN
    and the [OverflowError] on an infinity. *)
Definition py_int (x : float) : option Z :=
  match x with
  | S754_zero _ => Some 0
  | S754_finite s m e =>
      Some (cond_Zopp s
              (match e with
               | Zneg p => Z.shiftr (Zpos m) (Zpos p)
               | _ => Z.shiftl (Zpos m) e
               end))
  | S754_infinity _ => None
  | S754_nan => None
  end.

End PyFloat.

(** ** Python strings *)

Module PyStr.

Definition code (c : ascii) : Z := Z.of_N (N_of_ascii c).

(** [str.isspace] on one character (code points below 256). *)
Definition isspace (c : ascii) : bool :=
  let n := code c in
  ((9 <=? n) && (n <=? 13)) || ((28 <=? n) && (n <=? 32))
  || (n =? 133) || (n =? 160).

Fixpoint lstrip (s : string) : string :=
  match s with
  | EmptyString => EmptyString
  | String c t => if isspace c then lstrip t else s
  end.

Fixpoint rstrip (s : string) : string :=
  match s with
  | EmptyString => EmptyString
  | String c t =>
      match rstrip t with
      | EmptyString => if isspace c then EmptyString else String c EmptyString
      | t' => String c t'
      end
  end.

(** [s.strip()] *)
Definition strip (s : string) : string := rstrip (lstrip s).

(** [s.rstrip(ch)] for a one-character argument. *)
Fixpoint rstrip_char (ch : ascii) (s : string) : string :=
  match s with
  | EmptyString => EmptyString
  | String c t =>
      match rstrip_char ch t with
      | EmptyString => if Ascii.eqb c ch then EmptyString else String c EmptyString
      | t' => String c t'
      end
  end.

(** [s[-4:]] *)
Definition last4 (s : string) : string :=
  substring (String.length s - 4) 4 s.

Fixpoint all_chars (p : ascii -> bool) (s : string) : bool :=
  match s with
  | EmptyString => true
  | String c t => p c && all_chars p t
  end.

Definition is_ascii_digit (c : ascii) : bool :=
  (48 <=? code c) && (code c <=? 57).

(** Characters for which [str.isdigit] holds: the ten decimal digits and
    the superscripts two, three and one. *)
Definition isdigit_char (c : ascii) : bool :=
  is_ascii_digit c || (code c =? 178) || (code c =? 179) || (code c =? 185).

(** [s.isdigit()] *)
Definition isdigit (s : string) : bool :=
  match s with
  | EmptyString => false
  | _ => all_chars isdigit_char s
  end.

Fixpoint int_digits (s : string) (acc : Z) : option Z :=
  match s with
  | EmptyString => Some acc
  | String c t =>
      if is_ascii_digit c then int_digits t (10 * acc + (code c - 48))
      else None
  end.

(** [int(s)] on a string for which [isdigit] holds (the only strings it
    is applied to here): the decimal value, or [None] for the
    [ValueError] raised on a superscript digit. *)
Definition py_int (s : string) : option Z :=
  match s with
  | EmptyString => None
  | _ => int_digits s 0
  end.

Definition digit_char (d : Z) : ascii := ascii_of_N (Z.to_N (48 + d)).

Fixpoint dec_aux (fuel : nat) (n : Z) (acc : string) : string :=
  match fuel with
  | O => acc
  | S f =>
      let acc' := String (digit_char (n mod 10)) acc in
      if n <? 10 then acc' else dec_aux f (n / 10) acc'
  end.

(** [str(n)] for [0 <= n]. *)
Definition dec_str (n : Z) : string :=
  dec_aux (S (Z.to_nat (Z.log2 n))) n EmptyString.

Fixpoint zeros (k : nat) : string :=
  match k with
  | O => EmptyString
  | S k' => String "0" (zeros k')
  end.

Definition zfill (w : nat) (s : string) : string :=
  zeros (w - String.length s) +:+ s.

(** [f"{n:04d}"] *)
Definition fmt_04d (n : Z) : string :=
  if n <? 0 then String "-" (zfill 3 (dec_str (- n)))
  else zfill 4 (dec_str n).

(** [f"{v / 10.0:.1f}"] for an integer [0 <= v]: the quotient by ten is
    the double nearest to [v/10], whose one-decimal rendering is the
    integer part, a point and the last digit of [v]. *)
Definition fmt_tenths_1f (v : Z) : string :=
  dec_str (v / 10) +:+ "." +:+ dec_str (v mod 10).

End PyStr.

(** ** Server: one session ([session_mgr.py], class [Session]) *)

Module Session.
Import PyFloat PyStr.

Record t := mk {
  ssrc : Z;
  nick : string;
  active_channel : Z;
  freqs : list float;
  scan : bool;
  scan_channels : list bool;
  ptt : bool;
  loopback : bool;
  last_seen : float;
  net_prefixes : list string
}.

(** The argument of [_freq_suffix]: a value [float()] converts, or one
    on which it raises [TypeError] or [ValueError]. *)
Inductive freq_arg :=
| FreqValue (f : float)
| FreqUnconvertible.

(** [Session._freq_suffix]; [None] is the exception of [int()] on a
    product that is NaN or infinite, which the function does not catch. *)
Definition _freq_suffix (freq : freq_arg) : option string :=
  let f := match freq with
           | FreqValue f => f
           | FreqUnconvertible => S754_zero false
           end in
  n ← PyFloat.py_int (fmul f (of_Z 10));
  let n := if n <? 0 then 0 else n in
  let n := if 9999 <? n then 9999 else n in
  Some (fmt_04d n).

(** The length fix of [net_prefixes] at the head of [compute_networks];
    [fresh] is the outcome of the one [_make_prefix()] draw. *)
Definition fix_prefixes (fresh : string) (ps : list string) : list string :=
  if (length ps <? 4)%nat then take 4 (ps ++ replicate 4 fresh)
  else if (4 <? length ps)%nat then take 4 ps
  else ps.

Definition labels : list string := ["A"; "B"; "C"; "D"]%string.

Fixpoint join (sep : string) (parts : list string) : string :=
  match parts with
  | [] => EmptyString
  | [p] => p
  | p :: rest => p +:+ sep +:+ join sep rest
  end.

(** [min(3, max(0, int(active_channel)))] as a list index. *)
Definition clamp_channel (a : Z) : nat := Z.to_nat (Z.max 0 (Z.min 3 a)).

(** [Session.compute_networks]: the triple [(net_ids, active_net,
    summary)], or [None] when a suffix cannot be computed. The stored
    prefix list is replaced by the fixed one as a side effect, which
    no result depends on and which is left out. *)
Definition compute_networks (fresh : string) (s : t)
  : option (list string * string * string) :=
  let prefixes := fix_prefixes fresh (net_prefixes s) in
  net_ids ← mapM (fun i : nat =>
                    suffix ← _freq_suffix
                               (FreqValue (nth i (freqs s) (S754_zero false)));
                    Some (nth i prefixes EmptyString +:+ suffix))
                 [0; 1; 2; 3]%nat;
  let active_idx := clamp_channel (active_channel s) in
  let active_net := nth active_idx net_ids EmptyString in
  let parts :=
    imap (fun i label =>
            label +:+ ":" +:+ (if (i =? active_idx)%nat then "*" else "")
                  +:+ nth i net_ids EmptyString)
         labels in
  Some (net_ids, active_net, join "  " parts).

End Session.

(** ** Server: the session table and the routing engine
       ([session_mgr.py], class [SessionManager]) *)

Module SessionManager.
Import PyFloat PyStr.

(** [by_ssrc] lists the dictionary's items in insertion order; every
    [Session] object is stored under one key, so the key stands for the
    object's identity. *)
Record t := mk {
  by_ssrc : list (Z * Session.t);
  net_alias : gmap string string;
  auto_merge_by_freq : bool
}.

Definition _freq_suffix_from_net (nid : string) : option string :=
  let nid := strip nid in
  if (String.length nid <? 4)%nat then None
  else
    let suffix := last4 nid in
    if negb (isdigit suffix) then None
    else
      match PyStr.py_int suffix with
      | None => None
      | Some val => if val <=? 0 then None else Some (fmt_04d val)
      end.

(** [suffix] is the four digits [_freq_suffix_from_net] returns. *)
Definition _auto_canon_for_suffix (suffix : string) : string :=
  let freq_str :=
    match PyStr.py_int suffix with
    | Some v => rstrip_char "." (rstrip_char "0" (fmt_tenths_1f v))
    | None => suffix
    end in
  "FREQ-" +:+ freq_str.

(** The variables of the [while] loop of [canonical_net]. *)
Record canon_state := CanonState {
  cur : string;
  seen : gset string;
  had_manual_alias : bool
}.

(** One test of the loop condition and, when it holds, one execution of
    the body; [None] when the loop exits. *)
Definition canon_step (alias : gmap string string) (st : canon_state)
  : option canon_state :=
  match alias !! cur st with
  | Some nxt =>
      if decide (cur st ∈ seen st) then None
      else Some (CanonState nxt ({[cur st]} ∪ seen st) true)
  | None => None
  end.

(** The loop, with a bound on the number of body executions; [None]
    when the bound is exhausted before the exit. *)
Fixpoint canon_loop (fuel : nat) (alias : gmap string string)
         (st : canon_state) : option canon_state :=
  match canon_step alias st with
  | None => Some st
  | Some st' =>
      match fuel with
      | O => None
      | S fuel' => canon_loop fuel' alias st'
      end
  end.

Definition canon_finish (auto : bool) (st : canon_state) : string :=
  if auto && negb (had_manual_alias st) then
    match _freq_suffix_from_net (cur st) with
    | Some suffix => _auto_canon_for_suffix suffix
    | None => cur st
    end
  else cur st.

Definition canonical_net_fuel (fuel : nat) (alias : gmap string string)
           (auto : bool) (nid : string) : option string :=
  let nid := strip nid in
  if String.eqb nid EmptyString then Some EmptyString
  else canon_finish auto <$> canon_loop fuel alias (CanonState nid ∅ false).

(** [SessionManager.canonical_net]: the loop run with as many body
    executions as the alias table has entries, which always suffice
    (see [canon_loop_terminates]). *)
Definition canonical_net (m : t) (nid : string) : string :=
  default EmptyString
    (canonical_net_fuel (size (net_alias m)) (net_alias m)
                        (auto_merge_by_freq m) nid).

Definition merge_net (m : t) (src dst : string) : t :=
  let src := strip src in
  let dst := strip dst in
  if String.eqb src EmptyString || String.eqb dst EmptyString
     || String.eqb src dst
  then m
  else
    let dst_canon := canonical_net m dst in
    mk (by_ssrc m) (<[src := dst_canon]> (net_alias m)) (auto_merge_by_freq m).

Definition reset_net_aliases (m : t) : t :=
  mk (by_ssrc m) ∅ (auto_merge_by_freq m).

Definition set_auto_merge_by_freq (m : t) (enabled : bool) : t :=
  mk (by_ssrc m) (net_alias m) enabled.

(** [self.by_ssrc.get(key)] *)
Definition get (m : t) (key : Z) : option Session.t :=
  snd <$> List.find (fun e => fst e =? key) (by_ssrc m).

(** [ACTIVE_TIMEOUT] *)
Definition ACTIVE_TIMEOUT : float := of_Z 15.

(** [now - last > ACTIVE_TIMEOUT] *)
Definition timed_out (now : float) (s : Session.t) : bool :=
  fltb ACTIVE_TIMEOUT (fsub now (Session.last_seen s)).

(** [[i for i, nid in enumerate(canon_nets) if nid == sender_chan_net]],
    the enumeration starting at [i]. *)
Fixpoint match_idxs_from (i : nat) (canon_nets : list string)
         (sender_chan_net : string) : list nat :=
  match canon_nets with
  | [] => []
  | nid :: rest =>
      if String.eqb nid sender_chan_net
      then i :: match_idxs_from (S i) rest sender_chan_net
      else match_idxs_from (S i) rest sender_chan_net
  end.

(** [bool(sc[idx])] when [len(sc) > idx], else [False]. *)
Definition chan_scan_flag (other : Session.t) (idx : nat) : bool :=
  nth idx (Session.scan_channels other) false.

(** The [for idx in match_idxs] loop with its [break]; the accumulator
    is [deliver_idx]. *)
Fixpoint pick_deliver (other : Session.t) (match_idxs : list nat)
         (deliver_idx : option nat) : option nat :=
  match match_idxs with
  | [] => deliver_idx
  | idx :: rest =>
      if Session.active_channel other =? Z.of_nat idx then Some idx
      else if chan_scan_flag other idx && negb (bool_decide (is_Some deliver_idx))
           then pick_deliver other rest (Some idx)
           else pick_deliver other rest deliver_idx
  end.

(** The body of the loop over the other sessions, up to the choice of
    [deliver_idx]; [None] covers every [continue]. *)
Definition deliver_for (m : t) (fresh : string) (now : float)
           (sender_chan_net : string) (other : Session.t) : option nat :=
  if timed_out now other then None
  else
    match Session.compute_networks fresh other with
    | None => None
    | Some (other_net_ids, _, _) =>
        match other_net_ids with
        | [] => None
        | _ =>
            let canon_nets := map (canonical_net m) other_net_ids in
            match match_idxs_from 0 canon_nets sender_chan_net with
            | [] => None
            | match_idxs => pick_deliver other match_idxs None
            end
        end
    end.

Definition recipient : Type := Z * Session.t * nat.

(** The loop [for other in self.by_ssrc.values()]; [seen_ids] is the set
    [seen] of object identities. *)
Fixpoint recipients_loop (m : t) (fresh : Z -> string) (now : float)
         (sender_key : Z) (sender_chan_net : string)
         (items : list (Z * Session.t))
         (recipients : list recipient) (seen_ids : gset Z)
  : list recipient :=
  match items with
  | [] => recipients
  | (key, other) :: rest =>
      if key =? sender_key then
        recipients_loop m fresh now sender_key sender_chan_net rest
                        recipients seen_ids
      else
        match deliver_for m (fresh key) now sender_chan_net other with
        | Some deliver_idx =>
            if decide (key ∈ seen_ids) then
              recipients_loop m fresh now sender_key sender_chan_net rest
                              recipients seen_ids
            else
              recipients_loop m fresh now sender_key sender_chan_net rest
                              (recipients ++ [(key, other, deliver_idx)])
                              ({[key]} ∪ seen_ids)
        | None =>
            recipients_loop m fresh now sender_key sender_chan_net rest
                            recipients seen_ids
        end
  end.

(** [SessionManager.audio_recipients_for]. [fresh key] is the prefix
    [_make_prefix()] would draw while the networks of the session under
    [key] are computed, [now] the value of [time()]. *)
Definition audio_recipients_for (fresh : Z -> string) (now : float)
           (m : t) (ssrc : Z)
  : list recipient * string * nat * string :=
  match get m ssrc with
  | None => ([], EmptyString, 0%nat, EmptyString)
  | Some sender =>
      let '(sender_net_ids, sender_active_net) :=
        match Session.compute_networks (fresh ssrc) sender with
        | Some (ids, active_net, _) => (ids, active_net)
        | None => ([], EmptyString)
        end in
      let chan_idx := Session.clamp_channel (Session.active_channel sender) in
      let sender_active_net := canonical_net m sender_active_net in
      let sender_chan_net :=
        if (chan_idx <? length sender_net_ids)%nat
        then canonical_net m (nth chan_idx sender_net_ids EmptyString)
        else EmptyString in
      if String.eqb sender_chan_net EmptyString then
        ([], sender_active_net, chan_idx, sender_chan_net)
      else
        let recipients :=
          recipients_loop m fresh now ssrc sender_chan_net (by_ssrc m) [] ∅ in
        let recipients :=
          if Session.loopback sender
          then recipients ++ [(ssrc, sender, chan_idx)]
          else recipients in
        (recipients, sender_active_net, chan_idx, sender_chan_net)
  end.

End SessionManager.

(** ** numpy arrays of [float32] and [int16] samples *)

Module Numpy.

Definition f32 := spec_float.

Definition f32_of_Z (z : Z) : f32 := binary_normalize 24 128 z 0 false.
Definition f32_add : f32 -> f32 -> f32 := SFadd 24 128.
Definition f32_mul : f32 -> f32 -> f32 := SFmul 24 128.
Definition f32_div : f32 -> f32 -> f32 := SFdiv 24 128.

(** Conversion of a Python float to [float32], rounding to nearest. *)
Definition f32_of_float (x : PyFloat.float) : f32 :=
  match x with
  | S754_finite s m e => binary_round 24 128 s m e
  | _ => x
  end.

Definition byte_val (b : byte) : Z := Z.of_N (Byte.to_N b).

(** The binary32 value of a 32-bit word. *)
Definition f32_of_bits (w : Z) : f32 :=
  let s := Z.testbit w 31 in
  let e := Z.land (Z.shiftr w 23) 255 in
  let m := Z.land w (2 ^ 23 - 1) in
  if e =? 0 then
    match m with
    | Zpos p => S754_finite s p (-149)
    | _ => S754_zero s
    end
  else if e =? 255 then
    if m =? 0 then S754_infinity s else S754_nan
  else
    match m + 2 ^ 23 with
    | Zpos p => S754_finite s p (e - 150)
    | _ => S754_nan
    end.

(** [np.frombuffer(data, dtype='<f4')] on a buffer whose length is a
    multiple of four. *)
Fixpoint frombuffer_f4 (data : list byte) : list f32 :=
  match data with
  | b0 :: b1 :: b2 :: b3 :: rest =>
      f32_of_bits (byte_val b0 + 256 * byte_val b1 + 65536 * byte_val b2
                   + 16777216 * byte_val b3)
      :: frombuffer_f4 rest
  | _ => []
  end.

(** [np.frombuffer(data, dtype='<i2')] on a buffer of even length. *)
Fixpoint frombuffer_i2 (data : list byte) : list Z :=
  match data with
  | b0 :: b1 :: rest =>
      let u := byte_val b0 + 256 * byte_val b1 in
      (if 32768 <=? u then u - 65536 else u) :: frombuffer_i2 rest
  | _ => []
  end.

(** [a.reshape(-1, channels)]: consecutive rows of [channels] samples. *)
Fixpoint rows {A : Type} (fuel : nat) (channels : nat) (a : list A)
  : list (list A) :=
  match fuel with
  | O => []
  | S fuel' =>
      match a with
      | [] => []
      | _ => take channels a :: rows fuel' channels (drop channels a)
      end
  end.

Definition reshape_rows {A : Type} (channels : Z) (a : list A)
  : list (list A) :=
  rows (length a) (Z.to_nat channels) a.

(** [row.mean()] of a [float32] row: the sum in [float32], taken from
    left to right, divided by the count. *)
Definition f32_mean (row : list f32) : f32 :=
  match row with
  | [] => S754_nan
  | x :: rest => f32_div (fold_left f32_add rest x)
                         (f32_of_Z (Z.of_nat (length row)))
  end.

(** [row.mean()] of an [int16] row cast back with [astype(np.int16)]:
    the exact mean truncated toward zero. *)
Definition i16_mean (row : list Z) : Z :=
  Z.quot (fold_left Z.add row 0) (Z.of_nat (length row)).

(** [np.clip(x, -1.0, 1.0)] on one sample; a NaN stays a NaN. *)
Definition clip (x : f32) : f32 :=
  match x with
  | S754_nan => S754_nan
  | _ =>
      if SFltb x (f32_of_Z (-1)) then f32_of_Z (-1)
      else if SFltb (f32_of_Z 1) x then f32_of_Z 1
      else x
  end.

(** [a.astype(np.float32) / 32767.0] on [int16] samples. *)
Definition i16_to_unit (a : list Z) : list f32 :=
  map (fun v => f32_div (f32_of_Z v) (f32_of_Z 32767)) a.

(** The sample lies in [[-1, 1]]. *)
Definition in_unit (x : f32) : bool :=
  SFleb (f32_of_Z (-1)) x && SFleb x (f32_of_Z 1).

End Numpy.

(** ** Server: the tolerant raw-PCM decoder ([opus_shim.py], class
       [OpusDecoder]) *)

Module OpusDecoder.
Import Numpy.

(** The [float32] branch: decode, downmix when the sample count is a
    multiple of the channel count, clip. *)
Definition decode_f4 (channels : Z) (data : list byte) : list f32 :=
  let pcm := frombuffer_f4 data in
  let pcm :=
    if (1 <? channels) && (Z.of_nat (length pcm) mod channels =? 0)
    then map f32_mean (reshape_rows channels pcm)
    else pcm in
  map clip pcm.

(** The [int16] branch. *)
Definition decode_i2 (channels : Z) (data : list byte) : list f32 :=
  let pcm_i16 := frombuffer_i2 data in
  let pcm_i16 :=
    if (1 <? channels) && (Z.of_nat (length pcm_i16) mod channels =? 0)
    then map i16_mean (reshape_rows channels pcm_i16)
    else pcm_i16 in
  i16_to_unit pcm_i16.

(** The loop [for drop in (1, 2, 3)]; [None] is the [ValueError] raised
    after the loop. *)
Fixpoint trim_loop (channels : Z) (data : list byte) (n : Z)
         (drops : list Z) : option (list f32) :=
  match drops with
  | [] => None
  | drop :: rest =>
      let m := n - drop in
      if m <=? 0 then None
      else if m mod 4 =? 0 then
        Some (decode_f4 channels (take (Z.to_nat m) data))
      else if m mod 2 =? 0 then
        Some (decode_i2 channels (take (Z.to_nat m) data))
      else trim_loop channels data n rest
  end.

(** [OpusDecoder.decode_to_float32]; [channels] is [self.channels]. *)
Definition decode_to_float32 (channels : Z) (data : list byte)
  : option (list f32) :=
  match data with
  | [] => Some []
  | _ =>
      let n := Z.of_nat (length data) in
      if n mod 4 =? 0 then Some (decode_f4 channels data)
      else if n mod 2 =? 0 then Some (decode_i2 channels data)
      else trim_loop channels data n [1; 2; 3]
  end.

End OpusDecoder.

(** ** Client: the Opus shim and its decoder cache ([opus_shim.py],
       class [OpusShim]) *)

Module OpusShim.
Import Numpy.

Section Shim.

(** The state of one [opuslib.Decoder]. *)
Variable Decoder : Type.

(** [dec.decode(b, samples_per_frame, False)]: the decoder's next
    state and the PCM bytes, or [None] when it raises. *)
Variable opus_decode : Decoder -> list byte -> Z -> option (Decoder * list byte).

(** [_decoders] lists the dictionary's items in insertion order. *)
Record t := mk {
  enabled : bool;
  rate : Z;
  channels : Z;
  samples_per_frame : Z;
  dec : option Decoder;
  _decoders : list (Z * Decoder)
}.

Definition with_decoders (s : t) (c : list (Z * Decoder)) : t :=
  mk (enabled s) (rate s) (channels s) (samples_per_frame s) (dec s) c.

(** [d.get(key)] *)
Definition cache_get (key : Z) (c : list (Z * Decoder)) : option Decoder :=
  snd <$> List.find (fun e => fst e =? key) c.

(** [d.pop(key, None)] *)
Definition cache_pop (key : Z) (c : list (Z * Decoder)) : list (Z * Decoder) :=
  List.filter (fun e => negb (fst e =? key)) c.

(** [OpusShim._get_decoder]; [new_dec] is the outcome of the call
    [Decoder(s.rate, s.channels)], [None] when it raises. *)
Definition _get_decoder (new_dec : option Decoder) (s : t) (key : option Z)
  : t * option Decoder :=
  if negb (enabled s) then (s, None)
  else
    match key with
    | None => (s, dec s)
    | Some k =>
        match cache_get k (_decoders s) with
        | Some d => (s, Some d)
        | None =>
            match new_dec with
            | None => (s, None)
            | Some d =>
                let c := _decoders s ++ [(k, d)] in
                let c :=
                  if (32 <? length c)%nat then
                    match c with
                    | (oldest, _) :: _ =>
                        if negb (oldest =? k) then cache_pop oldest c else c
                    | [] => c
                    end
                  else c in
                (with_decoders s c, Some d)
            end
        end
    end.

(** The decoder under [key] after [decode] has advanced its state. *)
Definition store_decoder (s : t) (key : option Z) (d : Decoder) : t :=
  match key with
  | None => mk (enabled s) (rate s) (channels s) (samples_per_frame s)
               (Some d) (_decoders s)
  | Some k =>
      with_decoders s
        (map (fun e => if fst e =? k then (k, d) else e) (_decoders s))
  end.

(** [OpusShim.decode_to_float32]. The outer [option] is [None] when
    [dec.decode] raises, the inner one is the returned value. *)
Definition decode_to_float32 (new_dec : option Decoder) (s : t)
           (b : list byte) (ssrc : option Z)
  : t * option (option (list f32)) :=
  if negb (enabled s) then (s, Some None)
  else
    let '(s, d) := _get_decoder new_dec s ssrc in
    match d with
    | None => (s, Some None)
    | Some d =>
        match opus_decode d b (samples_per_frame s) with
        | None => (s, None)
        | Some (d', pcm16) =>
            (store_decoder s ssrc d',
             Some (Some (i16_to_unit (frombuffer_i2 pcm16))))
        end
    end.

(** A sequence of decode calls, each with its packet, its sender and
    the outcome of the decoder construction it may need. *)
Fixpoint decode_all (s : t) (calls : list (option Decoder * list byte * option Z))
  : t :=
  match calls with
  | [] => s
  | (new_dec, b, ssrc) :: rest =>
      decode_all (fst (decode_to_float32 new_dec s b ssrc)) rest
  end.

(** The shim as [__init__] leaves it. *)
Definition init (enabled : bool) (rate channels frame_ms : Z)
           (dec : option Decoder) : t :=
  mk enabled rate channels (rate * frame_ms / 1000) dec [].

End Shim.

Arguments mk {Decoder}.
Arguments enabled {Decoder}.
Arguments rate {Decoder}.
Arguments channels {Decoder}.
Arguments samples_per_frame {Decoder}.
Arguments dec {Decoder}.
Arguments _decoders {Decoder}.
Arguments with_decoders {Decoder}.
Arguments cache_get {Decoder}.
Arguments cache_pop {Decoder}.
Arguments _get_decoder {Decoder}.
Arguments store_decoder {Decoder}.
Arguments decode_to_float32 {Decoder}.
Arguments decode_all {Decoder}.
Arguments init {Decoder}.

End OpusShim.

(** ** Client: channel audibility, channel gain and the mix step
       ([app/app.py], class [RadioApp]) *)

Module RadioApp.
Import PyFloat Numpy.

(** [AUDIO_BLOCK] *)
Definition AUDIO_BLOCK : nat := 480.

Definition _snap_10 (v : Z) : Z := Z.max 0 (Z.min 100 ((v / 10) * 10)).

Definition _snap_10_min30 (v : Z) : Z := Z.max 30 (_snap_10 v).

(** The Tk variables the mix step reads and the frame cache it writes.
    [scan_vars] and [chan_vol_vars] belong to the channels A to C;
    [scan_d_var] is the scan flag of channel D, created [True], written
    only with [True], its check box disabled. *)
Record t := mk {
  active_chan : Z;
  scan_vars : list bool;
  scan_d_var : bool;
  chan_vol_vars : list Z;
  chan_d_vol_var : Z;
  _rx_last_frame : option (list f32);
  _rx_last_repeat : Z
}.

(** [RadioApp.channel_is_audible]; [None] is the [IndexError] of
    [self.scan_vars[idx]]. *)
Definition channel_is_audible (a : t) (idx : Z) : option bool :=
  if (0 <=? idx) && (idx <? 3) then
    if idx =? active_chan a then Some true
    else scan_vars a !! Z.to_nat idx
  else if idx =? 3 then Some true
  else Some false.

(** The local function [_gain] of [get_channel_volume]. *)
Definition _gain (pct : Z) : float :=
  let pct := Z.max 0 (Z.min 100 pct) in
  if pct <=? 50 then fdiv (of_Z pct) (of_Z 50)
  else SFadd prec emax (of_Z 1) (fdiv (of_Z (pct - 50)) (of_Z 50)).

(** [RadioApp.get_channel_volume]; [None] is the [IndexError] of
    [self.chan_vol_vars[idx]]. *)
Definition get_channel_volume (a : t) (idx : Z) : option float :=
  if (0 <=? idx) && (idx <? 3) then
    v ← chan_vol_vars a !! Z.to_nat idx; Some (_gain (_snap_10 v))
  else if idx =? 3 then Some (_gain (_snap_10_min30 (chan_d_vol_var a)))
  else Some (of_Z 1).

(** One entry of the receive queue. *)
Record rx_item := RxItem {
  buf : list f32;
  chan_idx : option Z;
  ssrc : option Z;
  ts : float
}.

(** [arr * float(gain)] *)
Definition scale (gain : float) (arr : list f32) : list f32 :=
  map (fun x => f32_mul x (f32_of_float gain)) arr.

Fixpoint add_prefix (mix arr : list f32) : list f32 :=
  match mix, arr with
  | m :: mix', x :: arr' => f32_add m x :: add_prefix mix' arr'
  | _, _ => mix
  end.

(** [mix[:len(arr)] += arr]; the shapes differ, and the statement
    raises, when [arr] is longer than [mix]. *)
Definition add_into (mix arr : list f32) : option (list f32) :=
  if (length mix <? length arr)%nat then None else Some (add_prefix mix arr).

(** The gain the loop body uses for an item: the [except] branch gives
    [1.0]. *)
Definition item_gain (a : t) (item : rx_item) : float :=
  default (of_Z 1)
    (get_channel_volume a (match chan_idx item with
                           | Some c => c
                           | None => active_chan a
                           end)).

(** The item is passed over by the [continue] of the loop body. *)
Definition skipped (a : t) (item : rx_item) : bool :=
  match chan_idx item with
  | Some c =>
      match channel_is_audible a c with
      | Some audible => negb audible
      | None => false
      end
  | None => false
  end.

(** The body of [for item in batch]. *)
Definition mix_item (a : t) (mix : list f32) (item : rx_item)
  : option (list f32) :=
  if skipped a item then Some mix
  else add_into mix (scale (item_gain a item) (buf item)).

Fixpoint mix_items (a : t) (mix : list f32) (batch : list rx_item)
  : option (list f32) :=
  match batch with
  | [] => Some mix
  | item :: rest =>
      match mix_item a mix item with
      | Some mix' => mix_items a mix' rest
      | None => None
      end
  end.

(** [np.max(np.abs(mix))] as a [float32]; a NaN sample makes it NaN. *)
Definition peak_of (mix : list f32) : f32 :=
  fold_left (fun p x =>
               let ax := SFabs x in
               match p, ax with
               | S754_nan, _ => S754_nan
               | _, S754_nan => S754_nan
               | _, _ => if SFltb p ax then ax else p
               end)
            mix (S754_zero false).

(** The soft limiter. *)
Definition soft_limit (mix : list f32) : list f32 :=
  let peak := peak_of mix in
  if SFltb (f32_of_Z 1) peak then map (fun x => f32_div x peak) mix else mix.

(** The second [try] block of [RadioApp._dequeue_rx_frame]: the mix of
    the batch taken from the queue, and the state with the frame
    cached. [None] is the [return None] of the [except] branch. *)
Definition mix_batch (a : t) (batch : list rx_item) : option (t * list f32) :=
  match mix_items a (replicate AUDIO_BLOCK (S754_zero false)) batch with
  | None => None
  | Some mix =>
      let mix := soft_limit mix in
      Some (mk (active_chan a) (scan_vars a) (scan_d_var a) (chan_vol_vars a)
               (chan_d_vol_var a) (Some mix) 0,
            mix)
  end.


(** The shape of the state in every run of the client. *)
Definition well_formed (a : t) : Prop :=
  length (scan_vars a) = 3%nat /\ length (chan_vol_vars a) = 3%nat
  /\ scan_d_var a = true.

End RadioApp.

(** ** JSON values, as [json.loads] returns them *)

Module Json.
Import PyFloat.

#[local] Set Warnings "-register-all".

(** An object is the list of its items, every key once. *)
Inductive t :=
| JNull
| JBool (b : bool)
| JInt (n : Z)
| JFloat (x : float)
| JStr (s : string)
| JList (l : list t)
| JObject (o : list (string * t)).

(** [bool(v)] *)
Definition truthy (v : t) : bool :=
  match v with
  | JNull => false
  | JBool b => b
  | JInt n => negb (n =? 0)
  | JFloat x => match x with S754_zero _ => false | _ => true end
  | JStr s => negb (String.eqb s EmptyString)
  | JList l => match l with [] => false | _ => true end
  | JObject o => match o with [] => false | _ => true end
  end.

(** [d.get(key)] *)
Definition get (o : list (string * t)) (key : string) : option t :=
  snd <$> List.find (fun e => String.eqb (fst e) key) o.

Section Conversions.

(** [int(s)] and [float(s)] on a [str]; [None] is the [ValueError]. *)
Variable str_int : string -> option Z.
Variable str_float : string -> option float.

(** [int(v)]; [None] is the [TypeError], [ValueError] or
    [OverflowError]. *)
Definition to_int (v : t) : option Z :=
  match v with
  | JBool b => Some (if b then 1 else 0)
  | JInt n => Some n
  | JFloat x => PyFloat.py_int x
  | JStr s => str_int s
  | _ => None
  end.

(** [float(v)]; an [int] is rounded to the nearest double and raises
    [OverflowError] beyond the largest one. *)
Definition to_float (v : t) : option float :=
  match v with
  | JBool b => Some (of_Z (if b then 1 else 0))
  | JInt n =>
      match of_Z n with
      | S754_infinity _ => None
      | x => Some x
      end
  | JFloat x => Some x
  | JStr s => str_float s
  | _ => None
  end.

End Conversions.

End Json.

(** ** Server: the session table with every attribute
       ([session_mgr.py], classes [Session] and [SessionManager]) *)

Module SessionStore.
Import PyFloat PyStr.

(** A socket address [(host, port)]. *)
Definition addr_t : Type := string * Z.

(** A [Session] object: the attributes routing reads ([base]) and the
    other ones. *)
Record session := mk_session {
  base : Session.t;
  addr : addr_t;
  client_id : option string;
  net : string;
  current_tx_freq : option float;
  position : option (list (string * Json.t))
}.

(** The keyword arguments of [upsert] and the body of a presence
    report, with the types the client gives them: [None] for a key
    that is absent or null, the strings and the truth value of
    [loopback] otherwise. *)
Record meta := mk_meta {
  m_client_id : option string;
  m_nick : option string;
  m_net : option string;
  m_loopback : option bool
}.

(** [by_ssrc] lists the dictionary's items in insertion order. Of
    [by_addr] only the key set is ever read (by [drop]); its values
    are left out. *)
Record t := mk {
  by_ssrc : list (Z * session);
  by_addr : gset addr_t;
  freq_frames : gmap string Z;
  freq_bytes : gmap string Z;
  net_alias : gmap string string;
  auto_merge_by_freq : bool
}.

(** [SessionManager.__init__] *)
Definition init : t := mk [] ∅ ∅ ∅ ∅ false.

(** The part of the manager the routing engine works on. *)
Definition manager (r : t) : SessionManager.t :=
  SessionManager.mk (map (fun e => (fst e, base (snd e))) (by_ssrc r))
                    (net_alias r) (auto_merge_by_freq r).

Definition with_sessions (r : t) (items : list (Z * session)) : t :=
  mk items (by_addr r) (freq_frames r) (freq_bytes r) (net_alias r)
     (auto_merge_by_freq r).

Definition with_base (s : session) (b : Session.t) : session :=
  mk_session b (addr s) (client_id s) (net s) (current_tx_freq s)
             (position s).

(** [self.by_ssrc.get(key)] *)
Definition get (r : t) (key : Z) : option session :=
  snd <$> List.find (fun e => fst e =? key) (by_ssrc r).

(** The items after the object under [key] has been mutated by [f]. *)
Definition update (key : Z) (f : session -> session)
           (items : list (Z * session)) : list (Z * session) :=
  map (fun e => if fst e =? key then (fst e, f (snd e)) else e) items.

(** [del d[key]] *)
Definition remove (key : Z) (items : list (Z * session))
  : list (Z * session) :=
  List.filter (fun e => negb (fst e =? key)) items.

(** [s.last_seen = time()] *)
Definition touch (now : float) (s : session) : session :=
  let b := base s in
  with_base s
    (Session.mk (Session.ssrc b) (Session.nick b) (Session.active_channel b)
                (Session.freqs b) (Session.scan b) (Session.scan_channels b)
                (Session.ptt b) (Session.loopback b) now
                (Session.net_prefixes b)).

Definition set_nick (v : string) (s : session) : session :=
  let b := base s in
  with_base s
    (Session.mk (Session.ssrc b) v (Session.active_channel b)
                (Session.freqs b) (Session.scan b) (Session.scan_channels b)
                (Session.ptt b) (Session.loopback b) (Session.last_seen b)
                (Session.net_prefixes b)).

Definition set_active_channel (v : Z) (s : session) : session :=
  let b := base s in
  with_base s
    (Session.mk (Session.ssrc b) (Session.nick b) v
                (Session.freqs b) (Session.scan b) (Session.scan_channels b)
                (Session.ptt b) (Session.loopback b) (Session.last_seen b)
                (Session.net_prefixes b)).

Definition set_freqs (v : list float) (s : session) : session :=
  let b := base s in
  with_base s
    (Session.mk (Session.ssrc b) (Session.nick b) (Session.active_channel b)
                v (Session.scan b) (Session.scan_channels b)
                (Session.ptt b) (Session.loopback b) (Session.last_seen b)
                (Session.net_prefixes b)).

Definition set_scan (v : bool) (s : session) : session :=
  let b := base s in
  with_base s
    (Session.mk (Session.ssrc b) (Session.nick b) (Session.active_channel b)
                (Session.freqs b) v (Session.scan_channels b)
                (Session.ptt b) (Session.loopback b) (Session.last_seen b)
                (Session.net_prefixes b)).

Definition set_scan_channels (v : list bool) (s : session) : session :=
  let b := base s in
  with_base s
    (Session.mk (Session.ssrc b) (Session.nick b) (Session.active_channel b)
                (Session.freqs b) (Session.scan b) v
                (Session.ptt b) (Session.loopback b) (Session.last_seen b)
                (Session.net_prefixes b)).

Definition set_ptt (v : bool) (s : session) : session :=
  let b := base s in
  with_base s
    (Session.mk (Session.ssrc b) (Session.nick b) (Session.active_channel b)
                (Session.freqs b) (Session.scan b) (Session.scan_channels b)
                v (Session.loopback b) (Session.last_seen b)
                (Session.net_prefixes b)).

Definition set_loopback (v : bool) (s : session) : session :=
  let b := base s in
  with_base s
    (Session.mk (Session.ssrc b) (Session.nick b) (Session.active_channel b)
                (Session.freqs b) (Session.scan b) (Session.scan_channels b)
                (Session.ptt b) v (Session.last_seen b)
                (Session.net_prefixes b)).

Definition set_addr (v : addr_t) (s : session) : session :=
  mk_session (base s) v (client_id s) (net s) (current_tx_freq s)
             (position s).

Definition set_client_id (v : option string) (s : session) : session :=
  mk_session (base s) (addr s) v (net s) (current_tx_freq s) (position s).

Definition set_net (v : string) (s : session) : session :=
  mk_session (base s) (addr s) (client_id s) v (current_tx_freq s)
             (position s).

Definition set_current_tx_freq (v : option float) (s : session) : session :=
  mk_session (base s) (addr s) (client_id s) (net s) v (position s).

Definition set_position (v : option (list (string * Json.t))) (s : session)
  : session :=
  mk_session (base s) (addr s) (client_id s) (net s) (current_tx_freq s) v.

(** The value of [meta.get(key)] when it is truthy. *)
Definition truthy_str (v : option string) : option string :=
  match v with
  | Some s => if String.eqb s EmptyString then None else Some s
  | None => None
  end.

(** [if cond: s.attr = value], the condition being that the value is
    there. *)
Definition set_if {A : Type} (v : option A) (set : A -> session -> session)
           (s : session) : session :=
  match v with
  | Some x => set x s
  | None => s
  end.

(** [Session.__init__]; [rnd i] is the outcome of the [i]-th call of
    [_make_prefix()], [now] the value of [time()]. *)
Definition new_session (rnd : nat -> string) (now : float) (a : addr_t)
           (ssrc : Z) (cid : option string) (nick net : string) : session :=
  mk_session
    (Session.mk ssrc nick 0
                (replicate 4 (S754_zero false)) false (replicate 4 false)
                false false now (map rnd [0; 1; 2; 3]%nat))
    a cid net None None.

(** [existing.client_id and existing.client_id == client_id] *)
Definition same_client (cid : string) (e : Z * session) : bool :=
  match client_id (snd e) with
  | Some c => negb (String.eqb c EmptyString) && String.eqb c cid
  | None => false
  end.

(** [SessionManager.upsert]; the session it returns is the one stored
    under [ssrc] afterwards. *)
Definition upsert (rnd : nat -> string) (now : float) (r : t)
           (a : addr_t) (ssrc : Z) (m : meta) : t :=
  let key := ssrc in
  let '(items, s) :=
    match get r key, truthy_str (m_client_id m) with
    | None, Some cid =>
        match List.find (same_client cid) (by_ssrc r) with
        | Some (old_key, existing) =>
            (if negb (old_key =? key)
             then remove old_key (by_ssrc r) ++ [(key, existing)]
             else by_ssrc r,
             Some existing)
        | None => (by_ssrc r, None)
        end
    | s, _ => (by_ssrc r, s)
    end in
  let finish (s : session) : session :=
    touch now (set_if (m_loopback m) set_loopback s) in
  match s with
  | None =>
      let s := new_session rnd now a ssrc (m_client_id m)
                           (default EmptyString (m_nick m))
                           (default EmptyString (m_net m)) in
      mk (items ++ [(key, finish s)]) ({[a]} ∪ by_addr r)
         (freq_frames r) (freq_bytes r) (net_alias r) (auto_merge_by_freq r)
  | Some _ =>
      with_sessions r
        (update key
           (fun s =>
              finish
                (set_if (truthy_str (m_net m)) set_net
                   (set_if (truthy_str (m_nick m)) set_nick
                      (set_if (truthy_str (m_client_id m))
                              (fun c => set_client_id (Some c))
                              (set_addr a s)))))
           items)
  end.

(** [SessionManager.note_heartbeat] *)
Definition note_heartbeat (now : float) (r : t) (ssrc : Z) : t :=
  match get r ssrc with
  | None => r
  | Some _ => with_sessions r (update ssrc (touch now) (by_ssrc r))
  end.

(** [SessionManager.drop] *)
Definition drop (r : t) (ssrc : Z) : t :=
  match get r ssrc with
  | None => r
  | Some s =>
      mk (remove ssrc (by_ssrc r)) (by_addr r ∖ {[addr s]})
         (freq_frames r) (freq_bytes r) (net_alias r) (auto_merge_by_freq r)
  end.

Section Conversions.

Variable str_int : string -> option Z.
Variable str_float : string -> option float.

(** The three assignments of [set_channel], each under its guard. *)
Definition assign_channel (active_idx freqs scan : Json.t) (s : session)
  : session :=
  let s := set_if (Json.to_int str_int active_idx) set_active_channel s in
  let s :=
    match freqs with
    | Json.JList l =>
        if (length l =? 4)%nat
        then set_if (mapM (Json.to_float str_float) l) set_freqs s
        else s
    | _ => s
    end in
  match scan with
  | Json.JBool b => set_scan b s
  | _ => s
  end.

(** [SessionManager.set_channel] *)
Definition set_channel (now : float) (r : t) (ssrc : Z)
           (active_idx freqs scan : Json.t) : t :=
  match get r ssrc with
  | None => r
  | Some _ =>
      with_sessions r
        (update ssrc
           (fun s => touch now (assign_channel active_idx freqs scan s))
           (by_ssrc r))
  end.

(** The assignments of [set_tx_state]; [freq] is [None] for the
    default argument. *)
Definition assign_tx (on : bool) (freq : option Json.t) (s : session)
  : session :=
  let s := set_ptt on s in
  if on then
    match freq with
    | Some v => set_current_tx_freq (Json.to_float str_float v) s
    | None =>
        let idx :=
          Session.clamp_channel (Session.active_channel (base s)) in
        set_current_tx_freq (Session.freqs (base s) !! idx) s
    end
  else set_current_tx_freq None s.

(** [SessionManager.set_tx_state] *)
Definition set_tx_state (now : float) (r : t) (ssrc : Z) (on : bool)
           (freq : option Json.t) : t :=
  match get r ssrc with
  | None => r
  | Some _ =>
      with_sessions r
        (update ssrc (fun s => touch now (assign_tx on freq s)) (by_ssrc r))
  end.

(** [SessionManager.note_ptt] *)
Definition note_ptt (now : float) (r : t) (ssrc : Z) (on : bool) : t :=
  set_tx_state now r ssrc on None.

(** The list [sc] padded with [False] or cut to four entries. *)
Definition normalize_scan (sc : list bool) : list bool :=
  if (length sc <? 4)%nat then take 4 (sc ++ replicate 4 false)
  else take 4 sc.

(** [SessionManager.note_chan_update]; [now] and [now'] are the values
    of the two calls of [time()], the one in [set_channel] and the one
    that follows the scan flags. *)
Definition note_chan_update (now now' : float) (r : t) (ssrc : Z)
           (upd : Json.t) : t :=
  match upd with
  | Json.JObject o =>
      let active := default (Json.JInt 0) (Json.get o "active") in
      let freqs := default (Json.JList []) (Json.get o "freqs") in
      let scan :=
        Json.JBool (Json.truthy (default (Json.JBool false)
                                         (Json.get o "scan"))) in
      let r := set_channel now r ssrc active freqs scan in
      match Json.get o "scan_channels" with
      | Some (Json.JList l) =>
          let sc := normalize_scan (map Json.truthy l) in
          match get r ssrc with
          | None => r
          | Some _ =>
              with_sessions r
                (update ssrc
                   (fun s => touch now' (set_scan_channels sc s))
                   (by_ssrc r))
          end
      | _ => r
      end
  | _ => r
  end.

End Conversions.

(** [SessionManager.note_position] *)
Definition note_position (now : float) (r : t) (ssrc : Z) (pos : Json.t)
  : t :=
  match get r ssrc with
  | None => r
  | Some _ =>
      with_sessions r
        (update ssrc
           (fun s =>
              touch now
                (match pos with
                 | Json.JObject o => set_position (Some o) s
                 | _ => s
                 end))
           (by_ssrc r))
  end.

(** [SessionManager.note_presence] *)
Definition note_presence (now : float) (r : t) (ssrc : Z) (info : meta)
  : t :=
  match get r ssrc with
  | None => r
  | Some _ =>
      with_sessions r
        (update ssrc
           (fun s =>
              touch now
                (set_if (m_loopback info) set_loopback
                   (set_if (truthy_str (m_client_id info))
                           (fun c => set_client_id (Some c))
                           (set_if (truthy_str (m_net info)) set_net
                              (set_if (truthy_str (m_nick info)) set_nick
                                      s)))))
           (by_ssrc r))
  end.

(** The integer nearest to [m * 1000 * 2^e], ties to even. *)
Definition thousandths (m : positive) (e : Z) : Z :=
  match e with
  | Zneg p =>
      let d := 2 ^ Zpos p in
      let q := (Zpos m * 1000) / d in
      let rem := (Zpos m * 1000) mod d in
      if 2 * rem <? d then q
      else if d <? 2 * rem then q + 1
      else if Z.even q then q else q + 1
  | _ => Zpos m * 1000 * 2 ^ e
  end.

(** [f"{x:.3f}"] *)
Definition fmt_3f (x : float) : string :=
  match x with
  | S754_nan => "nan"
  | S754_infinity s => if s then "-inf" else "inf"
  | S754_zero s => (if s then "-" else "") +:+ "0.000"
  | S754_finite s m e =>
      let n := thousandths m e in
      (if s then "-" else "") +:+ dec_str (n / 1000) +:+ "."
        +:+ zfill 3 (dec_str (n mod 1000))
  end.

(** [d[key] += n] on a [defaultdict(int)] *)
Definition bump (key : string) (n : Z) (d : gmap string Z) : gmap string Z :=
  <[key := default 0 (d !! key) + n]> d.

(** [SessionManager.note_audio_for] *)
Definition note_audio_for (now : float) (r : t) (ssrc : Z) (nbytes : Z) : t :=
  let s := get r ssrc in
  let key :=
    match s with
    | Some s =>
        match current_tx_freq s with
        | Some f => fmt_3f f
        | None => "unknown"
        end
    | None => "unknown"
    end in
  mk (match s with
      | Some _ => update ssrc (touch now) (by_ssrc r)
      | None => by_ssrc r
      end)
     (by_addr r) (bump key 1 (freq_frames r)) (bump key nbytes (freq_bytes r))
     (net_alias r) (auto_merge_by_freq r).

(** The alias table and the flag after an operation of the routing
    engine. *)
Definition with_routing (r : t) (m : SessionManager.t) : t :=
  mk (by_ssrc r) (by_addr r) (freq_frames r) (freq_bytes r)
     (SessionManager.net_alias m) (SessionManager.auto_merge_by_freq m).

Definition merge_net (r : t) (src dst : string) : t :=
  with_routing r (SessionManager.merge_net (manager r) src dst).

Definition reset_net_aliases (r : t) : t :=
  with_routing r (SessionManager.reset_net_aliases (manager r)).

Definition set_auto_merge_by_freq (r : t) (enabled : bool) : t :=
  with_routing r (SessionManager.set_auto_merge_by_freq (manager r) enabled).

End SessionStore.

(** ** The wire format ([udp_protocol.py], the same in both programs) *)

Module UdpProtocol.
Import Numpy.

Definition VER : Z := 1.
Definition MT_AUDIO : Z := 0.
Definition MT_CTRL : Z := 1.
Definition MT_ACK : Z := 2.
Definition AUDIO_FLAG_PTT : Z := 1.
Definition AUDIO_FLAG_CODEC_PCM : Z := 2.
Definition AUDIO_FLAG_PCM_I16 : Z := 4.
Definition HDR_SZ : nat := 12.
Definition AUDIO_HDR_SZ : nat := 3.
Definition CTRL_HDR_SZ : nat := 3.

(** The byte of value [z mod 256]. *)
Definition byte_of (z : Z) : byte :=
  default Byte.x00 (Byte.of_N (Z.to_N (z mod 256))).

(** The [n] bytes of [v], most significant first. *)
Fixpoint be_bytes (n : nat) (v : Z) : list byte :=
  match n with
  | O => []
  | S n' => be_bytes n' (v / 256) ++ [byte_of v]
  end.

(** The value of a field read most significant byte first. *)
Definition be_value (bs : list byte) : Z :=
  fold_left (fun acc b => 256 * acc + byte_val b) bs 0.

(** One unsigned field of [n] bytes in [struct.pack]; [None] is the
    [struct.error] on a value out of range. *)
Definition pack_uint (n : nat) (v : Z) : option (list byte) :=
  if (0 <=? v) && (v <? 2 ^ (8 * Z.of_nat n)) then Some (be_bytes n v)
  else None.

(** [struct.pack("!BBHII", a, b, c, d, e)] *)
Definition pack_BBHII (a b c d e : Z) : option (list byte) :=
  ba ← pack_uint 1 a;
  bb ← pack_uint 1 b;
  bc ← pack_uint 2 c;
  bd ← pack_uint 4 d;
  be ← pack_uint 4 e;
  Some (ba ++ bb ++ bc ++ bd ++ be).

(** [struct.unpack("!BBHII", b)]; [None] is the [struct.error] on a
    buffer that is not twelve bytes long. *)
Definition unpack_BBHII (b : list byte) : option (Z * Z * Z * Z * Z) :=
  if (length b =? 12)%nat then
    Some (be_value (take 1 b), be_value (take 1 (drop 1 b)),
          be_value (take 2 (drop 2 b)), be_value (take 4 (drop 4 b)),
          be_value (take 4 (drop 8 b)))
  else None.

(** [struct.pack("!BH", a, b)] *)
Definition pack_BH (a b : Z) : option (list byte) :=
  ba ← pack_uint 1 a;
  bb ← pack_uint 2 b;
  Some (ba ++ bb).

(** [struct.unpack("!BH", b)] *)
Definition unpack_BH (b : list byte) : option (Z * Z) :=
  if (length b =? 3)%nat then
    Some (be_value (take 1 b), be_value (take 2 (drop 1 b)))
  else None.

Definition pack_hdr (v m s t x : Z) : option (list byte) :=
  pack_BBHII v (Z.land m 255) (Z.land s 65535) (Z.land t 4294967295)
             (Z.land x 4294967295).

Definition unpack_hdr (b : list byte) : option (Z * Z * Z * Z * Z) :=
  unpack_BBHII (take HDR_SZ b).

(** [SeqGen]: the state is the attribute [_seq]. *)
Module SeqGen.

(** [SeqGen.__init__] of the server; the client's starts from 0. *)
Definition init (initial : Z) : Z := Z.land initial 65535.

(** [SeqGen.next]: the new state and the number returned. *)
Definition next (seq : Z) : Z * Z :=
  let seq := Z.land (seq + 1) 65535 in (seq, seq).

(** The state after [n] calls of [next]. *)
Fixpoint after (n : nat) (seq : Z) : Z :=
  match n with
  | O => seq
  | S n' => after n' (fst (next seq))
  end.

End SeqGen.

(** [pack_ctrl_header]; [ts] is the argument, or the value of
    [now_ts48()] when it is not given. *)
Definition pack_ctrl_header (ctrl_type seq ssrc ts : Z) : option (list byte) :=
  ctrl_hdr ← pack_BH (Z.land ctrl_type 255) 0;
  hdr ← pack_hdr VER MT_CTRL seq ts ssrc;
  Some (hdr ++ ctrl_hdr).

End UdpProtocol.

(** ** Datagram sockets *)

Module Socket.

(** The bytes [sock.recvfrom(bufsize)] returns for a datagram: at most
    [bufsize] bytes of it. *)
Definition recvfrom (bufsize : nat) (dgram : list byte) : list byte :=
  take bufsize dgram.

End Socket.

(** ** Server: the audio relay ([server.py], class [UdpServer]) *)

Module UdpServer.
Import PyFloat UdpProtocol.

(** The session manager and the sequence generator of the server. *)
Record t := mk {
  mgr : SessionStore.t;
  seq : Z
}.

(** The body of the loop of [serve_forever] on a datagram, for the
    type [MT_AUDIO]: the arguments [(ssrc, body)] of [_handle_audio];
    [None] covers every [continue] and the other types. *)
Definition audio_call (dgram : list byte) : option (Z * list byte) :=
  let pkt := Socket.recvfrom (Z.to_nat 65535) dgram in
  if (length pkt <? HDR_SZ)%nat then None
  else
    match unpack_hdr pkt with
    | Some (_, mtype, _, _, ssrc) =>
        if mtype =? MT_AUDIO then Some (ssrc, drop HDR_SZ pkt) else None
    | None => None
    end.

(** The head of [_handle_audio]: the flags and the audio data of a
    payload; [None] covers every [return]. *)
Definition audio_payload (payload : list byte) : option (Z * list byte) :=
  if (length payload <? 3)%nat then None
  else
    match unpack_BH (take 3 payload) with
    | None => None
    | Some (flags, len) =>
        if (len <=? 0) || (Z.of_nat (length payload) <? 3 + len) then None
        else
          match take (Z.to_nat len) (drop 3 payload) with
          | [] => None
          | data => Some (flags, data)
          end
    end.

(** The body of the send loop: the datagram for a recipient whose
    matching channel is [rx_idx]; [None] when [struct.pack] raises. *)
Definition forward_packet (flags : Z) (data : list byte)
           (seq ts48 ssrc rx_idx : Z) : option (list byte) :=
  let chan_bits := Z.shiftl (Z.land rx_idx 3) 4 in
  let flags_out := Z.lor (Z.land flags 15) chan_bits in
  body_hdr ← pack_BH flags_out (Z.of_nat (length data));
  hdr ← pack_hdr VER MT_AUDIO seq ts48 ssrc;
  Some (hdr ++ body_hdr ++ data).

(** [s.addr] of the recipient stored under [key]. *)
Definition addr_of (m : SessionStore.t) (key : Z)
  : option SessionStore.addr_t :=
  SessionStore.addr <$> SessionStore.get m key.

(** [UdpServer._handle_audio]: the server afterwards and the datagrams
    handed to [sendto], each with its destination. [now] and [now'] are
    the values of [time()] in [note_audio_for] and in
    [audio_recipients_for], [ts48] the value of [now_ts48()]. *)
Definition _handle_audio (fresh : Z -> string) (now now' : float) (ts48 : Z)
           (srv : t) (ssrc : Z) (payload : list byte)
  : t * list (list byte * SessionStore.addr_t) :=
  match audio_payload payload with
  | None => (srv, [])
  | Some (flags, data) =>
      let m := SessionStore.note_audio_for now (mgr srv) ssrc
                                           (Z.of_nat (length data)) in
      let '(recipients, _, _, _) :=
        SessionManager.audio_recipients_for fresh now'
                                            (SessionStore.manager m) ssrc in
      match recipients with
      | [] => (mk m (seq srv), [])
      | _ =>
          let '(seq', n) := SeqGen.next (seq srv) in
          (mk m seq',
           omap (fun r : SessionManager.recipient =>
                   let '(key, _, rx_idx) := r in
                   pkt ← forward_packet flags data n ts48 ssrc
                                        (Z.of_nat rx_idx);
                   a ← addr_of m key;
                   Some (pkt, a))
                recipients)
      end
  end.

End UdpServer.

(** ** Client: audio datagrams ([udp_client.py], class [UdpVoiceClient]) *)

Module UdpClient.
Import PyFloat Numpy UdpProtocol.

(** What the head of the loop body of [rx] reads from an audio
    datagram. *)
Record rx_head := RxHead {
  rx_seq : Z;
  rx_ssrc : Z;
  rx_flags : Z;
  rx_data : list byte;
  rx_chan_idx : Z
}.

(** The head of the loop body of [rx] on the bytes [p] that [recvfrom]
    returned, up to the loopback check: the sender, the flags, the
    audio data and the channel index of an audio datagram; [None]
    covers every [continue] and the control datagrams. [ssrc] and
    [allow_loopback] are the client's attributes. *)
Definition rx_parse (ssrc : Z) (allow_loopback : bool) (p : list byte)
  : option rx_head :=
  if (length p <? HDR_SZ)%nat then None
  else
    match unpack_hdr (take HDR_SZ p) with
    | None => None
    | Some (ver, t, seq, ts, from) =>
        if negb (ver =? VER) then None
        else
          let body := drop HDR_SZ p in
          if t =? MT_AUDIO then
            if (length body <? AUDIO_HDR_SZ)%nat then None
            else
              match unpack_BH (take AUDIO_HDR_SZ body) with
              | None => None
              | Some (flags, sz) =>
                  match take (Z.to_nat sz) (drop AUDIO_HDR_SZ body) with
                  | [] => None
                  | data =>
                      if (from =? ssrc) && negb allow_loopback then None
                      else
                        Some (RxHead seq from flags data
                                     (Z.land (Z.shiftr flags 4) 3))
                  end
              end
          else None
    end.

(** The arguments of [on_rx_audio]. *)
Record rx_audio := RxAudio {
  rx_buf : list f32;
  rx_rate : Z;
  rx_from : Z;
  rx_chan : Z
}.

Section Rx.

(** The state of one [opuslib.Decoder] and its [decode], as in
    [OpusShim]. *)
Variable Decoder : Type.
Variable opus_decode
  : Decoder -> list byte -> Z -> option (Decoder * list byte).

(** The decode step of the loop body: the shim afterwards and [buf].
    [new_dec] is the outcome of the decoder construction the call
    may need; [type_error] tells whether the exception the first
    call raises, when it raises, is a [TypeError], in which case the
    call is repeated without the sender. *)
Definition decode_frame (new_dec : option Decoder) (type_error : bool)
           (enc : OpusShim.t Decoder) (flags : Z) (data : list byte)
           (from : Z) : OpusShim.t Decoder * option (list f32) :=
  if (Z.land flags AUDIO_FLAG_CODEC_PCM =? 0) && OpusShim.enabled enc then
    match OpusShim.decode_to_float32 opus_decode new_dec enc data
                                     (Some from) with
    | (enc, Some buf) => (enc, buf)
    | (enc, None) =>
        if type_error then
          match OpusShim.decode_to_float32 opus_decode None enc data
                                           None with
          | (enc, Some buf) => (enc, buf)
          | (enc, None) => (enc, None)
          end
        else (enc, None)
    end
  else (enc, None).

(** The end of the loop body: a frame without samples is dropped,
    the others are handed to [on_rx_audio]. *)
Definition hand_over (enc : OpusShim.t Decoder) (buf : option (list f32))
           (from chan_idx : Z) : option rx_audio :=
  match buf with
  | None => None
  | Some buf => Some (RxAudio buf (OpusShim.rate enc) from chan_idx)
  end.

(** The body of the loop of [rx] on a datagram: the shim afterwards
    and the call of [on_rx_audio], if any. The counters of the
    inter-arrival log and the control datagrams are left out. *)
Definition rx (ssrc : Z) (allow_loopback : bool) (new_dec : option Decoder)
           (type_error : bool) (enc : OpusShim.t Decoder)
           (dgram : list byte) : OpusShim.t Decoder * option rx_audio :=
  match rx_parse ssrc allow_loopback
                 (Socket.recvfrom (Z.to_nat 8192) dgram) with
  | None => (enc, None)
  | Some h =>
      let '(enc, buf) :=
        decode_frame new_dec type_error enc (rx_flags h) (rx_data h)
                     (rx_ssrc h) in
      (enc, hand_over enc buf (rx_ssrc h) (rx_chan_idx h))
  end.

End Rx.

Arguments decode_frame {Decoder}.
Arguments hand_over {Decoder}.
Arguments rx {Decoder}.

(** Step 3 of [send_audio]: the datagram for the encoded frame [data];
    [seq] is the number [self.seq.next()] returns, [ts48] the value of
    [now_ts48()]. *)
Definition audio_datagram (seq ts48 ssrc flags : Z) (data : list byte)
  : option (list byte) :=
  aud_hdr ← pack_BH (Z.land flags 255)
                    (Z.land (Z.of_nat (length data)) 65535);
  h ← pack_hdr VER MT_AUDIO seq ts48 ssrc;
  Some (h ++ aud_hdr ++ data).

(** The literal [0.99] as [float32]. *)
Definition f32_0_99 : f32 := f32_of_float (fdiv (of_Z 99) (of_Z 100)).

(** [np.clip(buf * 0.99, -1.0, 1.0)] on a one-dimensional array. *)
Definition normalise (buf : list f32) : list f32 :=
  map (fun x => clip (f32_mul x f32_0_99)) buf.

(** [UdpVoiceClient.send_audio]: the state of the sequence generator
    afterwards and the datagram handed to [sendto], if any; the outer
    [None] is an exception that leaves the method. [ptt] is
    [self._ptt], [enabled] is [self.enc.enabled], [pcm] the samples
    as a one-dimensional [float32] array ([None] when the conversion
    raises), [encode buf] what [self.enc.encode_float32(buf)] returns
    ([None] when it raises), [ts48] the value of [now_ts48()]. *)
Definition send_audio (ptt enabled : bool)
           (encode : list f32 -> option (list byte))
           (pcm : option (list f32)) (seq ts48 ssrc : Z)
  : option (Z * option (list byte)) :=
  if negb ptt then Some (seq, None)
  else
    match pcm with
    | None => Some (seq, None)
    | Some pcm =>
        let buf := normalise pcm in
        if negb enabled then Some (seq, None)
        else
          match default [] (encode buf) with
          | [] => Some (seq, None)
          | data =>
              aud_hdr ← pack_BH (Z.land AUDIO_FLAG_PTT 255)
                                (Z.land (Z.of_nat (length data)) 65535);
              let '(seq, n) := SeqGen.next seq in
              h ← pack_hdr VER MT_AUDIO n ts48 ssrc;
              Some (seq, Some (h ++ aud_hdr ++ data))
          end
    end.

End UdpClient.

(** ** Client: the receive jitter buffer ([app/app.py], class [App]) *)

Module RxQueue.
Import PyFloat Numpy RadioApp.

(** [AUDIO_RATE] *)
Definition AUDIO_RATE : Z := 48000.

(** An entry of [_rx_queue]: the dictionary [item] and its identity
    [id(...)], which stands for the sender when the frame carries no
    ssrc. *)
Record entry := Entry {
  oid : Z;
  item : rx_item
}.

(** [_rx_queue], oldest entry first, and [_rx_started]. The cached
    frame and its repeat count are in [RadioApp.t]. *)
Record t := mk {
  _rx_queue : list entry;
  _rx_started : bool
}.

(** The state [__init__] leaves. *)
Definition init : t := mk [] false.

(** The literals [0.7], [0.6], [0.050] and [0.5]. *)
Definition f_0_7 : float := fdiv (of_Z 7) (of_Z 10).
Definition f_0_6 : float := fdiv (of_Z 6) (of_Z 10).
Definition f_0_050 : float := fdiv (of_Z 5) (of_Z 100).
Definition f_0_5 : float := fdiv (of_Z 1) (of_Z 2).

Definition TARGET_DEPTH : nat := 6.
Definition MAX_DEPTH : nat := 80.
Definition MAX_BATCH : nat := 6.

(** [while q and now - float(q[0]["ts"]) > stale: q.popleft()] *)
Fixpoint drop_stale (stale now : float) (q : list entry) : list entry :=
  match q with
  | [] => []
  | e :: rest =>
      if fltb stale (fsub now (ts (item e))) then drop_stale stale now rest
      else q
  end.

(** [q.append(e)] on a [deque(maxlen=200)]: a full deque loses its
    oldest entry. *)
Definition append (q : list entry) (e : entry) : list entry :=
  if (200 <=? length q)%nat then drop 1 q ++ [e] else q ++ [e].

(** [q.appendleft(e)] on a [deque(maxlen=200)]: a full deque loses its
    newest entry. *)
Definition appendleft (e : entry) (q : list entry) : list entry :=
  if (200 <=? length q)%nat then e :: take (length q - 1) q else e :: q.

(** The key of an entry in [seen_ssrc]. *)
Definition key (e : entry) : Z :=
  match ssrc (item e) with
  | Some s => s
  | None => oid e
  end.

(** The loop that fills the batch: the batch, the deferred entries and
    what is left of the queue. *)
Fixpoint collect (first_ts : float) (q batch : list entry)
         (seen_ssrc : gset Z) (defer_same : list entry)
  : list entry * list entry * list entry :=
  match q with
  | [] => (batch, defer_same, [])
  | nxt :: rest =>
      if (length batch <? MAX_BATCH)%nat then
        if fltb f_0_050 (fsub (ts (item nxt)) first_ts)
        then (batch, defer_same, q)
        else if decide (key nxt ∈ seen_ssrc)
             then collect first_ts rest batch seen_ssrc (defer_same ++ [nxt])
             else collect first_ts rest (batch ++ [nxt])
                          ({[key nxt]} ∪ seen_ssrc) defer_same
      else (batch, defer_same, q)
  end.

(** [while defer_same: q.appendleft(defer_same.pop())] *)
Definition requeue (defer_same q : list entry) : list entry :=
  fold_right appendleft q defer_same.

(** [first = q.popleft()] and what follows it under the lock: the
    batch and the queue afterwards; [None] is the [IndexError] on an
    empty queue. *)
Definition take_batch (q : list entry) : option (list entry * list entry) :=
  match q with
  | [] => None
  | first :: rest =>
      let '(batch, defer_same, rest) :=
        collect (ts (item first)) rest [first] {[key first]} [] in
      Some (batch, requeue defer_same rest)
  end.

(** What the first [try] block of [_dequeue_rx_frame] ends with: a
    [return], or the batch handed to the mix. *)
Inductive outcome :=
| Return (frame : option (list f32))
| Batch (batch : list entry).

Definition set_repeat (a : RadioApp.t) (last : option (list f32)) (n : Z)
  : RadioApp.t :=
  RadioApp.mk (active_chan a) (scan_vars a) (scan_d_var a) (chan_vol_vars a)
              (chan_d_vol_var a) last n.

Section Env.

(** The resampling of a frame that arrives at another rate (the
    [np.interp] call); [None] when it raises. *)
Variable resample : Z -> list f32 -> option (list f32).

(** [x ** n] on a float and an int exponent. *)
Variable pow : float -> Z -> float.

(** The frame brought to [AUDIO_RATE] and to [AUDIO_BLOCK] samples. *)
Definition normalize (rate : Z) (arr : list f32) : option (list f32) :=
  arr ← (if negb (rate =? 0) && (0 <? rate) && negb (rate =? AUDIO_RATE)
            && (0 <? length arr)%nat
         then resample rate arr
         else Some arr);
  Some (if (length arr <? AUDIO_BLOCK)%nat
        then arr ++ replicate (AUDIO_BLOCK - length arr) (S754_zero false)
        else if (AUDIO_BLOCK <? length arr)%nat then take AUDIO_BLOCK arr
             else arr).

(** [App._enqueue_rx_frame]; [now] is the value of [time()],
    [new_oid] the identity of the new entry. The two display
    timestamps it also sets are not part of the state. *)
Definition _enqueue_rx_frame (now : float) (new_oid : Z) (j : t)
           (buf : list f32) (rate : Z) (chan_idx src_ssrc : option Z) : t :=
  match normalize rate buf with
  | None => j
  | Some arr =>
      mk (append (drop_stale f_0_7 now (_rx_queue j))
                 (Entry new_oid (RxItem arr chan_idx src_ssrc now)))
         (_rx_started j)
  end.

(** The reuse of the cached frame: [limit] and [base] are [2] and
    [0.6] before playout has started, [3] and [0.5] after. *)
Definition repeat_last (a : RadioApp.t) (limit : Z) (base : float)
  : option (RadioApp.t * list f32) :=
  match _rx_last_frame a with
  | Some last =>
      if _rx_last_repeat a <? limit then
        let n := _rx_last_repeat a + 1 in
        Some (set_repeat a (Some last) n, scale (pow base n) last)
      else None
  | None => None
  end.

(** The first [try] block of [App._dequeue_rx_frame]. *)
Definition dequeue_head (now : float) (a : RadioApp.t) (j : t)
  : RadioApp.t * t * outcome :=
  match _rx_queue j with
  | [] => (a, j, Return None)
  | _ =>
      let q := drop_stale f_0_6 now (_rx_queue j) in
      let q := drop (length q - MAX_DEPTH) q in
      let batch (started : bool) :=
        match take_batch q with
        | Some (batch, q') => (a, mk q' started, Batch batch)
        | None => (a, mk q started, Return None)
        end in
      if negb (_rx_started j) then
        if (length q <? TARGET_DEPTH)%nat then
          match repeat_last a 2 f_0_6 with
          | Some (a', frame) => (a', mk q false, Return (Some frame))
          | None => (a, mk q false, Return None)
          end
        else batch true
      else
        if (length q <? 2)%nat then
          match repeat_last a 3 f_0_5 with
          | Some (a', frame) => (a', mk q true, Return (Some frame))
          | None =>
              (set_repeat a None 0, mk q true,
               Return (Some (replicate AUDIO_BLOCK (S754_zero false))))
          end
        else batch true
  end.

(** [App._dequeue_rx_frame]: the state afterwards and the frame
    returned. *)
Definition _dequeue_rx_frame (now : float) (a : RadioApp.t) (j : t)
  : RadioApp.t * t * option (list f32) :=
  match dequeue_head now a j with
  | (a, j, Return frame) => (a, j, frame)
  | (a, j, Batch batch) =>
      match mix_batch a (map item batch) with
      | Some (a', mix) => (a', j, Some mix)
      | None => (a, j, None)
      end
  end.

End Env.

End RxQueue.

(** ** Server: the raw-PCM encoder ([opus_shim.py], class [OpusDecoder]) *)

Module OpusEncoder.
Import Numpy.

(** The [n] bytes of [w], least significant first. *)
Fixpoint le_bytes (n : nat) (w : Z) : list byte :=
  match n with
  | O => []
  | S n' => UdpProtocol.byte_of w :: le_bytes n' (w / 256)
  end.

(** The sign bit of a word. *)
Definition sign_bit (s : bool) : Z := if s then 2 ^ 31 else 0.

(** The 32 bits of a binary32 value; [nan] is the bit pattern the
    array holds when the value is a NaN, which the value does not
    determine. *)
Definition f32_bits (nan : Z) (x : f32) : Z :=
  match x with
  | S754_zero s => sign_bit s
  | S754_infinity s => sign_bit s + 255 * 2 ^ 23
  | S754_nan => nan
  | S754_finite s m e =>
      sign_bit s
      + (if Zpos m <? 2 ^ 23 then Zpos m
         else (e + 150) * 2 ^ 23 + (Zpos m - 2 ^ 23))
  end.

(** [arr.astype('<f4').tobytes()]; [nan i] is the bit pattern of the
    sample at index [i] when it is a NaN. *)
Definition tobytes_f4 (nan : nat -> Z) (arr : list f32) : list byte :=
  concat (imap (fun i x => le_bytes 4 (f32_bits (nan i) x)) arr).

(** [arr.astype('<i2').tobytes()] on [int16] samples. *)
Definition tobytes_i2 (arr : list Z) : list byte :=
  concat (map (fun v => le_bytes 2 (v mod 65536)) arr).

(** The argument of the encoders: a one-dimensional array of
    [float32] or of [int16] samples. *)
Inductive pcm :=
| F32 (a : list f32)
| I16 (a : list Z).

(** [np.asarray(pcm, dtype=np.float32)] *)
Definition as_f32 (p : pcm) : list f32 :=
  match p with
  | F32 a => a
  | I16 a => map f32_of_Z a
  end.

(** [OpusDecoder.encode_float32]; the argument is [None] or an array. *)
Definition encode_float32 (nan : nat -> Z) (p : option pcm) : list byte :=
  match p with
  | None => []
  | Some p => tobytes_f4 nan (map clip (as_f32 p))
  end.

(** [x.astype('<i2')] on one [float32] sample: truncation toward zero;
    [nan_i16] is what the conversion of a NaN gives on the platform. *)
Definition to_i16 (nan_i16 : Z) (x : f32) : Z :=
  match PyFloat.py_int x with
  | Some v => v
  | None => nan_i16
  end.

(** [OpusDecoder.encode_int16] *)
Definition encode_int16 (nan_i16 : Z) (p : option pcm) : list byte :=
  match p with
  | None => []
  | Some (I16 a) => tobytes_i2 a
  | Some (F32 a) =>
      tobytes_i2
        (map (fun x => to_i16 nan_i16 (f32_mul (clip x) (f32_of_Z 32767))) a)
  end.

(** [OpusDecoder.encode]; [prefer] is [self.prefer_float32_packets]. *)
Definition encode (prefer : bool) (nan : nat -> Z) (nan_i16 : Z)
           (p : option pcm) : list byte :=
  if prefer then encode_float32 nan p else encode_int16 nan_i16 p.

End OpusEncoder.

(** ** Notions used in the statements *)

Module Spec.
Import PyFloat PyStr.

(** [clamp(n, lo, hi)] *)
Definition clamp (lo hi n : Z) : Z := Z.max lo (Z.min hi n).

(** The four decimal digits of [k], most significant first. *)
Definition four_digits (k : Z) : string :=
  String (digit_char (k / 1000 mod 10))
    (String (digit_char (k / 100 mod 10))
       (String (digit_char (k / 10 mod 10))
          (String (digit_char (k mod 10)) EmptyString))).

(** The literal [999.9]. *)
Definition f_999_9 : float := fdiv (of_Z 9999) (of_Z 10).

(** One alias hop. *)
Definition alias_edge (alias : gmap string string) (x y : string) : Prop :=
  alias !! x = Some y.

(** Following the aliases from [c] while the id is aliased and not in
    [seen] ends in [r]. *)
Inductive chase (alias : gmap string string)
  : gset string -> string -> string -> Prop :=
| chase_stop seen c :
    alias !! c = None \/ c ∈ seen -> chase alias seen c c
| chase_next seen c nxt r :
    alias !! c = Some nxt -> c ∉ seen ->
    chase alias ({[c]} ∪ seen) nxt r -> chase alias seen c r.

(** The chain of aliases from [c] runs into a cycle: it reaches an id
    that leads back to itself. *)
Definition cyclic_chain (alias : gmap string string) (c : string) : Prop :=
  exists y, rtc (alias_edge alias) c y /\ tc (alias_edge alias) y y.

(** The ids on which the body of the loop of [canonical_net] runs,
    in order, when the loop may run [S fuel] times. *)
Fixpoint canon_visits (fuel : nat) (alias : gmap string string)
         (st : SessionManager.canon_state) : list string :=
  match SessionManager.canon_step alias st with
  | None => []
  | Some st' =>
      SessionManager.cur st ::
      match fuel with
      | O => []
      | S fuel' => canon_visits fuel' alias st'
      end
  end.

(** The initial state of the loop of [canonical_net]. *)
Definition canon_init (nid : string) : SessionManager.canon_state :=
  SessionManager.CanonState (strip nid) ∅ false.

(** Keys and values carry no surrounding blanks and keys are not
    empty, as in every table [merge_net] builds. *)
Definition trimmed_table (alias : gmap string string) : Prop :=
  forall k v, alias !! k = Some v ->
              strip k = k /\ k <> EmptyString /\ strip v = v.

(** No character of the string is a blank. *)
Definition no_space (s : string) : bool :=
  all_chars (fun c => negb (isspace c)) s.

(** The last four characters are decimal digits and encode a strictly
    positive value. *)
Definition positive_suffix (nid : string) : Prop :=
  (4 <= String.length nid)%nat
  /\ all_chars is_ascii_digit (last4 nid) = true
  /\ exists v, PyStr.py_int (last4 nid) = Some v /\ 0 < v.

(** A float that is a number: neither NaN nor infinite. *)
Definition finite (x : float) : bool :=
  match x with
  | S754_zero _ | S754_finite _ _ _ => true
  | _ => false
  end.

(** Each of the four frequencies has a suffix: ten times the frequency
    is a number. A missing frequency counts as [0.0]. *)
Definition convertible (s : Session.t) : Prop :=
  forall i, (i < 4)%nat ->
            finite (fmul (nth i (Session.freqs s) (S754_zero false))
                         (of_Z 10)) = true.

(** The network id of channel [i] taken by itself: its prefix followed
    by the four digits of its frequency. *)
Definition chan_id (fresh : string) (s : Session.t) (i : nat)
  : option string :=
  suffix ← Session._freq_suffix
             (Session.FreqValue (nth i (Session.freqs s) (S754_zero false)));
  Some (nth i (Session.fix_prefixes fresh (Session.net_prefixes s))
            EmptyString +:+ suffix).

(** The canonical network id of channel [i] taken by itself. *)
Definition chan_canonical (m : SessionManager.t) (fresh : string)
           (s : Session.t) (i : nat) : option string :=
  SessionManager.canonical_net m <$> chan_id fresh s i.

(** Channel [i], one of the four, is on the network [net]. *)
Definition on_net (m : SessionManager.t) (fresh net : string)
           (other : Session.t) (i : nat) : Prop :=
  (i < 4)%nat /\ chan_canonical m fresh other i = Some net.

(** The per-channel scan flag of channel [i] is enabled. *)
Definition scanned (other : Session.t) (i : nat) : Prop :=
  Session.scan_channels other !! i = Some true.

(** Channel [i] is the active channel or has its scan flag enabled. *)
Definition tuned (other : Session.t) (i : nat) : Prop :=
  Session.active_channel other = Z.of_nat i \/ scanned other i.

(** The active channel is one of the four and is on the network. *)
Definition active_on_net (m : SessionManager.t) (fresh net : string)
           (other : Session.t) : Prop :=
  exists i, on_net m fresh net other i
            /\ Session.active_channel other = Z.of_nat i.

(** [i] is the index of the active channel, brought into 0..3. *)
Definition active_index (s : Session.t) (i : nat) : Prop :=
  Z.of_nat i = clamp 0 3 (Session.active_channel s).

(** The session was last seen at most 15 seconds before [now]. *)
Definition seen_within (now : float) (s : Session.t) : Prop :=
  fleb (fsub now (Session.last_seen s)) (of_Z 15) = true.

(** The entries the loop of [audio_recipients_for] contributes, item by
    item. *)
Definition expected_recipients (m : SessionManager.t) (fresh : Z -> string)
           (now : PyFloat.float) (sender_key : Z) (net : string)
           (items : list (Z * Session.t)) : list SessionManager.recipient :=
  flat_map (fun item : Z * Session.t =>
              if fst item =? sender_key then []
              else
                match SessionManager.deliver_for m (fresh (fst item)) now net
                                                 (snd item) with
                | Some idx => [(fst item, snd item, idx)]
                | None => []
                end)
           items.

(** At most 32 entries under pairwise distinct keys. *)
Definition bounded_cache {D : Type} (c : list (Z * D)) : Prop :=
  (length c <= 32)%nat /\ NoDup (map fst c).


End Spec.

(** ** The routing loop's view of a session *)

Module Loop.
Import PyFloat PyStr.

(** Entry [i] of [canon_nets] as the loop of [audio_recipients_for]
    computes it for [s]; [None] when [compute_networks] raises, or
    when there is no such entry. *)
Definition chan_canonical (m : SessionManager.t) (fresh : string)
           (s : Session.t) (i : nat) : option string :=
  match Session.compute_networks fresh s with
  | Some (ids, _, _) => SessionManager.canonical_net m <$> ids !! i
  | None => None
  end.

(** [i] is one of the [match_idxs] of the loop. *)
Definition on_net (m : SessionManager.t) (fresh net : string)
           (other : Session.t) (i : nat) : Prop :=
  (i < 4)%nat /\ chan_canonical m fresh other i = Some net.

(** [active_match or chan_scan_flag] for the index [i]. *)
Definition tuned (other : Session.t) (i : nat) : Prop :=
  Session.active_channel other = Z.of_nat i
  \/ SessionManager.chan_scan_flag other i = true.

(** One of the [match_idxs] is the active channel. *)
Definition active_on_net (m : SessionManager.t) (fresh net : string)
           (other : Session.t) : Prop :=
  exists i, on_net m fresh net other i
            /\ Session.active_channel other = Z.of_nat i.

End Loop.

(** ** Concrete inputs *)

Module Examples.

(** The chain AAA1000 -> BBB1000 -> CCC1000. *)
Definition chain_alias : gmap string string :=
  <["AAA1000"%string := "BBB1000"%string]>
    (<["BBB1000"%string := "CCC1000"%string]> ∅).

(** The cycle A -> B -> A. *)
Definition cycle_alias : gmap string string :=
  <["A"%string := "B"%string]> (<["B"%string := "A"%string]> ∅).

(** A session with the given active channel, frequencies (whole
    MHz), scan flags, prefixes and last-seen time (whole seconds). *)
Definition session (active : Z) (mhz : list Z) (scans : list bool)
           (prefixes : list string) (seen_at : Z) : Session.t :=
  Session.mk 0 EmptyString active (map PyFloat.of_Z mhz) false scans
             false false (PyFloat.of_Z seen_at) prefixes.

(** The sender S: channel 0 active, at 100.0 MHz. *)
Definition sender : Session.t :=
  session 0 [100; 0; 0; 0] [false; false; false; false]
          ["AAA"; "BBB"; "CCC"; "DDD"]%string 1000.

(** The receiver R: channel 2 at 100.0 MHz and active. *)
Definition receiver : Session.t :=
  session 2 [0; 0; 100; 0] [false; false; false; false]
          ["EEE"; "FFF"; "GGG"; "HHH"]%string 1000.

(** R with channel 1 active and channel 2 scanned. *)
Definition receiver_scanning : Session.t :=
  session 1 [0; 0; 100; 0] [false; false; true; false]
          ["EEE"; "FFF"; "GGG"; "HHH"]%string 1000.

(** R with channel 1 active and no scan. *)
Definition receiver_elsewhere : Session.t :=
  session 1 [0; 0; 100; 0] [false; false; false; false]
          ["EEE"; "FFF"; "GGG"; "HHH"]%string 1000.


(** R with channel 2 at 100.0 MHz and active, under the prefix of
    channel 0 of S. *)
Definition receiver_shared : Session.t :=
  session 2 [0; 0; 100; 0] [false; false; false; false]
          ["EEE"; "FFF"; "AAA"; "HHH"]%string 1000.

(** The table of S under 111 and [r] under 222, without aliases. *)
Definition table (r : Session.t) (auto : bool) : SessionManager.t :=
  SessionManager.mk [(111, sender); (222, r)] ∅ auto.

(** The prefix a [_make_prefix()] draw would give, for every key. *)
Definition fresh_prefix (key : Z) : string := "ZZZ"%string.

(** The client with channel 0 active, channel 1 scanned, channel 2
    neither, and the volumes 50, 100, 0 and 50 percent. *)
Definition app : RadioApp.t :=
  RadioApp.mk 0 [false; true; false] true [50; 100; 0] 50 None 0.

(** A frame of two samples, 0.5 and -0.25, tagged with channel [c]. *)
Definition frame (c : Z) : RadioApp.rx_item :=
  RadioApp.RxItem [S754_finite false 8388608 (-24);
                   S754_finite true 8388608 (-25)]
                  (Some c) (Some 7) (PyFloat.of_Z 1000).

(** A shim whose cache holds decoders for the senders 1 to 32; a
    decoder is stood for by a number. *)
Definition full_shim : OpusShim.t nat :=
  OpusShim.mk true 48000 1 480 (Some 0%nat)
              (map (fun i : nat => (Z.of_nat i, i)) (seq 1 32)).

(** Five seconds after both sessions were seen. *)
Definition now : PyFloat.float := PyFloat.of_Z 1005.

End Examples.

(** ** Histories of the session table *)

Module History.
Import PyFloat SessionStore.

(** A session has four frequencies, four scan flags and four
    prefixes. *)
Definition four_channels (b : Session.t) : Prop :=
  length (Session.freqs b) = 4%nat
  /\ length (Session.scan_channels b) = 4%nat
  /\ length (Session.net_prefixes b) = 4%nat.

(** A call of a method of [SessionManager] that can change the table,
    with the outcomes of the clock and of the prefix draws it
    consumes. *)
Inductive call :=
| Upsert (rnd : nat -> string) (now : float) (a : addr_t) (ssrc : Z)
         (m : meta)
| NoteHeartbeat (now : float) (ssrc : Z)
| Drop (ssrc : Z)
| SetChannel (now : float) (ssrc : Z) (active_idx freqs scan : Json.t)
| SetTxState (now : float) (ssrc : Z) (on : bool) (freq : option Json.t)
| NotePtt (now : float) (ssrc : Z) (on : bool)
| NoteChanUpdate (now now' : float) (ssrc : Z) (upd : Json.t)
| NotePosition (now : float) (ssrc : Z) (pos : Json.t)
| NotePresence (now : float) (ssrc : Z) (info : meta)
| NoteAudioFor (now : float) (ssrc : Z) (nbytes : Z)
| MergeNet (src dst : string)
| ResetNetAliases
| SetAutoMergeByFreq (enabled : bool).

Section Run.

Variable str_int : string -> option Z.
Variable str_float : string -> option float.

Definition run (r : t) (c : call) : t :=
  match c with
  | Upsert rnd now a ssrc m => upsert rnd now r a ssrc m
  | NoteHeartbeat now ssrc => note_heartbeat now r ssrc
  | Drop ssrc => drop r ssrc
  | SetChannel now ssrc active_idx freqs scan =>
      set_channel str_int str_float now r ssrc active_idx freqs scan
  | SetTxState now ssrc on freq =>
      set_tx_state str_float now r ssrc on freq
  | NotePtt now ssrc on => note_ptt str_float now r ssrc on
  | NoteChanUpdate now now' ssrc upd =>
      note_chan_update str_int str_float now now' r ssrc upd
  | NotePosition now ssrc pos => note_position now r ssrc pos
  | NotePresence now ssrc info => note_presence now r ssrc info
  | NoteAudioFor now ssrc nbytes => note_audio_for now r ssrc nbytes
  | MergeNet src dst => merge_net r src dst
  | ResetNetAliases => reset_net_aliases r
  | SetAutoMergeByFreq enabled => set_auto_merge_by_freq r enabled
  end.

(** The table after a history of calls on a new manager. *)
Definition after (calls : list call) : t := fold_left run calls init.

End Run.

(** Keys are pairwise distinct, every session has its four channels
    and the alias table holds trimmed ids. *)
Definition well_formed (r : t) : Prop :=
  NoDup (map fst (by_ssrc r))
  /\ Forall (fun e => four_channels (base (snd e))) (by_ssrc r)
  /\ Spec.trimmed_table (net_alias r).

End History.

(** ** Concrete tables and datagrams *)

Module Scenario.
Import SessionStore.

(** A session object around the routing attributes [b]. *)
Definition at_addr (b : Session.t) (host : string) (port : Z)
           (cid : option string) : session :=
  mk_session b (host, port) cid EmptyString None None.

(** S under 111 and R under 222, auto-merge enabled. *)
Definition store : SessionStore.t :=
  SessionStore.mk
    [(111, at_addr Examples.sender "10.0.0.1" 5000 (Some "steam-1"%string));
     (222, at_addr Examples.receiver "10.0.0.2" 5000 None)]
    ({[("10.0.0.1"%string, 5000)]} ∪ {[("10.0.0.2"%string, 5000)]})
    ∅ ∅ ∅ true.

Definition relay : UdpServer.t := UdpServer.mk store 65535.

(** An audio payload: flags [PTT], two bytes of data. *)
Definition payload : list byte := 
    [Byte.x01; Byte.x00; Byte.x02; Byte.xaa; Byte.xbb].

(** A decoder, stood for by a number, that returns the packet as its
    PCM bytes. *)
Definition echo_decode (d : nat) (b : list byte) (samples : Z)
  : option (nat * list byte) := Some (d, b).

(** [int(s)] and [float(s)] raising on every string. *)
Definition no_str_int (s : string) : option Z := None.
Definition no_str_float (s : string) : option PyFloat.float := None.

End Scenario.

(** ** Histories of the client's receive path *)

Module Playback.
Import PyFloat Numpy RadioApp RxQueue.

(** What happens to the jitter buffer and to the variables the mix
    reads: a frame arrives, the audio loop asks for a frame, the user
    changes channel, scan flags or volumes, the queue is cleared. *)
Inductive call :=
| Enqueue (now : float) (new_oid : Z) (buf : list f32) (rate : Z)
          (chan_idx src_ssrc : option Z)
| Dequeue (now : float)
| Configure (active : Z) (scans : list bool) (scan_d : bool)
            (vols : list Z) (vol_d : Z)
| Clear.

Section Run.

Variable resample : Z -> list f32 -> option (list f32).
Variable pow : float -> Z -> float.

Definition run (st : RadioApp.t * RxQueue.t) (c : call)
  : RadioApp.t * RxQueue.t :=
  let '(a, j) := st in
  match c with
  | Enqueue now new_oid buf rate chan_idx src_ssrc =>
      (a, _enqueue_rx_frame resample now new_oid j buf rate chan_idx
                            src_ssrc)
  | Dequeue now => fst (_dequeue_rx_frame pow now a j)
  | Configure active scans scan_d vols vol_d =>
      (RadioApp.mk active scans scan_d vols vol_d (_rx_last_frame a)
                   (_rx_last_repeat a), j)
  | Clear => (a, RxQueue.mk [] (_rx_started j))
  end.

(** The state after a history that starts from the variables of
    [a0] with an empty queue and no cached frame. *)
Definition after (a0 : RadioApp.t) (calls : list call)
  : RadioApp.t * RxQueue.t :=
  fold_left run calls (set_repeat a0 None 0, RxQueue.init).

End Run.

(** Every queued frame and the cached frame have [AUDIO_BLOCK] samples
    and the queue holds at most 200 entries. *)
Definition sound (st : RadioApp.t * RxQueue.t) : Prop :=
  Forall (fun e => length (buf (item e)) = AUDIO_BLOCK) (_rx_queue (snd st))
  /\ (length (_rx_queue (snd st)) <= 200)%nat
  /\ match _rx_last_frame (fst st) with
     | Some last => length last = AUDIO_BLOCK
     | None => True
     end.

(** What the loop that fills the batch has done when it stops: [B']
    are the entries it added to the batch, [D'] the ones it deferred,
    [R] what it left of the queue [q]. *)
Definition collected (first_ts : float) (q batch B' D' R : list entry)
  : Prop :=
  sublist B' q /\ sublist (D' ++ R) q
  /\ B' ++ D' ++ R ≡ₚ q
  /\ NoDup (map key (batch ++ B'))
  /\ (length (batch ++ B') <= Nat.max (length batch) MAX_BATCH)%nat
  /\ Forall (fun e => fltb f_0_050 (fsub (ts (item e)) first_ts) = false)
            (B' ++ D')
  /\ Forall (fun e => key e ∈ map key (batch ++ B')) D'.

End Playback.

(** ** Further notions used in the statements *)

Module Notions.
Import PyFloat SessionStore.

(** The gain of the volume step [k], one of the eleven from 0 to 10. *)
Definition step_gain (k : Z) : float := RadioApp._gain (10 * k).

(** The gain of a channel set to [v] percent: the channels A to C, and
    the channel D with its floor of 30 percent. *)
Definition gain_at (v : Z) : float := RadioApp._gain (RadioApp._snap_10 v).
Definition gain_d_at (v : Z) : float :=
  RadioApp._gain (RadioApp._snap_10_min30 v).

(** A setter that leaves the channel lists of a session alone. *)
Definition keeps_channels (f : session -> session) : Prop :=
  forall s, Session.freqs (base (f s)) = Session.freqs (base s)
            /\ Session.scan_channels (base (f s))
               = Session.scan_channels (base s)
            /\ Session.net_prefixes (base (f s))
               = Session.net_prefixes (base s).

(** What [upsert] does to the session it finds. *)
Definition refreshed (now : float) (a : addr_t) (m : meta) (s : session)
  : session :=
  touch now
    (set_if (m_loopback m) set_loopback
       (set_if (truthy_str (m_net m)) set_net
          (set_if (truthy_str (m_nick m)) set_nick
             (set_if (truthy_str (m_client_id m))
                     (fun c => set_client_id (Some c))
                     (set_addr a s))))).

(** The sum of the counters of a [defaultdict(int)]. *)
Definition total (d : gmap string Z) : Z :=
  map_fold (fun _ v acc => v + acc) 0 d.

(** The number of [note_audio_for] calls of a history and the sum of
    their [nbytes]. *)
Fixpoint noted (calls : list History.call) : Z * Z :=
  match calls with
  | [] => (0, 0)
  | History.NoteAudioFor _ _ nbytes :: rest =>
      (fst (noted rest) + 1, snd (noted rest) + nbytes)
  | _ :: rest => noted rest
  end.

End Notions.

(** * Properties *)

(** ** Facts on binary64 rounding *)

Section FloatFacts.

Lemma digits2_pos_upper (p : positive) : Zpos p < 2 ^ Zpos (digits2_pos p).
Proof.
  induction p as [p IH | p IH |]; simpl digits2_pos.
  - rewrite Pos2Z.inj_succ, Z.pow_succ_r by lia. lia.
  - rewrite Pos2Z.inj_succ, Z.pow_succ_r by lia. lia.
  - reflexivity.
Qed.

Lemma digits2_pos_lower (p : positive) : 2 ^ (Zpos (digits2_pos p) - 1) <= Zpos p.
Proof.
  induction p as [p IH | p IH |]; simpl digits2_pos.
  - rewrite Pos2Z.inj_succ.
    replace (Z.succ (Zpos (digits2_pos p)) - 1)
      with (Z.succ (Zpos (digits2_pos p) - 1)) by lia.
    rewrite Z.pow_succ_r by lia. lia.
  - rewrite Pos2Z.inj_succ.
    replace (Z.succ (Zpos (digits2_pos p)) - 1)
      with (Z.succ (Zpos (digits2_pos p) - 1)) by lia.
    rewrite Z.pow_succ_r by lia. lia.
  - simpl. lia.
Qed.

Lemma Zdigits2_below (z k : Z) : 0 <= z < 2 ^ k -> 0 <= k -> Zdigits2 z <= k.
Proof.
  intros [Hz Hlt] Hk. destruct z as [| p | p]; simpl; [lia | | lia].
  destruct (Z_lt_le_dec k (Zpos (digits2_pos p))) as [Hgt | Hle]; [| exact Hle].
  exfalso. pose proof (digits2_pos_lower p) as Hlow.
  assert (2 ^ k <= 2 ^ (Zpos (digits2_pos p) - 1))
    by (apply Z.pow_le_mono_r; lia).
  lia.
Qed.

Lemma shr_1_m (mrs : shr_record) :
  0 <= shr_m mrs -> 0 <= shr_m (shr_1 mrs) <= shr_m mrs.
Proof.
  destruct mrs as [m r s]. simpl.
  destruct m as [| [p | p |] | p]; simpl; lia.
Qed.

Lemma iter_shr_1_m (p : positive) :
  forall mrs, 0 <= shr_m mrs ->
              0 <= shr_m (SpecFloat.iter_pos shr_1 p mrs) <= shr_m mrs.
Proof.
  induction p as [p IH | p IH |]; intros mrs Hm; simpl.
  - pose proof (shr_1_m mrs Hm) as H1.
    pose proof (IH (shr_1 mrs) (proj1 H1)) as H2.
    pose proof (IH _ (proj1 H2)) as H3. lia.
  - pose proof (IH mrs Hm) as H2.
    pose proof (IH _ (proj1 H2)) as H3. lia.
  - apply shr_1_m, Hm.
Qed.

Lemma shr_bounds (mrs : shr_record) (e n : Z) :
  0 <= shr_m mrs ->
  0 <= shr_m (fst (shr mrs e n)) <= shr_m mrs
  /\ snd (shr mrs e n) = e + Z.max 0 n.
Proof.
  intros Hm. destruct n as [| p | p]; simpl.
  - split; lia.
  - split; [apply iter_shr_1_m, Hm | lia].
  - split; lia.
Qed.

Lemma shr_record_of_loc_m (m : Z) (l : location) :
  shr_m (shr_record_of_loc m l) = m.
Proof. destruct l as [| []]; reflexivity. Qed.

Lemma round_nearest_even_bounds (m : Z) (l : location) :
  m <= round_nearest_even m l <= m + 1.
Proof.
  unfold round_nearest_even. destruct l as [| []]; try lia.
  destruct (Z.even m); lia.
Qed.

(** Rounding a non-negative mantissa below [2^106] at an exponent of at
    most [-92] gives a zero or a finite binary64 number. *)
Lemma binary_round_aux_finite (sx : bool) (mx ex : Z) (lx : location) :
  0 <= mx < 2 ^ 106 -> ex <= -92 ->
  match binary_round_aux 53 1024 sx mx ex lx with
  | S754_zero _ | S754_finite _ _ _ => True
  | _ => False
  end.
Proof.
  intros Hmx Hex. unfold binary_round_aux, shr_fexp.
  set (n1 := fexp 53 1024 (Zdigits2 mx + ex) - ex).
  pose proof (shr_bounds (shr_record_of_loc mx lx) ex n1) as H1.
  rewrite shr_record_of_loc_m in H1. specialize (H1 (proj1 Hmx)).
  destruct (shr (shr_record_of_loc mx lx) ex n1) as [mrs1 e1].
  simpl in H1. destruct H1 as [Hm1 He1].
  set (m2 := round_nearest_even (shr_m mrs1) (loc_of_shr_record mrs1)).
  pose proof (round_nearest_even_bounds (shr_m mrs1) (loc_of_shr_record mrs1))
    as Hrne. fold m2 in Hrne.
  set (n2 := fexp 53 1024 (Zdigits2 m2 + e1) - e1).
  pose proof (shr_bounds (shr_record_of_loc m2 loc_Exact) e1 n2) as H2.
  rewrite shr_record_of_loc_m in H2.
  assert (Hm2 : 0 <= m2) by lia. specialize (H2 Hm2).
  destruct (shr (shr_record_of_loc m2 loc_Exact) e1 n2) as [mrs2 e2].
  simpl in H2. destruct H2 as [Hm3 He2].
  assert (Hd1 : Zdigits2 mx <= 106) by (apply Zdigits2_below; lia).
  assert (Hd2 : Zdigits2 m2 <= 107).
  { apply Zdigits2_below; [| lia]. split; [lia |].
    change (2 ^ 107) with (2 * 2 ^ 106). lia. }
  assert (He : e2 <= 971).
  { subst n1 n2. unfold fexp, emin in *. lia. }
  destruct (shr_m mrs2) as [| p | p]; [exact I | | lia].
  replace (e2 <=? 1024 - 53) with true by (symmetry; apply Z.leb_le; lia).
  exact I.
Qed.

Lemma valid_digits (s : bool) (m : positive) (e : Z) :
  PyFloat.valid (S754_finite s m e) = true -> Zpos m < 2 ^ 53.
Proof.
  unfold PyFloat.valid, valid_binary, bounded, canonical_mantissa.
  intros H. apply andb_prop in H. destruct H as [H _].
  apply Z.eqb_eq in H. unfold fexp, emin, PyFloat.prec, PyFloat.emax in H.
  pose proof (digits2_pos_upper m) as Hup.
  assert (Zpos (digits2_pos m) <= 53) by lia.
  assert (2 ^ Zpos (digits2_pos m) <= 2 ^ 53)
    by (apply Z.pow_le_mono_r; lia).
  lia.
Qed.

(** [int(f * 10.0)] raises for no valid float between [0] and [999.9]. *)
Lemma scaled_int_defined (f : PyFloat.float) :
  PyFloat.valid f = true ->
  PyFloat.fleb (PyFloat.of_Z 0) f = true ->
  PyFloat.fleb f Spec.f_999_9 = true ->
  exists n, PyFloat.py_int (PyFloat.fmul f (PyFloat.of_Z 10)) = Some n.
Proof.
  intros Hv H0 Hc.
  change Spec.f_999_9 with (S754_finite false 8795213412905779 (-43)) in Hc.
  change (PyFloat.of_Z 10) with (S754_finite false 5629499534213120 (-49)).
  change (PyFloat.of_Z 0) with (S754_zero false) in H0.
  destruct f as [s | s | | s m e].
  - exists 0. reflexivity.
  - destruct s; discriminate.
  - discriminate.
  - destruct s; [discriminate |].
    assert (He : e <= -43).
    { unfold PyFloat.fleb, SFleb, SFcompare in Hc.
      destruct (Z.compare_spec e (-43)); [lia | lia | discriminate]. }
    pose proof (valid_digits _ _ _ Hv) as Hm.
    unfold PyFloat.fmul, SFmul.
    pose proof (binary_round_aux_finite (xorb false false)
                  (Zpos (m * 5629499534213120)) (e + -49) loc_Exact) as Hfin.
    assert (Hprod : 0 <= Zpos (m * 5629499534213120) < 2 ^ 106).
    { rewrite Pos2Z.inj_mul. change (2 ^ 106) with (2 ^ 53 * 2 ^ 53).
      split; [lia |].
      apply Z.mul_lt_mono_nonneg; [lia | exact Hm | lia | reflexivity]. }
    specialize (Hfin Hprod ltac:(lia)).
    change PyFloat.prec with 53. change PyFloat.emax with 1024.
    destruct (binary_round_aux 53 1024 (xorb false false)
                (Zpos (m * 5629499534213120)) (e + -49) loc_Exact);
      try contradiction; eexists; reflexivity.
Qed.

End FloatFacts.

(** ** The frequency suffix *)

Section FreqSuffix.
Import PyFloat PyStr.

Lemma dec_aux_small (fuel : nat) (n : Z) (acc : string) :
  n < 10 -> dec_aux (S fuel) n acc = String (digit_char (n mod 10)) acc.
Proof.
  intros Hn. simpl.
  now replace (n <? 10) with true by (symmetry; apply Z.ltb_lt; exact Hn).
Qed.

Lemma dec_aux_large (fuel : nat) (n : Z) (acc : string) :
  10 <= n ->
  dec_aux (S fuel) n acc
  = dec_aux fuel (n / 10) (String (digit_char (n mod 10)) acc).
Proof.
  intros Hn. simpl.
  now replace (n <? 10) with false by (symmetry; apply Z.ltb_ge; exact Hn).
Qed.

(** [str(k)] for a number of at most four digits. *)
Lemma dec_str_four (k : Z) :
  0 <= k <= 9999 ->
  dec_str k
  = if k <? 10 then String (digit_char (k mod 10)) EmptyString
    else if k <? 100 then
      String (digit_char (k / 10 mod 10))
        (String (digit_char (k mod 10)) EmptyString)
    else if k <? 1000 then
      String (digit_char (k / 100 mod 10))
        (String (digit_char (k / 10 mod 10))
           (String (digit_char (k mod 10)) EmptyString))
    else Spec.four_digits k.
Proof.
  intros Hk. unfold dec_str.
  destruct (Z.ltb_spec k 10) as [H1 | H1]; [now apply dec_aux_small |].
  assert (Hlog : 3 <= Z.log2 k).
  { change 3 with (Z.log2 8). apply Z.log2_le_mono. lia. }
  destruct (Z.to_nat (Z.log2 k)) as [| [| [| fuel]]] eqn:Hf; try lia.
  rewrite dec_aux_large by exact H1.
  assert (Hd1 : k / 10 / 10 = k / 100) by (rewrite Z.div_div by lia; reflexivity).
  assert (Hd2 : k / 100 / 10 = k / 1000) by (rewrite Z.div_div by lia; reflexivity).
  destruct (Z.ltb_spec k 100) as [H2 | H2].
  { apply dec_aux_small. apply Z.div_lt_upper_bound; lia. }
  rewrite dec_aux_large by (apply Z.div_le_lower_bound; lia).
  rewrite Hd1.
  destruct (Z.ltb_spec k 1000) as [H3 | H3].
  { apply dec_aux_small. apply Z.div_lt_upper_bound; lia. }
  rewrite dec_aux_large by (apply Z.div_le_lower_bound; lia).
  rewrite Hd2. apply dec_aux_small. apply Z.div_lt_upper_bound; lia.
Qed.

Lemma fmt_04d_four_digits (k : Z) :
  0 <= k <= 9999 -> fmt_04d k = Spec.four_digits k.
Proof.
  intros Hk. unfold fmt_04d.
  replace (k <? 0) with false by (symmetry; apply Z.ltb_ge; lia).
  rewrite (dec_str_four k Hk). unfold Spec.four_digits.
  destruct (Z.ltb_spec k 10) as [H1 | H1].
  { rewrite !(Z.div_small k) by lia. reflexivity. }
  destruct (Z.ltb_spec k 100) as [H2 | H2].
  { rewrite (Z.div_small k 1000), (Z.div_small k 100) by lia. reflexivity. }
  destruct (Z.ltb_spec k 1000) as [H3 | H3].
  { rewrite (Z.div_small k 1000) by lia. reflexivity. }
  reflexivity.
Qed.

Lemma freq_suffix_of_int (f : float) (n : Z) :
  PyFloat.py_int (fmul f (of_Z 10)) = Some n ->
  Session._freq_suffix (Session.FreqValue f)
  = Some (Spec.four_digits (Spec.clamp 0 9999 n)).
Proof.
  intros Hn. unfold Session._freq_suffix. rewrite Hn. simpl.
  f_equal.
  assert (Hc : (if 9999 <? (if n <? 0 then 0 else n) then 9999
                else if n <? 0 then 0 else n) = Spec.clamp 0 9999 n).
  { unfold Spec.clamp.
    destruct (Z.ltb_spec n 0).
    - destruct (Z.ltb_spec 9999 0); lia.
    - destruct (Z.ltb_spec 9999 n); lia. }
  rewrite Hc. apply fmt_04d_four_digits. unfold Spec.clamp. lia.
Qed.

(** C5: for every frequency between 0 and 999.9 the suffix is
    [int(f * 10)], which is defined, clamped to [0, 9999] and written
    with four digits; the suffix of -5 is "0000" and that of 1000.0 is
    "9999". *)
Theorem freq_suffix_clamped :
  (forall f : float,
      valid f = true ->
      fleb (of_Z 0) f = true ->
      fleb f Spec.f_999_9 = true ->
      exists n,
        PyFloat.py_int (fmul f (of_Z 10)) = Some n
        /\ Session._freq_suffix (Session.FreqValue f)
           = Some (Spec.four_digits (Spec.clamp 0 9999 n)))
  /\ Session._freq_suffix (Session.FreqValue (of_Z (-5))) = Some "0000"%string
  /\ Session._freq_suffix (Session.FreqValue (of_Z 1000)) = Some "9999"%string.
Proof.
  split; [| split; reflexivity].
  intros f Hv H0 Hc.
  destruct (scaled_int_defined f Hv H0 Hc) as [n Hn].
  exists n. split; [exact Hn | apply freq_suffix_of_int, Hn].
Qed.

Lemma freq_suffix_clamped_witness :
  exists n,
    PyFloat.py_int (fmul (of_Z 100) (of_Z 10)) = Some n
    /\ Session._freq_suffix (Session.FreqValue (of_Z 100))
       = Some (Spec.four_digits (Spec.clamp 0 9999 n)).
Proof.
  apply (proj1 freq_suffix_clamped (of_Z 100)); reflexivity.
Defined.

End FreqSuffix.

(** ** Trimming *)

Section Strip.
Import PyStr.

Lemma lstrip_head (s : string) :
  lstrip s = EmptyString
  \/ exists c t, lstrip s = String c t /\ isspace c = false.
Proof.
  induction s as [| c t IH]; simpl; [now left |].
  destruct (isspace c) eqn:Hc; [exact IH |].
  right. now exists c, t.
Qed.

Lemma rstrip_cons (c : ascii) (t : string) :
  isspace c = false -> rstrip (String c t) = String c (rstrip t).
Proof.
  intros Hc. simpl. rewrite Hc. now destruct (rstrip t).
Qed.

Lemma rstrip_idem (s : string) : rstrip (rstrip s) = rstrip s.
Proof.
  induction s as [| c t IH]; simpl; [reflexivity |].
  destruct (rstrip t) as [| c' t'] eqn:Ht.
  - destruct (isspace c) eqn:Hc; simpl; [reflexivity | now rewrite Hc].
  - change (rstrip (String c (String c' t'))) with
      (match rstrip (String c' t') with
       | EmptyString => if isspace c then EmptyString else String c EmptyString
       | t'' => String c t''
       end).
    now rewrite IH.
Qed.

Lemma strip_idem (s : string) : strip (strip s) = strip s.
Proof.
  unfold strip. destruct (lstrip_head s) as [H | (c & t & H & Hc)].
  - now rewrite H.
  - rewrite H, (rstrip_cons c t Hc). simpl lstrip. rewrite Hc.
    rewrite <- (rstrip_cons c t Hc). apply rstrip_idem.
Qed.

End Strip.

(** ** The loop of [canonical_net] *)

Section CanonLoop.
Import PyStr SessionManager.

Local Open Scope nat_scope.

Implicit Types (alias : gmap string string) (st : canon_state).

Lemma canon_step_Some alias st st' :
  canon_step alias st = Some st' ->
  alias !! cur st = Some (cur st') /\ (cur st ∉ seen st)
  /\ seen st' = {[cur st]} ∪ seen st /\ had_manual_alias st' = true.
Proof.
  unfold canon_step. destruct (alias !! cur st) as [nxt |]; [| discriminate].
  destruct (decide (cur st ∈ seen st)); [discriminate |].
  intros [= <-]. auto.
Qed.

Lemma canon_step_None alias st :
  canon_step alias st = None ->
  alias !! cur st = None \/ cur st ∈ seen st.
Proof.
  unfold canon_step. destruct (alias !! cur st) as [nxt |]; [| auto].
  destruct (decide (cur st ∈ seen st)); [auto | discriminate].
Qed.

Lemma canon_step_measure alias st st' :
  canon_step alias st = Some st' ->
  size (dom alias ∖ seen st') < size (dom alias ∖ seen st).
Proof.
  intros H. apply canon_step_Some in H as (Hl & Hn & Hs & _).
  apply subset_size. rewrite Hs.
  assert (cur st ∈ dom alias) by (apply elem_of_dom; eauto).
  set_solver.
Qed.

(** The loop exits within as many body executions as there are aliased
    ids not yet seen. *)
Lemma canon_loop_terminates (fuel : nat) alias :
  forall st, size (dom alias ∖ seen st) <= fuel ->
             is_Some (canon_loop fuel alias st).
Proof.
  induction fuel as [| fuel IH]; intros st Hsz; simpl;
    destruct (canon_step alias st) as [st' |] eqn:Hstep; eauto.
  - apply canon_step_measure in Hstep. lia.
  - apply IH. apply canon_step_measure in Hstep. lia.
Qed.

Lemma canon_loop_fuel_mono (fuel : nat) alias :
  forall st fuel' fin,
    canon_loop fuel alias st = Some fin -> fuel <= fuel' ->
    canon_loop fuel' alias st = Some fin.
Proof.
  induction fuel as [| fuel IH]; intros st fuel' fin; simpl;
    destruct (canon_step alias st) as [st' |] eqn:Hstep; intros H Hle.
  - discriminate.
  - destruct fuel'; simpl; now rewrite Hstep.
  - destruct fuel' as [| fuel']; [lia |]. simpl. rewrite Hstep.
    apply IH; [exact H | lia].
  - destruct fuel'; simpl; now rewrite Hstep.
Qed.

Lemma canon_loop_chase (fuel : nat) alias :
  forall st fin,
    canon_loop fuel alias st = Some fin ->
    Spec.chase alias (seen st) (cur st) (cur fin)
    /\ had_manual_alias fin
       = match canon_step alias st with
         | Some _ => true
         | None => had_manual_alias st
         end.
Proof.
  induction fuel as [| fuel IH]; intros st fin; simpl;
    destruct (canon_step alias st) as [st' |] eqn:Hstep; intros H.
  - discriminate.
  - injection H as <-. split; [| reflexivity].
    apply Spec.chase_stop, canon_step_None, Hstep.
  - destruct (IH _ _ H) as [Hc Hh].
    pose proof (canon_step_Some _ _ _ Hstep) as (Hl & Hn & Hs & Hm).
    split.
    + eapply Spec.chase_next; [exact Hl | exact Hn |]. now rewrite <- Hs.
    + rewrite Hh. now destruct (canon_step alias st').
  - injection H as <-. split; [| reflexivity].
    apply Spec.chase_stop, canon_step_None, Hstep.
Qed.

Lemma chase_deterministic alias (sn : gset string) (c r1 r2 : string) :
  Spec.chase alias sn c r1 -> Spec.chase alias sn c r2 -> r1 = r2.
Proof.
  intros H1. revert r2.
  induction H1 as [sn c Hstop | sn c nxt r Hl Hn Hch IH]; intros r2 H2.
  - inversion H2 as [| ? ? nxt' ? Hl' Hn' Hch']; subst; [reflexivity |].
    destruct Hstop; [congruence | contradiction].
  - inversion H2 as [? ? Hstop | ? ? nxt' ? Hl' Hn' Hch']; subst.
    + destruct Hstop; [congruence | contradiction].
    + apply IH. congruence.
Qed.

(** The ids the body runs on are pairwise distinct aliased ids outside
    the initial [seen]. *)
Lemma canon_visits_fresh (fuel : nat) alias :
  forall st,
    NoDup (Spec.canon_visits fuel alias st)
    /\ forall x, x ∈ Spec.canon_visits fuel alias st ->
                 x ∈ dom alias /\ x ∉ seen st.
Proof.
  induction fuel as [| fuel IH]; intros st; simpl;
    destruct (canon_step alias st) as [st' |] eqn:Hstep.
  - apply canon_step_Some in Hstep as (Hl & Hn & _).
    split; [apply NoDup_singleton |].
    intros x Hx. apply list_elem_of_singleton in Hx as ->.
    split; [apply elem_of_dom; eauto | exact Hn].
  - split; [constructor | intros x Hx; inversion Hx].
  - pose proof (canon_step_Some _ _ _ Hstep) as (Hl & Hn & Hs & _).
    destruct (IH st') as [Hnd Hin]. split.
    + constructor; [| exact Hnd].
      intros Hx. apply Hin in Hx as [_ Hx]. rewrite Hs in Hx. set_solver.
    + intros x Hx. apply elem_of_cons in Hx as [-> | Hx].
      * split; [apply elem_of_dom; eauto | exact Hn].
      * apply Hin in Hx as [Hd Hx]. rewrite Hs in Hx.
        split; [exact Hd | set_solver].
  - split; [constructor | intros x Hx; inversion Hx].
Qed.

(** The ids the loop has seen at its exit are those it started with
    and those its body ran on. *)
Lemma canon_loop_seen_visits (fuel : nat) alias :
  forall st fin,
    canon_loop fuel alias st = Some fin ->
    seen fin = list_to_set (Spec.canon_visits fuel alias st) ∪ seen st.
Proof.
  induction fuel as [| fuel IH]; intros st fin; simpl;
    destruct (canon_step alias st) as [st' |] eqn:Hstep; intros H.
  - discriminate.
  - injection H as <-. set_solver.
  - apply canon_step_Some in Hstep as (_ & _ & Hs & _).
    rewrite (IH _ _ H), Hs. set_solver.
  - injection H as <-. set_solver.
Qed.

Lemma canon_visits_length (fuel : nat) alias st :
  length (Spec.canon_visits fuel alias st) <= size alias.
Proof.
  destruct (canon_visits_fresh fuel alias st) as [Hnd Hin].
  rewrite <- (size_list_to_set (C := gset string)) by exact Hnd.
  rewrite <- size_dom. apply subseteq_size.
  intros x Hx. apply elem_of_list_to_set in Hx. now apply Hin.
Qed.

(** Every id already seen leads to the current one by at least one
    alias hop. *)
Lemma canon_loop_cycle (fuel : nat) alias :
  forall st fin,
    (forall s, s ∈ seen st -> tc (Spec.alias_edge alias) s (cur st)) ->
    canon_loop fuel alias st = Some fin ->
    rtc (Spec.alias_edge alias) (cur st) (cur fin)
    /\ (forall s, s ∈ seen fin -> tc (Spec.alias_edge alias) s (cur fin)).
Proof.
  induction fuel as [| fuel IH]; intros st fin Hinv; simpl;
    destruct (canon_step alias st) as [st' |] eqn:Hstep; intros H.
  - discriminate.
  - injection H as <-. split; [reflexivity | exact Hinv].
  - pose proof (canon_step_Some _ _ _ Hstep) as (Hl & Hn & Hs & _).
    destruct (IH st' fin) as [Hr Hf]; [| exact H |].
    + intros s Hsin. rewrite Hs in Hsin.
      apply elem_of_union in Hsin as [Hsin | Hsin].
      * apply elem_of_singleton in Hsin as ->. now apply tc_once.
      * eapply tc_r; [apply Hinv, Hsin | exact Hl].
    + split; [| exact Hf]. eapply rtc_l; [exact Hl | exact Hr].
  - injection H as <-. split; [reflexivity | exact Hinv].
Qed.

Lemma canon_loop_exit (fuel : nat) alias :
  forall st fin,
    canon_loop fuel alias st = Some fin -> canon_step alias fin = None.
Proof.
  induction fuel as [| fuel IH]; intros st fin; simpl;
    destruct (canon_step alias st) as [st' |] eqn:Hstep; intros H.
  - discriminate.
  - now injection H as <-.
  - eapply IH, H.
  - now injection H as <-.
Qed.

Lemma canon_loop_init (fuel : nat) alias (nid : string) :
  size alias <= fuel ->
  is_Some (canon_loop fuel alias (Spec.canon_init nid)).
Proof.
  intros Hf. apply canon_loop_terminates. simpl.
  rewrite difference_empty_L, size_dom. exact Hf.
Qed.

(** The value of [canonical_net] on an id with an alias: the end of
    the chase. *)
Lemma canonical_net_aliased (m : t) (nid r : string) :
  strip nid <> EmptyString ->
  is_Some (net_alias m !! strip nid) ->
  Spec.chase (net_alias m) ∅ (strip nid) r ->
  canonical_net m nid = r.
Proof.
  intros Hne [nxt Hnxt] Hch. unfold canonical_net, canonical_net_fuel.
  apply String.eqb_neq in Hne. rewrite Hne.
  destruct (canon_loop_init (size (net_alias m)) (net_alias m) nid (le_n _))
    as [fin Hfin].
  fold (Spec.canon_init nid). rewrite Hfin. simpl.
  apply canon_loop_chase in Hfin as [Hc Hh]. simpl in Hc, Hh.
  unfold canon_step in Hh. simpl in Hh. rewrite Hnxt in Hh.
  destruct (decide (strip nid ∈ (∅ : gset string))) as [Hin | _];
    [set_solver |].
  unfold canon_finish. rewrite Hh, andb_false_r.
  eapply chase_deterministic; eassumption.
Qed.

Lemma canonical_net_unaliased (m : t) (nid : string) :
  net_alias m !! strip nid = None ->
  canonical_net m nid
  = canon_finish (auto_merge_by_freq m) (Spec.canon_init nid).
Proof.
  intros Hnone. unfold canonical_net, canonical_net_fuel.
  destruct (String.eqb_spec (strip nid) EmptyString) as [He | Hne].
  - simpl. unfold canon_finish, Spec.canon_init. simpl. rewrite He.
    now destruct (auto_merge_by_freq m).
  - fold (Spec.canon_init nid).
    assert (Hstep : canon_step (net_alias m) (Spec.canon_init nid) = None).
    { unfold canon_step. simpl. now rewrite Hnone. }
    destruct (size (net_alias m)); simpl; now rewrite Hstep.
Qed.

End CanonLoop.

(** ** Termination of [canonical_net] *)

Section CanonicalNet.
Import PyStr SessionManager.

Local Open Scope nat_scope.

Lemma canon_init_seen (alias : gmap string string) (nid : string) :
  forall s, s ∈ seen (Spec.canon_init nid) ->
            tc (Spec.alias_edge alias) s (cur (Spec.canon_init nid)).
Proof. intros s Hs. simpl in Hs. set_solver. Qed.

(** The alias table is a function: an id has at most one alias. *)
Lemma on_cycle_closed (alias : gmap string string) (y z : string) :
  tc (Spec.alias_edge alias) y y -> rtc (Spec.alias_edge alias) y z ->
  tc (Spec.alias_edge alias) z z.
Proof.
  intros Hy Hr. revert z Hr.
  apply (rtc_ind_r (fun z => tc (Spec.alias_edge alias) z z) y Hy).
  intros z' z _ He IH. unfold Spec.alias_edge in He.
  inversion IH as [? ? He' | ? w ? He' Hw]; subst;
    unfold Spec.alias_edge in He'; rewrite He in He'; injection He' as <-.
  - apply tc_once. exact He.
  - eapply tc_r; [exact Hw | exact He].
Qed.

(** A chain that runs into a cycle never reaches an id without
    alias. *)
Lemma cyclic_chain_endless (alias : gmap string string) (c : string) :
  Spec.cyclic_chain alias c ->
  forall z, rtc (Spec.alias_edge alias) c z -> is_Some (alias !! z).
Proof.
  intros (y & Hcy & Hy).
  induction Hcy as [c | c c' y He Hcy IH]; intros z Hz.
  - pose proof (on_cycle_closed _ _ _ Hy Hz) as Hzz.
    inversion Hzz as [? ? He | ? w ? He _]; subst; eexists; exact He.
  - inversion Hz as [| ? c'' ? He' Hz']; subst; [eexists; exact He |].
    unfold Spec.alias_edge in He, He'. rewrite He in He'.
    injection He' as <-. apply IH; assumption.
Qed.

(** C4: [canonical_net] returns on every id and every alias table, with
    or without cycles: the loop body runs at most once per aliased id,
    on pairwise distinct ids, so as many executions as the table has
    entries suffice and more change nothing. When the chain of aliases
    from the id runs into a cycle, the result is a member of that
    cycle which the chain reaches; the same holds whenever the id and
    the result are both aliased. *)
Theorem canonical_net_terminates
        (alias : gmap string string) (auto : bool) (nid : string) :
  exists r,
    (forall fuel, size alias <= fuel ->
                  canonical_net_fuel fuel alias auto nid = Some r)
    /\ (forall items, canonical_net (mk items alias auto) nid = r)
    /\ (forall fuel,
           NoDup (Spec.canon_visits fuel alias (Spec.canon_init nid))
           /\ length (Spec.canon_visits fuel alias (Spec.canon_init nid))
              <= size alias)
    /\ (strip nid <> EmptyString ->
        Spec.cyclic_chain alias (strip nid) ->
        tc (Spec.alias_edge alias) r r
        /\ rtc (Spec.alias_edge alias) (strip nid) r)
    /\ (strip nid <> EmptyString ->
        is_Some (alias !! strip nid) -> is_Some (alias !! r) ->
        tc (Spec.alias_edge alias) r r
        /\ rtc (Spec.alias_edge alias) (strip nid) r).
Proof.
  destruct (canon_loop_init (size alias) alias nid (le_n _)) as [fin Hfin].
  assert (Hfuel : forall fuel, size alias <= fuel ->
              canonical_net_fuel fuel alias auto nid
              = canonical_net_fuel (size alias) alias auto nid).
  { intros fuel Hle. unfold canonical_net_fuel.
    destruct (String.eqb (strip nid) EmptyString); [reflexivity |].
    fold (Spec.canon_init nid). rewrite Hfin.
    now rewrite (canon_loop_fuel_mono _ _ _ fuel fin Hfin Hle). }
  assert (Hsome : exists r,
             canonical_net_fuel (size alias) alias auto nid = Some r).
  { unfold canonical_net_fuel.
    destruct (String.eqb (strip nid) EmptyString); [eauto |].
    fold (Spec.canon_init nid). rewrite Hfin. simpl. eauto. }
  destruct Hsome as [r Hr]. exists r.
  split; [intros fuel Hle; now rewrite Hfuel |].
  split; [intros items; unfold canonical_net; simpl; now rewrite Hr |].
  split; [intros fuel; split;
          [apply canon_visits_fresh | apply canon_visits_length] |].
  assert (Hcyc : strip nid <> EmptyString ->
                 is_Some (alias !! strip nid) ->
                 rtc (Spec.alias_edge alias) (strip nid) r
                 /\ (is_Some (alias !! r) ->
                     tc (Spec.alias_edge alias) r r)).
  { intros Hne [nxt Hnxt].
    unfold canonical_net_fuel in Hr. apply String.eqb_neq in Hne.
    rewrite Hne in Hr. fold (Spec.canon_init nid) in Hr. rewrite Hfin in Hr.
    simpl in Hr. injection Hr as <-.
    pose proof (canon_loop_chase _ _ _ _ Hfin) as [_ Hh].
    pose proof (canon_loop_exit _ _ _ _ Hfin) as Hexit.
    pose proof (canon_loop_cycle _ _ _ _ (canon_init_seen alias nid) Hfin)
      as [Hrt Hc].
    unfold canon_step in Hh at 1. simpl in Hh. rewrite Hnxt in Hh.
    destruct (decide (strip nid ∈ (∅ : gset string))) as [Hin | _];
      [set_solver |].
    unfold canon_finish in *. rewrite Hh, andb_false_r in *.
    split; [exact Hrt |]. intros [nxt' Hnxt'].
    apply canon_step_None in Hexit as [Hexit | Hexit]; [congruence |].
    now apply Hc. }
  split.
  - intros Hne Hcy.
    pose proof (cyclic_chain_endless _ _ Hcy) as Hend.
    destruct (Hcyc Hne (Hend _ (rtc_refl _ _))) as [Hrt Htc].
    split; [apply Htc, Hend, Hrt | exact Hrt].
  - intros Hne Hs Hr'. destruct (Hcyc Hne Hs) as [Hrt Htc].
    split; [apply Htc, Hr' | exact Hrt].
Qed.

(** The cycle A -> B -> A: the call on A returns A, a member of the
    cycle, within two body executions. *)
Lemma canonical_net_terminates_witness :
  exists r,
    canonical_net_fuel 2 Examples.cycle_alias true "A" = Some r
    /\ r = "A"%string
    /\ tc (Spec.alias_edge Examples.cycle_alias) r r.
Proof.
  set (alias := Examples.cycle_alias).
  destruct (canonical_net_terminates alias true "A")
    as (r & Hf & _ & _ & Hc & _).
  pose proof (Hf 2 ltac:(vm_compute; lia)) as H2.
  assert (Hr : r = "A"%string)
    by (vm_compute in H2; injection H2 as <-; reflexivity).
  exists r. split; [exact H2 | split; [exact Hr |]].
  apply Hc.
  - vm_compute. discriminate.
  - exists "A"%string. split; [apply rtc_refl |].
    apply tc_l with "B"%string; [| apply tc_once]; vm_compute; reflexivity.
Defined.

End CanonicalNet.

(** ** Digits and the frequency suffix of a network id *)

Section Suffix.
Import PyStr SessionManager.

Lemma int_digits_all (s : string) :
  forall acc v, int_digits s acc = Some v ->
                all_chars is_ascii_digit s = true.
Proof.
  induction s as [| c t IH]; intros acc v; simpl; [reflexivity |].
  destruct (is_ascii_digit c); [| discriminate].
  intros H. simpl. eapply IH, H.
Qed.

Lemma all_digits_int (s : string) :
  all_chars is_ascii_digit s = true ->
  forall acc, exists v, int_digits s acc = Some v.
Proof.
  induction s as [| c t IH]; simpl; intros Hall acc; [eauto |].
  apply andb_prop in Hall as [Hc Ht]. rewrite Hc. apply IH, Ht.
Qed.


Lemma int_digits_bound (s : string) :
  forall acc v, 0 <= acc -> int_digits s acc = Some v ->
                0 <= v < (acc + 1) * 10 ^ Z.of_nat (String.length s).
Proof.
  induction s as [| c t IH]; intros acc v Hacc; simpl String.length.
  - simpl. intros [= <-]. lia.
  - simpl int_digits. destruct (is_ascii_digit c) eqn:Hc; [| discriminate].
    intros H. unfold is_ascii_digit in Hc.
    apply andb_prop in Hc as [Hlo Hhi].
    apply Z.leb_le in Hlo, Hhi.
    apply IH in H; [| lia].
    rewrite Nat2Z.inj_succ, Z.pow_succ_r by lia. nia.
Qed.

Lemma substring_length (s : string) :
  forall n k, (String.length (substring n k s) <= k)%nat.
Proof.
  induction s as [| c t IH]; intros [| n] [| k]; simpl; try lia.
  - specialize (IH 0%nat k). lia.
  - apply IH.
  - apply IH.
Qed.

Lemma py_int_last4_bound (nid : string) (v : Z) :
  PyStr.py_int (last4 nid) = Some v -> 0 <= v <= 9999.
Proof.
  unfold PyStr.py_int, last4. intros H.
  pose proof (substring_length nid (String.length nid - 4) 4) as Hlen.
  destruct (substring (String.length nid - 4) 4 nid) as [| c t] eqn:Hs;
    [discriminate |].
  apply int_digits_bound in H; [| lia].
  assert (10 ^ Z.of_nat (String.length (String c t)) <= 10 ^ 4)
    by (apply Z.pow_le_mono_r; lia).
  lia.
Qed.

Lemma digit_char_digit (d : Z) :
  0 <= d <= 9 ->
  is_ascii_digit (digit_char d) = true /\ code (digit_char d) = 48 + d.
Proof.
  intros Hd.
  assert (H : d = 0 \/ d = 1 \/ d = 2 \/ d = 3 \/ d = 4 \/ d = 5
              \/ d = 6 \/ d = 7 \/ d = 8 \/ d = 9) by lia.
  repeat (destruct H as [-> | H]; [split; reflexivity |]).
  subst. split; reflexivity.
Qed.

Lemma py_int_fmt_04d (v : Z) :
  0 <= v <= 9999 -> PyStr.py_int (fmt_04d v) = Some v.
Proof.
  intros Hv. rewrite fmt_04d_four_digits by exact Hv.
  unfold Spec.four_digits, PyStr.py_int, int_digits.
  pose proof (Z.mod_pos_bound (v / 1000) 10 ltac:(lia)) as B3.
  pose proof (Z.mod_pos_bound (v / 100) 10 ltac:(lia)) as B2.
  pose proof (Z.mod_pos_bound (v / 10) 10 ltac:(lia)) as B1.
  pose proof (Z.mod_pos_bound v 10 ltac:(lia)) as B0.
  destruct (digit_char_digit (v / 1000 mod 10) ltac:(lia)) as [-> ->].
  destruct (digit_char_digit (v / 100 mod 10) ltac:(lia)) as [-> ->].
  destruct (digit_char_digit (v / 10 mod 10) ltac:(lia)) as [-> ->].
  destruct (digit_char_digit (v mod 10) ltac:(lia)) as [-> ->].
  f_equal.
  assert (H100 : v / 100 = v / 10 / 10) by (rewrite Z.div_div by lia; reflexivity).
  assert (H1000 : v / 1000 = v / 10 / 10 / 10)
    by (rewrite !Z.div_div by lia; reflexivity).
  rewrite H1000, H100.
  pose proof (Z.div_mod v 10 ltac:(lia)) as E0.
  pose proof (Z.div_mod (v / 10) 10 ltac:(lia)) as E1.
  pose proof (Z.div_mod (v / 10 / 10) 10 ltac:(lia)) as E2.
  assert (Hsmall : v / 10 / 10 / 10 < 10).
  { rewrite <- H1000. apply Z.div_lt_upper_bound; lia. }
  assert (Hpos : 0 <= v / 10 / 10 / 10).
  { rewrite <- H1000. apply Z.div_pos; lia. }
  rewrite (Z.mod_small (v / 10 / 10 / 10) 10) by lia.
  lia.
Qed.


Lemma freq_suffix_from_net_neg (nid : string) :
  ~ Spec.positive_suffix (strip nid) -> _freq_suffix_from_net nid = None.
Proof.
  intros Hneg. unfold _freq_suffix_from_net.
  destruct (String.length (strip nid) <? 4)%nat eqn:Hlen; [reflexivity |].
  destruct (isdigit (last4 (strip nid))) eqn:Hd; [| reflexivity]. simpl.
  destruct (PyStr.py_int (last4 (strip nid))) as [v |] eqn:Hv; [| reflexivity].
  destruct (v <=? 0) eqn:Hpos; [reflexivity |].
  exfalso. apply Hneg. repeat split.
  - now apply Nat.ltb_ge.
  - unfold PyStr.py_int in Hv.
    destruct (last4 (strip nid)); [discriminate |].
    eapply int_digits_all, Hv.
  - exists v. split; [exact Hv | now apply Z.leb_gt].
Qed.



End Suffix.

(** ** Alias chains *)

Section AliasChain.
Import PyStr SessionManager.

(** C3, as stated, fails: with auto-merge enabled the head of the chain
    canonicalises to its end, the end to the synthetic frequency id. *)
Lemma canonical_net_chain_counterexample :
  Examples.chain_alias !! "AAA1000"%string = Some "BBB1000"%string
  /\ Examples.chain_alias !! "BBB1000"%string = Some "CCC1000"%string
  /\ Examples.chain_alias !! "CCC1000"%string = None
  /\ canonical_net (mk [] Examples.chain_alias true) "AAA1000"
     = "CCC1000"%string
  /\ canonical_net (mk [] Examples.chain_alias true) "CCC1000"
     = "FREQ-100"%string
  /\ canonical_net (mk [] Examples.chain_alias true) "AAA1000"
     <> canonical_net (mk [] Examples.chain_alias true) "CCC1000".
Proof.
  vm_compute. repeat split; discriminate.
Qed.

Lemma chain_chase (alias : gmap string string) (A B C : string) :
  alias !! A = Some B -> alias !! B = Some C -> alias !! C = None ->
  Spec.chase alias ∅ A C.
Proof.
  intros HA HB HC.
  assert (Hne : B <> A) by (intros ->; congruence).
  eapply Spec.chase_next; [exact HA | set_solver |].
  eapply Spec.chase_next; [exact HB | set_solver |].
  apply Spec.chase_stop. now left.
Qed.

(** C3, amended: on a table of trimmed ids holding the chain
    A -> B -> C with C not aliased, [canonical_net A] is C whatever the
    auto-merge flag, and [canonical_net A] equals [canonical_net C] when
    auto-merge is disabled or C does not end in four digits encoding a
    positive value. *)
Theorem canonical_net_chain_amended (m : t) (A B C : string) :
  Spec.trimmed_table (net_alias m) ->
  net_alias m !! A = Some B ->
  net_alias m !! B = Some C ->
  net_alias m !! C = None ->
  canonical_net m A = C
  /\ (auto_merge_by_freq m = false \/ ~ Spec.positive_suffix C ->
      canonical_net m A = canonical_net m C).
Proof.
  intros Htrim HA HB HC.
  destruct (Htrim _ _ HA) as (HsA & HneA & _).
  destruct (Htrim _ _ HB) as (_ & _ & HsC).
  assert (H1 : canonical_net m A = C).
  { apply canonical_net_aliased.
    - now rewrite HsA.
    - rewrite HsA. eauto.
    - rewrite HsA. eapply chain_chase; eassumption. }
  assert (H2 : canonical_net m C
               = canon_finish (auto_merge_by_freq m) (Spec.canon_init C)).
  { apply canonical_net_unaliased. now rewrite HsC. }
  unfold canon_finish, Spec.canon_init in H2. simpl in H2.
  rewrite HsC in H2.
  split; [exact H1 |].
  intros [Hauto | Hsuf]; rewrite H1, H2.
  - now rewrite Hauto.
  - rewrite freq_suffix_from_net_neg by (now rewrite HsC).
    now destruct (auto_merge_by_freq m).
Qed.

Lemma canonical_net_chain_amended_witness :
  canonical_net (mk [] Examples.chain_alias true) "AAA1000"
  = "CCC1000"%string
  /\ canonical_net (mk [] Examples.chain_alias false) "AAA1000"
     = canonical_net (mk [] Examples.chain_alias false) "CCC1000".
Proof.
  set (alias := Examples.chain_alias).
  assert (Htrim : Spec.trimmed_table alias).
  { intros k v Hkv. unfold alias, Examples.chain_alias in Hkv.
    apply lookup_insert_Some in Hkv as [[<- <-] | [_ Hkv]];
      [split; [reflexivity | split; [discriminate | reflexivity]] |].
    apply lookup_insert_Some in Hkv as [[<- <-] | [_ Hkv]];
      [split; [reflexivity | split; [discriminate | reflexivity]] |].
    rewrite lookup_empty in Hkv. discriminate. }
  assert (HA : alias !! "AAA1000"%string = Some "BBB1000"%string)
    by (vm_compute; reflexivity).
  assert (HB : alias !! "BBB1000"%string = Some "CCC1000"%string)
    by (vm_compute; reflexivity).
  assert (HC : alias !! "CCC1000"%string = None)
    by (vm_compute; reflexivity).
  split.
  - exact (proj1 (canonical_net_chain_amended (mk [] alias true) "AAA1000"
                    "BBB1000" "CCC1000" Htrim HA HB HC)).
  - exact (proj2 (canonical_net_chain_amended (mk [] alias false) "AAA1000"
                    "BBB1000" "CCC1000" Htrim HA HB HC)
                 (or_introl eq_refl)).
Defined.

End AliasChain.

(** ** [merge_net] *)

Section MergeNet.
Import PyStr SessionManager.

Implicit Types (alias : gmap string string) (sn : gset string).

(** A chase that ends in an id of a smaller [seen] ends there from the
    smaller set too. *)
Lemma chase_shrink alias sn1 (c r : string) :
  Spec.chase alias sn1 c r ->
  forall sn2, r ∈ sn2 -> sn2 ⊆ sn1 -> Spec.chase alias sn2 c r.
Proof.
  induction 1 as [sn1 c Hstop | sn1 c nxt r Hl Hn Hch IH]; intros sn2 Hr Hsub.
  - apply Spec.chase_stop. now right.
  - eapply Spec.chase_next; [exact Hl | set_solver |].
    apply IH; set_solver.
Qed.

(** The end of a chase is its own end. *)
Lemma chase_fixpoint alias sn (c r : string) :
  Spec.chase alias sn c r -> Spec.chase alias sn r r.
Proof.
  induction 1 as [sn c Hstop | sn c nxt r Hl Hn Hch IH].
  - now apply Spec.chase_stop.
  - inversion IH as [? ? Hstop | ? ? nxt' ? Hl' Hn' Hch']; subst.
    + destruct Hstop as [Hnone | Hin].
      * apply Spec.chase_stop. now left.
      * apply elem_of_union in Hin as [Hin | Hin].
        -- apply elem_of_singleton in Hin as ->.
           eapply Spec.chase_next; eassumption.
        -- apply Spec.chase_stop. now right.
    + eapply Spec.chase_next; [exact Hl' | set_solver |].
      eapply chase_shrink; [exact Hch' | set_solver | set_solver].
Qed.

(** Rebinding an id already seen does not change a chase. *)
Lemma chase_insert_seen alias sn (c r k v : string) :
  Spec.chase alias sn c r -> k ∈ sn ->
  Spec.chase (<[k := v]> alias) sn c r.
Proof.
  induction 1 as [sn c Hstop | sn c nxt r Hl Hn Hch IH]; intros Hk.
  - apply Spec.chase_stop. destruct Hstop as [Hnone | Hin]; [| now right].
    destruct (decide (k = c)) as [-> | Hne]; [now right | left].
    now rewrite lookup_insert_ne.
  - assert (Hne : k <> c) by (intros ->; contradiction).
    eapply Spec.chase_next; [| exact Hn | apply IH; set_solver].
    rewrite lookup_insert_ne by exact Hne. exact Hl.
Qed.

(** Binding any id to the end of a chase leaves the end of the chase
    unchanged. *)
Lemma chase_insert_result alias sn (c r k : string) :
  Spec.chase alias sn c r -> Spec.chase (<[k := r]> alias) sn c r.
Proof.
  intros Hall.
  induction Hall as [sn c Hstop | sn c nxt r Hl Hn Hch IH].
  - destruct Hstop as [Hnone | Hin]; [| apply Spec.chase_stop; now right].
    destruct (decide (k = c)) as [-> | Hne].
    + destruct (decide (c ∈ sn)) as [Hin | Hnin];
        [apply Spec.chase_stop; now right |].
      eapply Spec.chase_next; [apply lookup_insert_eq | exact Hnin |].
      apply Spec.chase_stop. right. set_solver.
    + apply Spec.chase_stop. left. now rewrite lookup_insert_ne.
  - destruct (decide (k = c)) as [-> | Hne].
    + eapply Spec.chase_next; [apply lookup_insert_eq | exact Hn |].
      apply chase_insert_seen; [| set_solver].
      eapply chase_fixpoint, Hch.
    + eapply Spec.chase_next; [| exact Hn | exact IH].
      rewrite lookup_insert_ne by exact Hne. exact Hl.
Qed.

Lemma canonical_net_items (m : t) (items : list (Z * Session.t)) (nid : string) :
  canonical_net (mk items (net_alias m) (auto_merge_by_freq m)) nid
  = canonical_net m nid.
Proof. reflexivity. Qed.

(** After [alias[src] = canonical_net(dst)], [canonical_net(dst)] is what
    it was. *)
Lemma canonical_net_after_merge (m : t) (src dst : string) :
  strip src <> strip dst ->
  canonical_net
    (mk (by_ssrc m) (<[strip src := canonical_net m (strip dst)]> (net_alias m))
        (auto_merge_by_freq m)) (strip dst)
  = canonical_net m (strip dst).
Proof.
  intros Hne.
  set (m' := mk (by_ssrc m) _ _).
  destruct (net_alias m !! strip dst) as [nxt |] eqn:Hd.
  - destruct (String.eqb_spec (strip dst) EmptyString) as [He | Hnz].
    { unfold canonical_net, canonical_net_fuel.
      rewrite strip_idem, He. reflexivity. }
    assert (Hrun : exists fin,
               canon_loop (size (net_alias m)) (net_alias m)
                          (Spec.canon_init (strip dst)) = Some fin)
      by (apply canon_loop_init; lia).
    destruct Hrun as [fin Hfin].
    apply canon_loop_chase in Hfin as [Hch _]. simpl in Hch.
    rewrite strip_idem in Hch.
    assert (Hr : canonical_net m (strip dst) = cur fin).
    { apply canonical_net_aliased; rewrite strip_idem;
        [exact Hnz | eauto | exact Hch]. }
    rewrite Hr. apply canonical_net_aliased.
    + now rewrite strip_idem.
    + rewrite strip_idem. subst m'. simpl.
      rewrite lookup_insert_ne by exact Hne. eauto.
    + subst m'. simpl. rewrite Hr, strip_idem.
      apply chase_insert_result, Hch.
  - rewrite !canonical_net_unaliased.
    + reflexivity.
    + now rewrite strip_idem.
    + subst m'. simpl. rewrite strip_idem.
      now rewrite lookup_insert_ne by exact Hne.
Qed.

(** C6: a second [merge_net(src, dst)] right after the first changes
    nothing, and [merge_net] changes nothing at all when an argument is
    empty after trimming or the two are equal after trimming. *)
Theorem merge_net_idempotent (m : t) (src dst : string) :
  merge_net (merge_net m src dst) src dst = merge_net m src dst
  /\ (strip src = EmptyString \/ strip dst = EmptyString
      \/ strip src = strip dst ->
      merge_net m src dst = m).
Proof.
  split.
  - unfold merge_net at 2.
    destruct (String.eqb (strip src) EmptyString
              || String.eqb (strip dst) EmptyString
              || String.eqb (strip src) (strip dst)) eqn:Hskip.
    + unfold merge_net. now rewrite Hskip.
    + unfold merge_net. rewrite Hskip. simpl.
      apply orb_false_elim in Hskip as [_ Hne].
      apply String.eqb_neq in Hne.
      pose proof (canonical_net_after_merge m src dst Hne) as Hsame.
      unfold canonical_net in Hsame at 1. simpl in Hsame.
      unfold canonical_net at 1. simpl.
      unfold canonical_net_fuel in *. rewrite strip_idem in *.
      rewrite Hsame. now rewrite insert_insert_eq.
  - intros Hno. unfold merge_net.
    destruct Hno as [H | [H | H]]; rewrite H; rewrite ?String.eqb_refl;
      rewrite ?orb_true_r; reflexivity.
Qed.

Lemma merge_net_idempotent_witness :
  merge_net (mk [] Examples.chain_alias true) " X " "X"
  = mk [] Examples.chain_alias true.
Proof.
  apply (proj2 (merge_net_idempotent (mk [] Examples.chain_alias true)
                  " X " "X")).
  right. right. reflexivity.
Defined.

(** *** The tables [merge_net] builds hold trimmed ids *)

Lemma all_chars_app (p : ascii -> bool) (s1 s2 : string) :
  all_chars p (s1 +:+ s2) = all_chars p s1 && all_chars p s2.
Proof.
  induction s1 as [| c t IH]; simpl; [reflexivity |].
  now rewrite IH, andb_assoc.
Qed.

Lemma all_chars_rstrip_char (p : ascii -> bool) (ch : ascii) (s : string) :
  all_chars p s = true -> all_chars p (rstrip_char ch s) = true.
Proof.
  induction s as [| c t IH]; simpl; [reflexivity |].
  intros H. apply andb_prop in H as [Hc Ht]. specialize (IH Ht).
  destruct (rstrip_char ch t) as [| c' t'].
  - destruct (Ascii.eqb c ch); simpl; [reflexivity | now rewrite Hc].
  - change (all_chars p (String c (String c' t')))
      with (p c && all_chars p (String c' t')).
    now rewrite Hc, IH.
Qed.

Lemma digit_char_no_space (d : Z) :
  0 <= d <= 9 -> isspace (digit_char d) = false.
Proof.
  intros Hd.
  assert (H : d = 0 \/ d = 1 \/ d = 2 \/ d = 3 \/ d = 4 \/ d = 5
              \/ d = 6 \/ d = 7 \/ d = 8 \/ d = 9) by lia.
  repeat (destruct H as [-> | H]; [reflexivity |]). now subst.
Qed.

Lemma dec_aux_no_space (fuel : nat) :
  forall n acc, Spec.no_space acc = true -> Spec.no_space (dec_aux fuel n acc) = true.
Proof.
  induction fuel as [| fuel IH]; intros n acc Hacc; simpl; [exact Hacc |].
  assert (Hd : Spec.no_space (String (digit_char (n mod 10)) acc) = true).
  { unfold Spec.no_space. simpl. rewrite digit_char_no_space.
    - exact Hacc.
    - pose proof (Z.mod_pos_bound n 10). lia. }
  destruct (n <? 10); [exact Hd | apply IH, Hd].
Qed.

Lemma dec_str_no_space (n : Z) : Spec.no_space (dec_str n) = true.
Proof. apply dec_aux_no_space. reflexivity. Qed.

Lemma strip_no_space (s : string) : Spec.no_space s = true -> strip s = s.
Proof.
  intros H. unfold strip.
  assert (Hl : lstrip s = s).
  { destruct s as [| c t]; [reflexivity |]. unfold Spec.no_space in H. simpl in H.
    apply andb_prop in H as [Hc _]. simpl.
    now destruct (isspace c). }
  rewrite Hl. clear Hl. induction s as [| c t IH]; [reflexivity |].
  unfold Spec.no_space in H. simpl in H. apply andb_prop in H as [Hc Ht].
  simpl. rewrite (IH Ht). destruct t; [| reflexivity].
  now destruct (isspace c).
Qed.

Lemma auto_canon_trimmed (v : Z) :
  0 <= v <= 9999 ->
  strip (_auto_canon_for_suffix (fmt_04d v)) = _auto_canon_for_suffix (fmt_04d v).
Proof.
  intros Hv. apply strip_no_space. unfold _auto_canon_for_suffix.
  rewrite py_int_fmt_04d by exact Hv.
  unfold Spec.no_space. rewrite all_chars_app. apply andb_true_intro.
  split; [reflexivity |].
  do 2 apply all_chars_rstrip_char.
  unfold fmt_tenths_1f. rewrite !all_chars_app.
  fold (Spec.no_space (dec_str (v / 10))). fold (Spec.no_space (dec_str (v mod 10))).
  now rewrite !dec_str_no_space.
Qed.

Lemma chase_result alias sn (c r : string) :
  Spec.chase alias sn c r -> r = c \/ exists k, alias !! k = Some r.
Proof.
  induction 1 as [sn c Hstop | sn c nxt r Hl Hn Hch IH]; [now left |].
  destruct IH as [-> | IH]; right; eauto.
Qed.

Lemma canonical_net_trimmed (m : t) (nid : string) :
  Spec.trimmed_table (net_alias m) ->
  strip (canonical_net m nid) = canonical_net m nid.
Proof.
  intros Htrim.
  destruct (net_alias m !! strip nid) as [nxt |] eqn:Hd.
  - destruct (Htrim _ _ Hd) as (_ & Hnz & _).
    assert (Hrun : exists fin,
               canon_loop (size (net_alias m)) (net_alias m)
                          (Spec.canon_init nid) = Some fin)
      by (apply canon_loop_init; lia).
    destruct Hrun as [fin Hfin].
    apply canon_loop_chase in Hfin as [Hch _]. simpl in Hch.
    rewrite (canonical_net_aliased m nid (cur fin)) by eauto.
    apply chase_result in Hch as [-> | [k Hk]].
    + apply strip_idem.
    + now destruct (Htrim _ _ Hk) as (_ & _ & Hv).
  - rewrite canonical_net_unaliased by exact Hd.
    unfold canon_finish, Spec.canon_init. simpl.
    destruct (auto_merge_by_freq m); simpl; [| apply strip_idem].
    destruct (_freq_suffix_from_net (strip nid)) as [suffix |] eqn:Hs;
      [| apply strip_idem].
    unfold _freq_suffix_from_net in Hs.
    destruct (String.length (strip (strip nid)) <? 4)%nat; [discriminate |].
    destruct (negb (isdigit (last4 (strip (strip nid))))); [discriminate |].
    destruct (PyStr.py_int (last4 (strip (strip nid)))) as [v |] eqn:Hv;
      [| discriminate].
    destruct (v <=? 0); [discriminate |]. injection Hs as <-.
    apply auto_canon_trimmed. eapply py_int_last4_bound, Hv.
Qed.

(** [merge_net] keeps the alias table trimmed; the empty table of
    [reset_net_aliases] is trimmed. *)
Lemma merge_net_trimmed (m : t) (src dst : string) :
  Spec.trimmed_table (net_alias m) ->
  Spec.trimmed_table (net_alias (merge_net m src dst)).
Proof.
  intros Htrim. unfold merge_net.
  destruct (String.eqb (strip src) EmptyString
            || String.eqb (strip dst) EmptyString
            || String.eqb (strip src) (strip dst)) eqn:Hskip; [exact Htrim |].
  simpl. intros k v Hkv.
  apply lookup_insert_Some in Hkv as [[<- <-] | [_ Hkv]]; [| eauto].
  apply orb_false_elim in Hskip as [Hskip _].
  apply orb_false_elim in Hskip as [Hsrc _].
  apply String.eqb_neq in Hsrc.
  split; [apply strip_idem | split; [exact Hsrc |]].
  now apply canonical_net_trimmed.
Qed.

Lemma reset_net_aliases_trimmed (m : t) :
  Spec.trimmed_table (net_alias (reset_net_aliases m)).
Proof. intros k v H. simpl in H. now rewrite lookup_empty in H. Qed.

End MergeNet.

(** ** Recipient resolution *)

Section Recipients.
Import PyStr Session SessionManager.

Local Open Scope nat_scope.

Lemma match_idxs_from_elem (canon_nets : list string) (net : string) :
  forall k i,
    i ∈ match_idxs_from k canon_nets net
    <-> k <= i /\ canon_nets !! (i - k) = Some net.
Proof.
  induction canon_nets as [| nid rest IH]; intros k i; simpl.
  - split; [intros H; inversion H | intros [_ H]; discriminate].
  - destruct (String.eqb_spec nid net) as [-> | Hne].
    + rewrite elem_of_cons, IH. split.
      * intros [-> | [Hle Hl]].
        -- rewrite Nat.sub_diag. auto.
        -- split; [lia |]. replace (i - k) with (S (i - S k)) by lia.
           exact Hl.
      * intros [Hle Hl]. destruct (decide (i = k)) as [-> | Hik]; [now left |].
        right. split; [lia |].
        replace (i - k) with (S (i - S k)) in Hl by lia. exact Hl.
    + rewrite IH. split.
      * intros [Hle Hl]. split; [lia |].
        replace (i - k) with (S (i - S k)) by lia. exact Hl.
      * intros [Hle Hl]. destruct (decide (i = k)) as [-> | Hik].
        -- rewrite Nat.sub_diag in Hl. simpl in Hl. congruence.
        -- split; [lia |].
           replace (i - k) with (S (i - S k)) in Hl by lia. exact Hl.
Qed.

(** The first match with a given property is the lowest one. *)
Lemma match_idxs_from_find (P : nat -> bool) (canon_nets : list string)
      (net : string) :
  forall k,
    match List.find P (match_idxs_from k canon_nets net) with
    | Some i =>
        i ∈ match_idxs_from k canon_nets net /\ P i = true
        /\ forall j, j ∈ match_idxs_from k canon_nets net -> j < i ->
                     P j = false
    | None => forall j, j ∈ match_idxs_from k canon_nets net -> P j = false
    end.
Proof.
  induction canon_nets as [| nid rest IH]; intros k; simpl.
  - intros j H. inversion H.
  - destruct (String.eqb nid net).
    + simpl. destruct (P k) eqn:Hk.
      * split; [left | split; [exact Hk |]].
        intros j Hj Hlt. apply elem_of_cons in Hj as [-> | Hj]; [lia |].
        apply match_idxs_from_elem in Hj. lia.
      * specialize (IH (S k)).
        destruct (List.find P (match_idxs_from (S k) rest net)) as [i |].
        -- destruct IH as (Hi & HP & Hlow).
           split; [now right | split; [exact HP |]].
           intros j Hj Hlt. apply elem_of_cons in Hj as [-> | Hj]; auto.
        -- intros j Hj. apply elem_of_cons in Hj as [-> | Hj]; auto.
    + apply IH.
Qed.

Lemma pick_deliver_eq (other : Session.t) (match_idxs : list nat) :
  forall deliver_idx,
    pick_deliver other match_idxs deliver_idx
    = if existsb (fun i => Z.eqb (active_channel other) (Z.of_nat i)) match_idxs
      then Some (Z.to_nat (active_channel other))
      else match deliver_idx with
           | Some a => Some a
           | None => List.find (chan_scan_flag other) match_idxs
           end.
Proof.
  induction match_idxs as [| idx rest IH]; intros deliver_idx; simpl.
  - now destruct deliver_idx.
  - destruct (Z.eqb_spec (active_channel other) (Z.of_nat idx)) as [-> | Hne].
    + simpl. now rewrite Nat2Z.id.
    + simpl. destruct (chan_scan_flag other idx) eqn:Hscan; simpl.
      * destruct deliver_idx as [a |]; simpl; rewrite IH; reflexivity.
      * rewrite IH. reflexivity.
Qed.

Lemma compute_networks_length (fresh : string) (s : Session.t)
      (ids : list string) (a sm : string) :
  compute_networks fresh s = Some (ids, a, sm) -> length ids = 4.
Proof.
  unfold compute_networks. intros H.
  apply bind_Some in H as (ids' & Hm & H). injection H as <- _ _.
  apply length_mapM in Hm. now rewrite <- Hm.
Qed.

Lemma on_net_matches (m : SessionManager.t) (fresh net : string)
      (other : Session.t) (ids : list string) (a sm : string) (i : nat) :
  compute_networks fresh other = Some (ids, a, sm) ->
  Loop.on_net m fresh net other i
  <-> i ∈ match_idxs_from 0 (map (canonical_net m) ids) net.
Proof.
  intros Hc. unfold Loop.on_net, Loop.chan_canonical. rewrite Hc.
  rewrite match_idxs_from_elem, Nat.sub_0_r, list_lookup_fmap.
  pose proof (compute_networks_length _ _ _ _ _ Hc) as Hlen.
  split.
  - intros [_ H]. split; [lia | exact H].
  - intros [_ H]. split; [| exact H].
    destruct (ids !! i) eqn:Hi; [| discriminate].
    apply lookup_lt_Some in Hi. lia.
Qed.

Lemma active_in_matches (other : Session.t) (idxs : list nat) :
  existsb (fun i => Z.eqb (active_channel other) (Z.of_nat i)) idxs = true
  <-> exists i, i ∈ idxs /\ active_channel other = Z.of_nat i.
Proof.
  rewrite existsb_exists. split.
  - intros (i & Hin & He). exists i. split.
    + now apply list_elem_of_In.
    + now apply Z.eqb_eq.
  - intros (i & Hin & He). exists i. split.
    + now apply list_elem_of_In.
    + now apply Z.eqb_eq.
Qed.

(** What [deliver_for] returns: the session is fresh, the channel is on
    the network and tuned, and it is the active channel when that one
    is on the network, else the lowest scanned channel on it. *)
Lemma deliver_for_Some (m : SessionManager.t) (fresh : string)
      (now : PyFloat.float) (net : string) (other : Session.t) (idx : nat) :
  deliver_for m fresh now net other = Some idx
  <-> timed_out now other = false
      /\ Loop.on_net m fresh net other idx
      /\ Loop.tuned other idx
      /\ (Loop.active_on_net m fresh net other ->
          active_channel other = Z.of_nat idx)
      /\ (~ Loop.active_on_net m fresh net other ->
          chan_scan_flag other idx = true
          /\ forall j, j < idx -> Loop.on_net m fresh net other j ->
                       chan_scan_flag other j = false).
Proof.
  unfold deliver_for.
  destruct (timed_out now other); [split; [discriminate | intros [? _]; discriminate] |].
  destruct (compute_networks fresh other) as [[[ids a] sm] |] eqn:Hc.
  2:{ split; [discriminate |].
      intros (_ & [_ H] & _). unfold Loop.chan_canonical in H.
      rewrite Hc in H. discriminate. }
  pose proof (compute_networks_length _ _ _ _ _ Hc) as Hlen.
  assert (Hon : forall i, Loop.on_net m fresh net other i
                          <-> i ∈ match_idxs_from 0 (map (canonical_net m) ids) net)
    by (intros i; eapply on_net_matches; exact Hc).
  assert (Hact : Loop.active_on_net m fresh net other
                 <-> existsb (fun i => Z.eqb (active_channel other) (Z.of_nat i))
                             (match_idxs_from 0 (map (canonical_net m) ids) net)
                     = true).
  { rewrite active_in_matches. unfold Loop.active_on_net.
    split; intros (i & H1 & H2); exists i; split; auto; now apply Hon. }
  pose proof (match_idxs_from_find (chan_scan_flag other)
                (map (canonical_net m) ids) net 0) as Hfind.
  assert (Hbody :
            pick_deliver other (match_idxs_from 0 (map (canonical_net m) ids) net) None
            = Some idx
            <-> Loop.on_net m fresh net other idx
                /\ Loop.tuned other idx
                /\ (Loop.active_on_net m fresh net other ->
                    active_channel other = Z.of_nat idx)
                /\ (~ Loop.active_on_net m fresh net other ->
                    chan_scan_flag other idx = true
                    /\ forall j, j < idx -> Loop.on_net m fresh net other j ->
                                 chan_scan_flag other j = false)).
  { rewrite pick_deliver_eq.
    destruct (existsb _ _) eqn:Hex.
    - pose proof (proj2 Hact eq_refl) as (i & Hi & Hai).
      split.
      + intros [= <-]. rewrite Hai, Nat2Z.id.
        split; [exact Hi |]. split; [now left |].
        split; [reflexivity |].
        intros Hn. exfalso. apply Hn. now apply Hact.
      + intros (_ & _ & Ha & _). f_equal.
        rewrite (Ha (proj2 Hact eq_refl)). now rewrite Nat2Z.id.
    - assert (Hnact : ~ Loop.active_on_net m fresh net other)
        by (rewrite Hact; congruence).
      destruct (List.find _ _) as [i |].
      + destruct Hfind as (Hi & HP & Hlow). split.
        * intros [= <-]. split; [now apply Hon |].
          split; [now right |]. split; [contradiction |].
          intros _. split; [exact HP |].
          intros j Hlt Hj. apply Hlow; [now apply Hon | exact Hlt].
        * intros (Hidx & _ & _ & Hs). destruct (Hs Hnact) as [Hsc Hl].
          f_equal. destruct (Nat.lt_trichotomy i idx) as [Hlt | [-> | Hgt]].
          -- rewrite (Hl i Hlt) in HP; [discriminate | now apply Hon].
          -- reflexivity.
          -- rewrite (Hlow idx) in Hsc; [discriminate | now apply Hon | exact Hgt].
      + split; [discriminate |].
        intros (Hidx & _ & _ & Hs). destruct (Hs Hnact) as [Hsc _].
        rewrite Hfind in Hsc; [discriminate | now apply Hon]. }
  destruct ids as [| id0 ids']; [discriminate |].
  destruct (match_idxs_from 0 (map (canonical_net m) (id0 :: ids')) net)
    as [| i0 rest] eqn:Hm.
  - split; [discriminate |].
    intros (_ & Hidx & _). apply Hon in Hidx. inversion Hidx.
  - rewrite Hbody. tauto.
Qed.

Lemma recipients_loop_expected (m : SessionManager.t) (fresh : Z -> string)
      (now : PyFloat.float) (sender_key : Z) (net : string) :
  forall items recipients (seen_ids : gset Z),
    NoDup (map fst items) ->
    (forall k, k ∈ map fst items -> k ∉ seen_ids) ->
    recipients_loop m fresh now sender_key net items recipients seen_ids
    = recipients
        ++ Spec.expected_recipients m fresh now sender_key net items.
Proof.
  induction items as [| [key other] rest IH]; intros recipients seen_ids Hnd Hfresh;
    simpl.
  - now rewrite app_nil_r.
  - apply NoDup_cons in Hnd as [Hkey Hnd].
    assert (Hrest : forall k, k ∈ map fst rest -> k ∉ seen_ids)
      by (intros k Hk; apply Hfresh; simpl; now right).
    destruct (key =? sender_key)%Z; [now apply IH |].
    destruct (deliver_for m (fresh key) now net other) as [idx |];
      [| now apply IH].
    destruct (decide (key ∈ seen_ids)) as [Hin | _].
    + exfalso. apply (Hfresh key); [simpl; left | exact Hin].
    + rewrite IH; [now rewrite <- app_assoc | exact Hnd |].
      intros k Hk Hin. apply elem_of_union in Hin as [Hin | Hin].
      * apply elem_of_singleton in Hin as ->. contradiction.
      * now apply (Hrest k).
Qed.

Lemma expected_recipients_elem (m : SessionManager.t) (fresh : Z -> string)
      (now : PyFloat.float) (sender_key : Z) (net : string)
      (items : list (Z * Session.t)) (key : Z) (other : Session.t) (idx : nat) :
  (key, other, idx) ∈ Spec.expected_recipients m fresh now sender_key net items
  <-> (key, other) ∈ items /\ key <> sender_key
      /\ deliver_for m (fresh key) now net other = Some idx.
Proof.
  unfold Spec.expected_recipients. split.
  - intros H. apply list_elem_of_In, in_flat_map in H.
    destruct H as ([k o] & Hin & H). simpl in H.
    destruct (Z.eqb_spec k sender_key) as [-> | Hne]; [inversion H |].
    destruct (deliver_for m (fresh k) now net o) as [i |] eqn:Hd;
      [| inversion H].
    destruct H as [[= <- <- <-] | []].
    split; [now apply list_elem_of_In | auto].
  - intros (Hin & Hne & Hd). apply list_elem_of_In, in_flat_map.
    exists (key, other).
    split; [now apply list_elem_of_In |]. simpl.
    destruct (Z.eqb_spec key sender_key); [contradiction |].
    rewrite Hd. now left.
Qed.


Lemma deliver_for_None (m : SessionManager.t) (fresh : string)
      (now : PyFloat.float) (net : string) (other : Session.t) :
  deliver_for m fresh now net other = None ->
  timed_out now other = true
  \/ forall i, Loop.on_net m fresh net other i -> ~ Loop.tuned other i.
Proof.
  unfold deliver_for.
  destruct (timed_out now other); [now left | right].
  destruct (compute_networks fresh other) as [[[ids a] sm] |] eqn:Hc.
  2:{ intros i [_ Hi]. unfold Loop.chan_canonical in Hi.
      rewrite Hc in Hi. discriminate. }
  assert (Hon : forall i, Loop.on_net m fresh net other i
                          <-> i ∈ match_idxs_from 0 (map (canonical_net m) ids) net)
    by (intros i; eapply on_net_matches; exact Hc).
  pose proof (compute_networks_length _ _ _ _ _ Hc) as Hlen.
  destruct ids as [| id0 ids']; [discriminate |].
  pose proof (match_idxs_from_find (chan_scan_flag other)
                (map (canonical_net m) (id0 :: ids')) net 0) as Hfind.
  destruct (match_idxs_from 0 (map (canonical_net m) (id0 :: ids')) net)
    as [| i0 rest] eqn:Hm.
  - intros i Hi. apply Hon in Hi. inversion Hi.
  - rewrite pick_deliver_eq in H.
    destruct (existsb _ _) eqn:Hex; [discriminate |].
    destruct (List.find _ _); [discriminate |].
    intros i Hi [Hact | Hscan].
    + assert (Htrue : existsb
                        (fun i => Z.eqb (active_channel other) (Z.of_nat i))
                        (i0 :: rest) = true).
      { apply active_in_matches. exists i. split; [now apply Hon | exact Hact]. }
      congruence.
    + rewrite Hfind in Hscan; [discriminate | now apply Hon].
Qed.

(** A session whose network ids cannot be computed, one of its
    frequencies being NaN or infinite once scaled, is on no network and
    is passed over. *)
Lemma deliver_for_no_networks (m : SessionManager.t) (fresh : string)
      (now : PyFloat.float) (net : string) (other : Session.t) :
  compute_networks fresh other = None ->
  deliver_for m fresh now net other = None
  /\ forall i, ~ Loop.on_net m fresh net other i.
Proof.
  intros Hc. unfold deliver_for, Loop.on_net, Loop.chan_canonical.
  rewrite Hc. split; [now destruct (timed_out now other) |].
  intros i [_ H]. discriminate.
Qed.

Lemma clamp_channel_bound (a : Z) : clamp_channel a < 4.
Proof. unfold clamp_channel. lia. Qed.

Lemma compute_networks_active (fresh : string) (s : Session.t)
      (ids : list string) (a sm : string) :
  compute_networks fresh s = Some (ids, a, sm) ->
  a = nth (clamp_channel (active_channel s)) ids EmptyString.
Proof.
  unfold compute_networks. intros H.
  apply bind_Some in H as (ids' & _ & H). now injection H as <- <- _.
Qed.

(** The result of [audio_recipients_for] when the sender is in the
    table and the canonical id of its active channel is not empty. *)
Lemma audio_recipients_unfold
      (fresh : Z -> string) (now : PyFloat.float) (m : SessionManager.t)
      (ssrc : Z) (sender : Session.t) (recipients : list recipient)
      (active_net : string) (chan_idx : nat) (chan_net : string) :
  NoDup (map fst (by_ssrc m)) ->
  get m ssrc = Some sender ->
  audio_recipients_for fresh now m ssrc
  = (recipients, active_net, chan_idx, chan_net) ->
  chan_net <> EmptyString ->
  chan_idx = clamp_channel (active_channel sender)
  /\ Loop.chan_canonical m (fresh ssrc) sender chan_idx = Some chan_net
  /\ active_net = chan_net
  /\ recipients
     = Spec.expected_recipients m fresh now ssrc chan_net (by_ssrc m)
         ++ (if loopback sender then [(ssrc, sender, chan_idx)] else []).
Proof.
  intros Hnd Hget Hcall Hnz. unfold audio_recipients_for in Hcall.
  rewrite Hget in Hcall.
  destruct (compute_networks (fresh ssrc) sender) as [[[ids a] sm] |] eqn:Hc.
  2:{ simpl in Hcall. injection Hcall as _ _ _ <-. contradiction. }
  pose proof (compute_networks_length _ _ _ _ _ Hc) as Hlen.
  pose proof (compute_networks_active _ _ _ _ _ Hc) as Ha.
  pose proof (clamp_channel_bound (active_channel sender)) as Hcl.
  replace (clamp_channel (active_channel sender) <? length ids) with true
    in Hcall by (symmetry; apply Nat.ltb_lt; lia).
  destruct (String.eqb_spec
              (canonical_net m (nth (clamp_channel (active_channel sender))
                                    ids EmptyString)) EmptyString)
    as [He | Hne].
  { injection Hcall as _ _ _ <-. contradiction. }
  injection Hcall as <- <- <- <-.
  rewrite recipients_loop_expected;
    [| exact Hnd | intros k _; apply not_elem_of_empty].
  simpl app at 1.
  split; [reflexivity | split; [| split; [now rewrite Ha |]]].
  - unfold Loop.chan_canonical. rewrite Hc.
    destruct (lookup_lt_is_Some_2 ids (clamp_channel (active_channel sender)))
      as [x Hx]; [lia |].
    rewrite Hx. simpl.
    now rewrite (nth_lookup_Some _ _ EmptyString _ Hx).
  - destruct (loopback sender); [reflexivity | now rewrite app_nil_r].
Qed.

(** The entries of another session among the recipients are those
    [deliver_for] grants it. *)
Lemma audio_recipients_member
      (fresh : Z -> string) (now : PyFloat.float) (m : SessionManager.t)
      (ssrc : Z) (sender : Session.t) (recipients : list recipient)
      (active_net : string) (chan_idx : nat) (chan_net : string)
      (key : Z) (other : Session.t) (idx : nat) :
  NoDup (map fst (by_ssrc m)) ->
  get m ssrc = Some sender ->
  audio_recipients_for fresh now m ssrc
  = (recipients, active_net, chan_idx, chan_net) ->
  chan_net <> EmptyString ->
  key <> ssrc ->
  (key, other, idx) ∈ recipients
  <-> (key, other) ∈ by_ssrc m
      /\ deliver_for m (fresh key) now chan_net other = Some idx.
Proof.
  intros Hnd Hget Hcall Hnz Hk.
  destruct (audio_recipients_unfold _ _ _ _ _ _ _ _ _ Hnd Hget Hcall Hnz)
    as (_ & _ & _ & ->).
  rewrite elem_of_app, expected_recipients_elem. split.
  - intros [H | H]; [tauto |].
    destruct (loopback sender); [| inversion H].
    apply list_elem_of_singleton in H. congruence.
  - tauto.
Qed.


End Recipients.

(** ** Routing on a shared frequency *)

Section SharedFrequency.
Import PyStr Session SessionManager.

Local Open Scope nat_scope.

Lemma length_append (s1 s2 : string) :
  String.length (s1 +:+ s2) = String.length s1 + String.length s2.
Proof. induction s1 as [| c t IH]; simpl; [reflexivity | now rewrite IH]. Qed.

Lemma lstrip_app (p d : string) :
  lstrip d = d -> d <> EmptyString -> lstrip (p +:+ d) = lstrip p +:+ d.
Proof.
  intros Hd Hne. induction p as [| c t IH]; [exact Hd |].
  change (String c t +:+ d) with (String c (t +:+ d)).
  simpl lstrip. now destruct (isspace c).
Qed.

Lemma rstrip_app (q d : string) :
  rstrip d = d -> d <> EmptyString -> rstrip (q +:+ d) = q +:+ d.
Proof.
  intros Hd Hne. induction q as [| c t IH]; [exact Hd |].
  change (String c t +:+ d) with (String c (t +:+ d)).
  change (rstrip (String c (t +:+ d)))
    with (match rstrip (t +:+ d) with
          | EmptyString => if isspace c then EmptyString else String c EmptyString
          | t' => String c t'
          end).
  rewrite IH. destruct (t +:+ d) eqn:Htd; [| reflexivity].
  destruct t; [simpl in Htd; contradiction | discriminate].
Qed.

Lemma last4_app (q d : string) :
  String.length d = 4 -> last4 (q +:+ d) = d.
Proof.
  intros Hd. unfold last4. rewrite length_append, Hd.
  replace (String.length q + 4 - 4) with (String.length q) by lia.
  induction q as [| c t IH]; simpl; [| exact IH].
  destruct d as [| c0 [| c1 [| c2 [| c3 [| c4 d]]]]]; try discriminate.
  reflexivity.
Qed.

(** The suffix read back from a network id built of any prefix and the
    four digits of 100.0 MHz. *)
Lemma freq_suffix_from_net_1000 (prefix : string) :
  _freq_suffix_from_net (prefix +:+ "1000") = Some "1000"%string.
Proof.
  unfold _freq_suffix_from_net.
  assert (Hs : strip (prefix +:+ "1000") = lstrip prefix +:+ "1000").
  { unfold strip. rewrite lstrip_app by (reflexivity || discriminate).
    apply rstrip_app; [reflexivity | discriminate]. }
  rewrite Hs, length_append, last4_app by reflexivity.
  replace (String.length (lstrip prefix) + String.length "1000" <? 4)
    with false by (symmetry; apply Nat.ltb_ge; simpl; lia).
  reflexivity.
Qed.

Lemma canonical_net_1000 (m : SessionManager.t) (prefix : string) :
  net_alias m = ∅ -> auto_merge_by_freq m = true ->
  canonical_net m (prefix +:+ "1000") = "FREQ-100"%string.
Proof.
  intros Halias Hauto.
  rewrite canonical_net_unaliased by (rewrite Halias; apply lookup_empty).
  unfold canon_finish, Spec.canon_init. simpl. rewrite Hauto. simpl.
  assert (Hs : _freq_suffix_from_net (strip (prefix +:+ "1000"))
               = _freq_suffix_from_net (prefix +:+ "1000")).
  { unfold _freq_suffix_from_net. now rewrite strip_idem. }
  rewrite Hs, freq_suffix_from_net_1000. reflexivity.
Qed.

Lemma compute_networks_ids (fresh : string) (s : Session.t)
      (ids : list string) (a sm : string) (i : nat) (f : PyFloat.float) :
  compute_networks fresh s = Some (ids, a, sm) ->
  i < 4 -> freqs s !! i = Some f ->
  exists suffix,
    _freq_suffix (FreqValue f) = Some suffix
    /\ ids !! i
       = Some (nth i (fix_prefixes fresh (net_prefixes s)) EmptyString
               +:+ suffix).
Proof.
  unfold compute_networks. intros H Hi Hf.
  apply bind_Some in H as (ids' & Hm & H). injection H as <- _ _.
  apply mapM_Some in Hm.
  assert (Hl : [0; 1; 2; 3] !! i = Some i).
  { destruct i as [| [| [| [| i]]]]; try reflexivity. lia. }
  destruct (Forall2_lookup_l _ _ _ _ _ Hm Hl) as (y & Hy & Hfy).
  cbv beta in Hfy.
  assert (Hn : nth i (freqs s) (S754_zero false) = f)
    by (eapply nth_lookup_Some; exact Hf).
  rewrite Hn in Hfy.
  apply bind_Some in Hfy as (suffix & Hsuf & Hfy). injection Hfy as <-.
  eauto.
Qed.

(** With auto-merge enabled and no alias, a channel at 100.0 MHz is on
    the network FREQ-100 whatever its prefix. *)
Lemma on_net_100 (m : SessionManager.t) (fresh : string) (s : Session.t)
      (i : nat) :
  net_alias m = ∅ -> auto_merge_by_freq m = true ->
  is_Some (compute_networks fresh s) ->
  i < 4 -> freqs s !! i = Some (PyFloat.of_Z 100) ->
  Loop.on_net m fresh "FREQ-100" s i.
Proof.
  intros Halias Hauto [[[ids a] sm] Hc] Hi Hf. split; [exact Hi |].
  unfold Loop.chan_canonical. rewrite Hc.
  destruct (compute_networks_ids _ _ _ _ _ _ _ Hc Hi Hf)
    as (suffix & Hsuf & Hid).
  vm_compute in Hsuf. injection Hsuf as <-.
  rewrite Hid. simpl. f_equal. now apply canonical_net_1000.
Qed.

(** C2, as stated, fails: in the default routing state the network ids
    carry the sessions' own prefixes, so S on channel 0 at 100.0 MHz
    does not reach R with channel 2 at 100.0 MHz, active or scanned. *)
Lemma routing_default_state_counterexample :
  net_alias (Examples.table Examples.receiver false) = ∅
  /\ auto_merge_by_freq (Examples.table Examples.receiver false) = false
  /\ get (Examples.table Examples.receiver false) 111 = Some Examples.sender
  /\ get (Examples.table Examples.receiver false) 222 = Some Examples.receiver
  /\ timed_out Examples.now Examples.sender = false
  /\ timed_out Examples.now Examples.receiver = false
  /\ active_channel Examples.sender = 0%Z
  /\ freqs Examples.sender !! 0 = Some (PyFloat.of_Z 100)
  /\ freqs Examples.receiver !! 2 = Some (PyFloat.of_Z 100)
  /\ active_channel Examples.receiver = 2%Z
  /\ audio_recipients_for Examples.fresh_prefix Examples.now
       (Examples.table Examples.receiver false) 111
     = ([], "AAA1000"%string, 0, "AAA1000"%string)
  /\ audio_recipients_for Examples.fresh_prefix Examples.now
       (Examples.table Examples.receiver_scanning false) 111
     = ([], "AAA1000"%string, 0, "AAA1000"%string).
Proof.
  vm_compute. repeat split; reflexivity.
Qed.

(** The three cases with auto-merge enabled: R active on channel 2,
    R active on channel 1 and scanning channel 2, R doing neither. *)
Lemma routing_auto_merge_examples :
  (audio_recipients_for Examples.fresh_prefix Examples.now
     (Examples.table Examples.receiver true) 111).1.1.1
  = [(222%Z, Examples.receiver, 2)]
  /\ (audio_recipients_for Examples.fresh_prefix Examples.now
        (Examples.table Examples.receiver_scanning true) 111).1.1.1
     = [(222%Z, Examples.receiver_scanning, 2)]
  /\ (audio_recipients_for Examples.fresh_prefix Examples.now
        (Examples.table Examples.receiver_elsewhere true) 111).1.1.1
     = [].
Proof. vm_compute. repeat split; reflexivity. Qed.

End SharedFrequency.

(** ** The tolerant decoder *)

Section TolerantDecoder.
Import Numpy OpusDecoder.

Lemma SFcompare_antisym (x y : spec_float) :
  SFcompare y x = option_map CompOpp (SFcompare x y).
Proof.
  destruct x as [sx | sx | | sx mx e1], y as [sy | sy | | sy my e2];
    try reflexivity;
    try (destruct sx; reflexivity); try (destruct sy; reflexivity);
    try (destruct sx, sy; reflexivity).
  assert (Hm : Pos.compare_cont Eq my mx = CompOpp (Pos.compare_cont Eq mx my))
    by (symmetry; apply (Pos.compare_cont_antisym mx my Eq)).
  unfold SFcompare.
  rewrite (Z.compare_antisym e1 e2). change PosDef.Pos.compare_cont with Pos.compare_cont.
  rewrite Hm.
  destruct sx, sy; simpl; try reflexivity;
    destruct (e1 ?= e2)%Z; simpl; try reflexivity;
    destruct (Pos.compare_cont Eq mx my); reflexivity.
Qed.

Lemma not_ltb_leb (x y : spec_float) :
  x <> S754_nan -> y <> S754_nan -> SFltb x y = false -> SFleb y x = true.
Proof.
  intros Hx Hy. unfold SFltb, SFleb. rewrite (SFcompare_antisym x y).
  destruct (SFcompare x y) as [[] |] eqn:Hc; simpl; try reflexivity;
    try discriminate.
  intros _. exfalso.
  destruct x as [sx | sx | | sx mx e1], y as [sy | sy | | sy my e2];
    try congruence; simpl in Hc; try discriminate;
    destruct sx; try discriminate; destruct sy; discriminate.
Qed.

(** The [float32] branch clips: a sample that is not NaN ends in
    [[-1, 1]]. *)
Lemma clip_in_unit (x : f32) : x <> S754_nan -> in_unit (clip x) = true.
Proof.
  intros Hx. unfold clip.
  destruct (SFltb x (f32_of_Z (-1))) eqn:Hlo.
  - destruct x; try reflexivity. contradiction.
  - destruct (SFltb (f32_of_Z 1) x) eqn:Hhi.
    + destruct x; try reflexivity. contradiction.
    + assert (Hin : in_unit x = true).
      { unfold in_unit.
        rewrite (not_ltb_leb x (f32_of_Z (-1)) Hx ltac:(discriminate) Hlo).
        rewrite (not_ltb_leb (f32_of_Z 1) x ltac:(discriminate) Hx Hhi).
        reflexivity. }
      destruct x; exact Hin.
Qed.

Lemma decode_f4_clipped (channels : Z) (data : list byte) (x : f32) :
  x ∈ decode_f4 channels data -> x = S754_nan \/ in_unit x = true.
Proof.
  unfold decode_f4. intros Hx. apply list_elem_of_fmap in Hx as (y & -> & _).
  destruct y as [s | s | | s mant e]; [right | right | now left | right];
    apply clip_in_unit; discriminate.
Qed.

(** C7 fails on the code: the two bytes 00 80 are one [int16] sample,
    -32768, which the [int16] branch divides by 32767 and returns
    unclipped, below -1. *)
Theorem decode_int16_below_minus_one :
  decode_to_float32 1 [x00; x80] = Some [S754_finite true 8388864 (-23)]
  /\ SFltb (S754_finite true 8388864 (-23)) (f32_of_Z (-1)) = true
  /\ in_unit (S754_finite true 8388864 (-23)) = false.
Proof. vm_compute. repeat split; reflexivity. Qed.

(** The same sample reached through the trimmed retry, and a NaN
    passing the clip of the [float32] branch. *)
Lemma decode_other_paths_outside_unit :
  decode_to_float32 1 [x00; x80; x01] = Some [S754_finite true 8388864 (-23)]
  /\ decode_to_float32 1 [x00; x00; xc0; x7f] = Some [S754_nan]
  /\ in_unit S754_nan = false.
Proof. vm_compute. repeat split; reflexivity. Qed.

(** Interleaved input whose sample count is not a multiple of the
    channel count is returned without downmix. *)
Lemma decode_no_downmix :
  decode_to_float32 2 [x01; x00; x04; x00; x01; x00]
  = Some (i16_to_unit [1; 4; 1]%Z).
Proof. vm_compute. reflexivity. Qed.

End TolerantDecoder.

(** ** Recipients, channel by channel *)

Section Routing.
Import PyFloat PyStr Session SessionManager.

Local Open Scope nat_scope.

Lemma leb_not_ltb (x y : spec_float) : SFleb y x = true -> SFltb x y = false.
Proof.
  unfold SFltb, SFleb. rewrite (SFcompare_antisym x y).
  destruct (SFcompare x y) as [[] |]; simpl; intros H;
    reflexivity || discriminate.
Qed.




(** Within the window means not timed out, and conversely when the age
    is a number. *)
Lemma timed_out_seen_within (now : float) (s : Session.t) :
  Spec.seen_within now s -> timed_out now s = false.
Proof. unfold Spec.seen_within, timed_out, fltb, fleb. apply leb_not_ltb. Qed.


Lemma freq_suffix_finite (f : float) :
  is_Some (_freq_suffix (FreqValue f))
  <-> Spec.finite (fmul f (of_Z 10)) = true.
Proof.
  unfold _freq_suffix.
  destruct (fmul f (of_Z 10)) as [s | s | | s m e]; simpl; split;
    intros H; try reflexivity; try discriminate; try (eexists; reflexivity);
    destruct H; discriminate.
Qed.

Lemma chan_id_finite (fresh : string) (s : Session.t) (i : nat) :
  is_Some (Spec.chan_id fresh s i)
  <-> Spec.finite (fmul (nth i (freqs s) (S754_zero false)) (of_Z 10)) = true.
Proof.
  rewrite <- freq_suffix_finite. unfold Spec.chan_id.
  destruct (_freq_suffix (FreqValue (nth i (freqs s) (S754_zero false))));
    simpl; split; intros H; eauto; destruct H; discriminate.
Qed.

(** [compute_networks] returns exactly on the sessions whose four
    frequencies have a suffix. *)
Lemma compute_networks_convertible (fresh : string) (s : Session.t) :
  is_Some (compute_networks fresh s) <-> Spec.convertible s.
Proof.
  unfold compute_networks.
  fold (Spec.chan_id fresh s).
  change (fun i : nat =>
            suffix ← _freq_suffix
                       (FreqValue (nth i (freqs s) (S754_zero false)));
            Some (nth i (fix_prefixes fresh (net_prefixes s)) EmptyString
                  +:+ suffix))
    with (Spec.chan_id fresh s).
  split.
  - intros [x Hx]. apply bind_Some in Hx as (ids & Hm & _).
    assert (Hs : is_Some (mapM (Spec.chan_id fresh s) [0; 1; 2; 3]))
      by (eexists; exact Hm).
    apply mapM_is_Some in Hs. rewrite Forall_forall in Hs.
    intros i Hi. apply (chan_id_finite fresh). apply (Hs i).
    destruct i as [| [| [| [| i]]]]; [set_solver .. | lia].
  - intros Hc.
    assert (Hs : is_Some (mapM (Spec.chan_id fresh s) [0; 1; 2; 3])).
    { apply mapM_is_Some.
      repeat constructor; apply (chan_id_finite fresh), Hc; lia. }
    destruct Hs as [ids Hm]. rewrite Hm. simpl. eexists. reflexivity.
Qed.

(** The ids [compute_networks] returns are the ids of the channels. *)
Lemma compute_networks_chan (fresh : string) (s : Session.t)
      (ids : list string) (a sm : string) (i : nat) :
  compute_networks fresh s = Some (ids, a, sm) -> i < 4 ->
  ids !! i = Spec.chan_id fresh s i.
Proof.
  unfold compute_networks. intros H Hi.
  apply bind_Some in H as (ids' & Hm & H). injection H as <- _ _.
  apply mapM_Some in Hm.
  assert (Hl : [0; 1; 2; 3] !! i = Some i).
  { destruct i as [| [| [| [| i]]]]; try reflexivity. lia. }
  destruct (Forall2_lookup_l _ _ _ _ _ Hm Hl) as (y & Hy & Hfy).
  cbv beta in Hfy. rewrite Hy. symmetry. exact Hfy.
Qed.

Lemma loop_chan_canonical (m : SessionManager.t) (fresh : string)
      (s : Session.t) (i : nat) :
  Spec.convertible s -> i < 4 ->
  Loop.chan_canonical m fresh s i = Spec.chan_canonical m fresh s i.
Proof.
  intros Hc Hi. apply (compute_networks_convertible fresh) in Hc.
  destruct Hc as [[[ids a] sm] Hc].
  unfold Loop.chan_canonical, Spec.chan_canonical. rewrite Hc.
  now rewrite (compute_networks_chan _ _ _ _ _ _ Hc Hi).
Qed.

Lemma loop_on_net (m : SessionManager.t) (fresh net : string)
      (s : Session.t) (i : nat) :
  Loop.on_net m fresh net s i
  <-> Spec.convertible s /\ Spec.on_net m fresh net s i.
Proof.
  unfold Loop.on_net, Spec.on_net. split.
  - intros [Hi Hl].
    assert (Hc : Spec.convertible s).
    { apply (compute_networks_convertible fresh).
      unfold Loop.chan_canonical in Hl.
      destruct (compute_networks fresh s); [eauto | discriminate]. }
    rewrite loop_chan_canonical in Hl by assumption. auto.
  - intros (Hc & Hi & Hs). split; [exact Hi |].
    now rewrite loop_chan_canonical.
Qed.

Lemma loop_scan_flag (s : Session.t) (i : nat) :
  chan_scan_flag s i = true <-> Spec.scanned s i.
Proof.
  unfold chan_scan_flag, Spec.scanned.
  rewrite nth_lookup.
  destruct (scan_channels s !! i) as [b |]; simpl;
    split; congruence.
Qed.

Lemma loop_tuned (s : Session.t) (i : nat) :
  Loop.tuned s i <-> Spec.tuned s i.
Proof. unfold Loop.tuned, Spec.tuned. now rewrite loop_scan_flag. Qed.



(** The call on a sender whose four frequencies have a suffix: the
    network returned is the canonical id of its active channel. *)
Lemma sender_call (fresh : Z -> string) (now : PyFloat.float)
      (m : SessionManager.t) (ssrc : Z) (sender : Session.t) (i : nat)
      (net : string) :
  get m ssrc = Some sender ->
  Spec.convertible sender ->
  Spec.active_index sender i ->
  Spec.chan_canonical m (fresh ssrc) sender i = Some net ->
  net <> EmptyString ->
  audio_recipients_for fresh now m ssrc
  = ((audio_recipients_for fresh now m ssrc).1.1.1, net, i, net).
Proof.
  intros Hget Hc Hi Hnet Hnz.
  assert (Hcl : clamp_channel (active_channel sender) = i).
  { unfold Spec.active_index, Spec.clamp in Hi. unfold clamp_channel. lia. }
  apply (compute_networks_convertible (fresh ssrc)) in Hc.
  destruct Hc as [[[ids a] sm] Hc].
  pose proof (compute_networks_length _ _ _ _ _ Hc) as Hlen.
  pose proof (compute_networks_active _ _ _ _ _ Hc) as Ha.
  pose proof (clamp_channel_bound (active_channel sender)) as Hb.
  rewrite Hcl in Ha, Hb.
  assert (Hid : canonical_net m (nth i ids EmptyString) = net).
  { unfold Spec.chan_canonical in Hnet.
    rewrite <- (compute_networks_chan _ _ _ _ _ _ Hc Hb) in Hnet.
    destruct (ids !! i) as [x |] eqn:Hx; [| discriminate].
    rewrite (nth_lookup_Some _ _ EmptyString _ Hx).
    simpl in Hnet. congruence. }
  unfold audio_recipients_for. rewrite Hget, Hc, Hcl.
  replace (i <? length ids) with true by (symmetry; apply Nat.ltb_lt; lia).
  rewrite Ha, Hid.
  destruct (String.eqb_spec net EmptyString) as [He | _];
    [contradiction | reflexivity].
Qed.




Lemma fix_prefixes_four (fresh : string) (ps : list string) :
  length ps = 4 -> fix_prefixes fresh ps = ps.
Proof. intros H. unfold fix_prefixes. rewrite H. reflexivity. Qed.

(** The id of a channel at 100.0 MHz under the prefix [p]. *)
Lemma chan_id_100 (fresh : string) (s : Session.t) (i : nat) (p : string) :
  length (net_prefixes s) = 4 -> net_prefixes s !! i = Some p ->
  freqs s !! i = Some (PyFloat.of_Z 100) ->
  Spec.chan_id fresh s i = Some (p +:+ "1000").
Proof.
  intros Hl Hp Hf. unfold Spec.chan_id.
  rewrite (nth_lookup_Some (A := float) _ _ (S754_zero false) _ Hf).
  rewrite fix_prefixes_four by exact Hl.
  rewrite (nth_lookup_Some _ _ EmptyString _ Hp).
  reflexivity.
Qed.

(** Without alias and without auto-merge the canonical id is the id,
    trimmed. *)
Lemma canonical_net_default (m : SessionManager.t) (nid : string) :
  net_alias m = ∅ -> auto_merge_by_freq m = false ->
  canonical_net m nid = strip nid.
Proof.
  intros Ha Hauto.
  rewrite canonical_net_unaliased by (rewrite Ha; apply lookup_empty).
  unfold canon_finish. rewrite Hauto. reflexivity.
Qed.

Lemma strip_1000 (p : string) : strip (p +:+ "1000") <> EmptyString.
Proof.
  assert (Hs : strip (p +:+ "1000") = lstrip p +:+ "1000").
  { unfold strip. rewrite lstrip_app by (reflexivity || discriminate).
    apply rstrip_app; [reflexivity | discriminate]. }
  rewrite Hs. destruct (lstrip p); discriminate.
Qed.

(** C2, amended: in the default routing state (no alias, auto-merge
    disabled), for S and R of the table, R seen within 15 seconds,
    each with four prefixes and with four frequencies that have a
    suffix, S with channel 0 active at 100.0 MHz, R with channel 2 at
    100.0 MHz, and the prefix of channel 0 of S equal to the prefix of
    channel 2 of R: the two channels are on one network, which the
    call returns. If channel 2 is R's active channel, (R, 2) is among
    the recipients. If R's active channel is 1 and channel 2 is
    scanned, R is among the recipients, on channel 2 when its
    channels 0 and 1 are not on that network. If channel 2 is neither
    active nor scanned and no other channel of R is on that network
    while active or scanned, R is not among the recipients. *)
Theorem routing_same_frequency
        (fresh : Z -> string) (now : PyFloat.float) (m : SessionManager.t)
        (ks kr : Z) (S R : Session.t) (p : string) :
  NoDup (map fst (by_ssrc m)) ->
  get m ks = Some S -> (kr, R) ∈ by_ssrc m -> kr <> ks ->
  net_alias m = ∅ -> auto_merge_by_freq m = false ->
  Spec.seen_within now R ->
  Spec.convertible S -> Spec.convertible R ->
  length (net_prefixes S) = 4 -> length (net_prefixes R) = 4 ->
  net_prefixes S !! 0 = Some p -> net_prefixes R !! 2 = Some p ->
  active_channel S = 0%Z -> freqs S !! 0 = Some (PyFloat.of_Z 100) ->
  freqs R !! 2 = Some (PyFloat.of_Z 100) ->
  let recipients := (audio_recipients_for fresh now m ks).1.1.1 in
  let net := canonical_net m (p +:+ "1000") in
  audio_recipients_for fresh now m ks = (recipients, net, 0, net)
  /\ net <> EmptyString
  /\ Spec.on_net m (fresh ks) net S 0
  /\ Spec.on_net m (fresh kr) net R 2
  /\ (active_channel R = 2%Z -> (kr, R, 2) ∈ recipients)
  /\ (active_channel R = 1%Z -> Spec.scanned R 2 ->
      (exists idx, (kr, R, idx) ∈ recipients)
      /\ ((forall j, j < 2 -> ~ Spec.on_net m (fresh kr) net R j) ->
          (kr, R, 2) ∈ recipients))
  /\ (active_channel R <> 2%Z -> ~ Spec.scanned R 2 ->
      (forall j, j <> 2 -> Spec.on_net m (fresh kr) net R j ->
                 ~ Spec.tuned R j) ->
      forall idx, (kr, R, idx) ∉ recipients).
Proof.
  intros Hnd HgS HinR Hk Halias Hauto Hseen HcS HcR HlS HlR HpS HpR HaS HfS
         HfR recipients net.
  assert (Hnz : net <> EmptyString).
  { unfold net. rewrite canonical_net_default by assumption.
    apply strip_1000. }
  assert (HonS : Spec.on_net m (fresh ks) net S 0).
  { split; [lia |]. unfold Spec.chan_canonical.
    now rewrite (chan_id_100 _ _ _ p HlS HpS HfS). }
  assert (HonR : Spec.on_net m (fresh kr) net R 2).
  { split; [lia |]. unfold Spec.chan_canonical.
    now rewrite (chan_id_100 _ _ _ p HlR HpR HfR). }
  assert (Hi : Spec.active_index S 0)
    by (unfold Spec.active_index; rewrite HaS; reflexivity).
  pose proof (sender_call fresh now m ks S 0 net HgS HcS Hi (proj2 HonS) Hnz)
    as Hcall.
  fold recipients in Hcall.
  assert (Hmem : forall idx,
             (kr, R, idx) ∈ recipients
             <-> deliver_for m (fresh kr) now net R = Some idx).
  { intros idx.
    rewrite (audio_recipients_member _ _ _ _ _ _ _ _ _ kr R idx
               Hnd HgS Hcall Hnz Hk).
    tauto. }
  assert (Hfresh : timed_out now R = false)
    by (apply timed_out_seen_within, Hseen).
  assert (Hon2 : Loop.on_net m (fresh kr) net R 2)
    by (apply loop_on_net; auto).
  split; [exact Hcall |]. split; [exact Hnz |].
  split; [exact HonS |]. split; [exact HonR |]. split; [| split].
  - intros HaR. apply Hmem, deliver_for_Some.
    split; [exact Hfresh | split; [exact Hon2 | split; [now left |]]].
    split; [auto |].
    intros Hn. exfalso. apply Hn. exists 2. auto.
  - intros HaR Hscan. apply loop_scan_flag in Hscan. split.
    + destruct (deliver_for m (fresh kr) now net R) as [idx |] eqn:Hd.
      * exists idx. now apply Hmem.
      * apply deliver_for_None in Hd as [Hd | Hd]; [congruence |].
        exfalso. apply (Hd 2 Hon2). now right.
    + intros Hlow. apply Hmem, deliver_for_Some.
      split; [exact Hfresh | split; [exact Hon2 | split; [now right |]]].
      split.
      * intros (j & Hj & Haj). exfalso. rewrite HaR in Haj.
        assert (j = 1) by lia. subst j.
        apply (Hlow 1); [lia |]. now apply loop_on_net in Hj.
      * intros _. split; [exact Hscan |].
        intros j Hj Hjn. exfalso. apply (Hlow j Hj).
        now apply loop_on_net in Hjn.
  - intros HaR Hscan Hoth idx Hidx.
    apply Hmem, deliver_for_Some in Hidx as (_ & Hon & Htu & _).
    apply loop_on_net in Hon as [_ Hon]. apply loop_tuned in Htu.
    destruct (decide (idx = 2)) as [-> | Hne].
    + destruct Htu as [Htu | Htu]; [| contradiction].
      apply HaR. rewrite Htu. reflexivity.
    + now apply (Hoth idx).
Qed.

Lemma routing_same_frequency_witness :
  (222%Z, Examples.receiver_shared, 2)
    ∈ (audio_recipients_for Examples.fresh_prefix Examples.now
         (Examples.table Examples.receiver_shared false) 111).1.1.1.
Proof.
  assert (Hnd : NoDup (map fst (by_ssrc (Examples.table
                                           Examples.receiver_shared false)))).
  { simpl. repeat constructor; [| intros H; inversion H].
    intros H. apply list_elem_of_singleton in H. discriminate. }
  assert (Hin : (222%Z, Examples.receiver_shared)
                  ∈ by_ssrc (Examples.table Examples.receiver_shared false))
    by (simpl; right; left).
  assert (HcS : Spec.convertible Examples.sender).
  { intros [| [| [| [| i]]]] Hi; [reflexivity .. | lia]. }
  assert (HcR : Spec.convertible Examples.receiver_shared).
  { intros [| [| [| [| i]]]] Hi; [reflexivity .. | lia]. }
  exact (proj1 (proj2 (proj2 (proj2 (proj2
           (routing_same_frequency
              Examples.fresh_prefix Examples.now
              (Examples.table Examples.receiver_shared false) 111 222
              Examples.sender Examples.receiver_shared "AAA"
              Hnd eq_refl Hin ltac:(discriminate) eq_refl eq_refl
              eq_refl HcS HcR eq_refl eq_refl eq_refl eq_refl
              eq_refl eq_refl eq_refl))))) eq_refl).
Defined.

End Routing.

(** ** The decoder cache of the client *)

Section DecoderCache.
Import OpusShim.

Local Open Scope nat_scope.

Variable Decoder : Type.
Variable opus_decode : Decoder -> list byte -> Z -> option (Decoder * list byte).

Implicit Types (c : list (Z * Decoder)) (s : t Decoder).

Lemma cache_get_None (k : Z) c :
  cache_get k c = None -> k ∉ map fst c.
Proof.
  unfold cache_get. induction c as [| [k' d] rest IH]; simpl.
  - intros _ H. inversion H.
  - destruct (Z.eqb_spec k' k) as [-> | Hne]; [discriminate |].
    intros H Hin. apply elem_of_cons in Hin as [-> | Hin]; [contradiction |].
    now apply IH.
Qed.

Lemma cache_pop_absent (k : Z) c :
  k ∉ map fst c -> cache_pop k c = c.
Proof.
  unfold cache_pop. induction c as [| [k' d] rest IH]; simpl; [reflexivity |].
  intros Hk. destruct (Z.eqb_spec k' k) as [-> | Hne]; simpl.
  - exfalso. apply Hk. now left.
  - f_equal. apply IH. intros Hin. apply Hk. now right.
Qed.

Lemma get_decoder_bounded (new_dec : option Decoder) s (key : option Z) :
  Spec.bounded_cache (_decoders s) ->
  Spec.bounded_cache (_decoders (fst (_get_decoder new_dec s key))).
Proof.
  intros [Hlen Hnd]. unfold _get_decoder.
  destruct (enabled s); simpl; [| now split].
  destruct key as [k |]; simpl; [| now split].
  destruct (cache_get k (_decoders s)) as [d |] eqn:Hget;
    simpl; [now split |].
  destruct new_dec as [d |]; simpl; [| now split].
  apply cache_get_None in Hget.
  assert (Hnd' : NoDup (map fst (_decoders s ++ [(k, d)]))).
  { rewrite map_app. apply NoDup_app. split; [exact Hnd | split].
    - intros x Hx Hk. simpl in Hk. apply list_elem_of_singleton in Hk as ->.
      contradiction.
    - simpl. apply NoDup_singleton. }
  destruct (Nat.ltb_spec 32 (length (_decoders s ++ [(k, d)])))
    as [Hfull | Hroom]; [| now split].
  rewrite length_app in Hfull. simpl in Hfull.
  destruct (_decoders s) as [| [oldest d0] rest] eqn:Hc;
    [simpl in Hfull; lia |].
  simpl app. cbv iota beta.
  assert (Hne : oldest <> k).
  { intros ->. apply Hget. simpl. now left. }
  destruct (Z.eqb_spec oldest k) as [| _]; [contradiction |]. simpl negb.
  cbv iota. simpl in Hnd'. apply NoDup_cons in Hnd' as [Hold Hnd'].
  unfold cache_pop at 1. simpl. rewrite Z.eqb_refl. simpl.
  fold (cache_pop oldest (rest ++ [(k, d)])).
  rewrite cache_pop_absent by exact Hold.
  split; [| exact Hnd'].
  rewrite length_app. simpl in *. lia.
Qed.

Lemma store_decoder_cache s (key : option Z) (d : Decoder) :
  Spec.bounded_cache (_decoders s) ->
  Spec.bounded_cache (_decoders (store_decoder s key d)).
Proof.
  intros [Hlen Hnd]. destruct key as [k |]; simpl; [| now split].
  assert (Hkeys : map fst (map (fun e : Z * Decoder =>
                                  if (fst e =? k)%Z then (k, d) else e)
                               (_decoders s))
                  = map fst (_decoders s)).
  { rewrite map_map. apply map_ext. intros [k' d']. simpl.
    destruct (Z.eqb_spec k' k) as [-> |]; reflexivity. }
  split; [now rewrite length_map | now rewrite Hkeys].
Qed.

Lemma decode_bounded (new_dec : option Decoder) s (b : list byte)
      (ssrc : option Z) :
  Spec.bounded_cache (_decoders s) ->
  Spec.bounded_cache
    (_decoders
               (fst (decode_to_float32 opus_decode new_dec s b ssrc))).
Proof.
  intros Hb. unfold decode_to_float32.
  destruct (enabled s) eqn:Hen; simpl; [| exact Hb].
  pose proof (get_decoder_bounded new_dec s ssrc Hb) as Hg.
  destruct (_get_decoder new_dec s ssrc) as [s' [d |]]; simpl in *;
    [| exact Hg].
  destruct (opus_decode d b (samples_per_frame s')) as [[d' pcm] |];
    simpl; [| exact Hg].
  now apply store_decoder_cache.
Qed.

(** C9: a call to [_get_decoder] on a cache of at most 32 distinct keys
    leaves at most 32 distinct keys, and so does every sequence of
    decode calls, for any senders, on a new shim. *)
Theorem decoder_cache_bounded :
  (forall (new_dec : option Decoder) s (key : option Z),
      length (_decoders s) <= 32 ->
      NoDup (map fst (_decoders s)) ->
      length (_decoders (fst (_get_decoder new_dec s key))) <= 32
      /\ NoDup (map fst (_decoders
                                    (fst (_get_decoder new_dec s key)))))
  /\ (forall (enabled : bool) (rate channels frame_ms : Z) (dec : option Decoder)
             (calls : list (option Decoder * list byte * option Z)),
         let s := decode_all opus_decode
                             (init enabled rate channels frame_ms dec)
                             calls in
         length (_decoders s) <= 32
         /\ NoDup (map fst (_decoders s))).
Proof.
  split.
  - intros new_dec s key Hlen Hnd.
    now apply (get_decoder_bounded new_dec s key).
  - intros enabled rate channels frame_ms dec calls.
    assert (Hgen : forall s0, Spec.bounded_cache (_decoders s0) ->
                              Spec.bounded_cache
                                (_decoders
                                           (decode_all opus_decode s0 calls))).
    { induction calls as [| [[new_dec b] ssrc] rest IH]; intros s0 Hb; simpl;
        [exact Hb |].
      apply IH, decode_bounded, Hb. }
    apply Hgen. split; simpl; [lia | constructor].
Qed.

End DecoderCache.

Section DecoderCacheWitness.
Import OpusShim.

Lemma decoder_cache_bounded_witness :
  (length (_decoders (fst (_get_decoder (Some 0%nat) Examples.full_shim
                                           (Some 33%Z)))) <= 32)%nat.
Proof.
  refine (proj1 (proj1 (decoder_cache_bounded nat (fun _ _ _ => None))
                       (Some 0%nat) Examples.full_shim (Some 33%Z) _ _)).
  - vm_compute. lia.
  - apply (bool_decide_unpack _). vm_compute. exact I.
Defined.

End DecoderCacheWitness.

(** ** The mix step of the client *)

Section Mixer.
Import Numpy RadioApp.

Local Open Scope nat_scope.

Lemma add_prefix_length (mix arr : list f32) :
  length (add_prefix mix arr) = length mix.
Proof.
  revert arr. induction mix as [| m mix IH]; intros [| x arr]; simpl;
    try reflexivity.
  now rewrite IH.
Qed.






End Mixer.

(** ** The wire format *)

Section Wire.
Import Numpy UdpProtocol.

Lemma byte_val_range (b : byte) : 0 <= byte_val b < 256.
Proof.
  unfold byte_val. pose proof (Byte.to_N_bounded b) as H.
  lia.
Qed.

Lemma byte_val_of (z : Z) : byte_val (byte_of z) = z mod 256.
Proof.
  unfold byte_val, byte_of.
  pose proof (Z.mod_pos_bound z 256 ltac:(lia)) as Hr.
  destruct (Byte.of_N (Z.to_N (z mod 256))) as [b|] eqn:E.
  - apply Byte.to_of_N in E. simpl. rewrite E. lia.
  - apply Byte.of_N_None_iff in E. lia.
Qed.

Lemma byte_of_val (b : byte) : byte_of (byte_val b) = b.
Proof.
  unfold byte_of. pose proof (byte_val_range b) as Hr.
  rewrite Z.mod_small by lia. unfold byte_val.
  rewrite N2Z.id, Byte.of_to_N. reflexivity.
Qed.

Lemma be_value_snoc (l : list byte) (b : byte) :
  be_value (l ++ [b]) = 256 * be_value l + byte_val b.
Proof. unfold be_value. rewrite fold_left_app. reflexivity. Qed.

Lemma be_bytes_length (n : nat) (v : Z) : length (be_bytes n v) = n.
Proof.
  revert v. induction n as [|n IH]; intros v; simpl; [reflexivity|].
  rewrite length_app, IH. simpl. lia.
Qed.

Lemma be_value_bytes (n : nat) (v : Z) :
  be_value (be_bytes n v) = v mod 2 ^ (8 * Z.of_nat n).
Proof.
  revert v. induction n as [|n IH]; intros v.
  - simpl. rewrite Z.mod_1_r. reflexivity.
  - cbn [be_bytes]. rewrite be_value_snoc, IH, byte_val_of.
    replace (8 * Z.of_nat (S n)) with (8 + 8 * Z.of_nat n) by lia.
    rewrite Z.pow_add_r by lia. change (2 ^ 8) with 256.
    rewrite (Z.rem_mul_r v 256 (2 ^ (8 * Z.of_nat n))) by lia. lia.
Qed.

Lemma be_value_range (bs : list byte) :
  0 <= be_value bs < 2 ^ (8 * Z.of_nat (length bs)).
Proof.
  induction bs as [|b bs IH] using rev_ind.
  - simpl. unfold be_value. simpl. lia.
  - rewrite be_value_snoc, length_app. simpl.
    replace (8 * Z.of_nat (length bs + 1)) with (8 + 8 * Z.of_nat (length bs))
      by lia.
    rewrite Z.pow_add_r by lia. change (2 ^ 8) with 256.
    pose proof (byte_val_range b). lia.
Qed.

Lemma be_bytes_value (bs : list byte) :
  be_bytes (length bs) (be_value bs) = bs.
Proof.
  induction bs as [|b bs IH] using rev_ind; [reflexivity|].
  rewrite length_app. simpl length.
  replace (length bs + 1)%nat with (S (length bs)) by lia.
  cbn [be_bytes]. rewrite be_value_snoc.
  pose proof (byte_val_range b) as Hb.
  replace ((256 * be_value bs + byte_val b) / 256) with (be_value bs)
    by (apply Z.div_unique with (byte_val b); lia).
  rewrite IH. f_equal. f_equal.
  unfold byte_of.
  replace ((256 * be_value bs + byte_val b) mod 256) with (byte_val b)
    by (apply Z.mod_unique with (be_value bs); lia).
  unfold byte_val. rewrite N2Z.id, Byte.of_to_N. reflexivity.
Qed.

Lemma pack_uint_Some (n : nat) (v : Z) :
  0 <= v < 2 ^ (8 * Z.of_nat n) -> pack_uint n v = Some (be_bytes n v).
Proof.
  intros H. unfold pack_uint.
  destruct (Z.leb_spec 0 v); [|lia].
  destruct (Z.ltb_spec v (2 ^ (8 * Z.of_nat n))); [|lia]. reflexivity.
Qed.

Lemma pack_uint_None (n : nat) (v : Z) :
  ~ (0 <= v < 2 ^ (8 * Z.of_nat n)) -> pack_uint n v = None.
Proof.
  intros H. unfold pack_uint.
  destruct (Z.leb_spec 0 v); [|reflexivity].
  destruct (Z.ltb_spec v (2 ^ (8 * Z.of_nat n))); [lia|]. reflexivity.
Qed.

Lemma land_mask_range (v : Z) (k : Z) :
  0 <= k -> 0 <= Z.land v (Z.ones k) < 2 ^ k.
Proof.
  intros Hk. rewrite Z.land_ones by lia. apply Z.mod_pos_bound.
  apply Z.pow_pos_nonneg; lia.
Qed.

Lemma pack_hdr_bytes (v m s t x : Z) :
  0 <= v < 256 ->
  pack_hdr v m s t x
  = Some (be_bytes 1 v ++ be_bytes 1 (Z.land m 255)
            ++ be_bytes 2 (Z.land s 65535)
            ++ be_bytes 4 (Z.land t 4294967295)
            ++ be_bytes 4 (Z.land x 4294967295)).
Proof.
  intros Hv. unfold pack_hdr, pack_BBHII.
  pose proof (land_mask_range m 8 ltac:(lia)) as Hm.
  pose proof (land_mask_range s 16 ltac:(lia)) as Hs.
  pose proof (land_mask_range t 32 ltac:(lia)) as Ht.
  pose proof (land_mask_range x 32 ltac:(lia)) as Hx.
  change (Z.ones 8) with 255 in Hm. change (Z.ones 16) with 65535 in Hs.
  change (Z.ones 32) with 4294967295 in Ht, Hx.
  change (2 ^ 8) with 256 in Hm. change (2 ^ 16) with 65536 in Hs.
  change (2 ^ 32) with 4294967296 in Ht, Hx.
  rewrite (pack_uint_Some 1 v) by (change (2 ^ (8 * Z.of_nat 1)) with 256; lia).
  rewrite (pack_uint_Some 1 (Z.land m 255))
    by (change (2 ^ (8 * Z.of_nat 1)) with 256; lia).
  rewrite (pack_uint_Some 2 (Z.land s 65535))
    by (change (2 ^ (8 * Z.of_nat 2)) with 65536; lia).
  rewrite (pack_uint_Some 4 (Z.land t 4294967295))
    by (change (2 ^ (8 * Z.of_nat 4)) with 4294967296; lia).
  rewrite (pack_uint_Some 4 (Z.land x 4294967295))
    by (change (2 ^ (8 * Z.of_nat 4)) with 4294967296; lia).
  reflexivity.
Qed.

Lemma take_be_bytes_app (n : nat) (v : Z) (rest : list byte) :
  take n (be_bytes n v ++ rest) = be_bytes n v.
Proof.
  rewrite take_app_length' by (symmetry; apply be_bytes_length). reflexivity.
Qed.

Lemma drop_be_bytes_app (n : nat) (v : Z) (rest : list byte) :
  drop n (be_bytes n v ++ rest) = rest.
Proof.
  rewrite drop_app_length' by (symmetry; apply be_bytes_length). reflexivity.
Qed.

Lemma unpack_hdr_fields (a b c d e : Z) (rest : list byte) :
  unpack_hdr (be_bytes 1 a ++ be_bytes 1 b ++ be_bytes 2 c
                ++ be_bytes 4 d ++ be_bytes 4 e ++ rest)
  = Some (a mod 256, b mod 256, c mod 65536, d mod 4294967296,
          e mod 4294967296).
Proof.
  unfold unpack_hdr, unpack_BBHII, HDR_SZ.
  set (h := be_bytes 1 a ++ be_bytes 1 b ++ be_bytes 2 c
              ++ be_bytes 4 d ++ be_bytes 4 e).
  assert (Hlen : length h = 12%nat).
  { unfold h. rewrite !length_app, !be_bytes_length. reflexivity. }
  replace (be_bytes 1 a ++ be_bytes 1 b ++ be_bytes 2 c
             ++ be_bytes 4 d ++ be_bytes 4 e ++ rest) with (h ++ rest)
    by (unfold h; rewrite <- !app_assoc; reflexivity).
  rewrite take_app_length' by (symmetry; exact Hlen).
  rewrite Hlen. simpl Nat.eqb. cbv iota.
  assert (D1 : drop 1 h = be_bytes 1 b ++ be_bytes 2 c
                            ++ be_bytes 4 d ++ be_bytes 4 e).
  { unfold h. apply drop_be_bytes_app. }
  assert (D2 : drop 2 h = be_bytes 2 c ++ be_bytes 4 d ++ be_bytes 4 e).
  { change 2%nat with (1 + 1)%nat. rewrite <- drop_drop, D1.
    apply drop_be_bytes_app. }
  assert (D4 : drop 4 h = be_bytes 4 d ++ be_bytes 4 e).
  { change 4%nat with (2 + 2)%nat. rewrite <- drop_drop, D2.
    apply drop_be_bytes_app. }
  assert (D8 : drop 8 h = be_bytes 4 e).
  { change 8%nat with (4 + 4)%nat. rewrite <- drop_drop, D4.
    rewrite <- (app_nil_r (be_bytes 4 e)) at 1. apply drop_be_bytes_app. }
  rewrite D1, D2, D4, D8. unfold h.
  rewrite !take_be_bytes_app.
  rewrite <- (app_nil_r (be_bytes 4 e)), take_be_bytes_app.
  rewrite !be_value_bytes. reflexivity.
Qed.

Lemma pack_hdr_fields (v m s t x : Z) (rest : list byte) :
  0 <= v < 256 ->
  exists b,
    pack_hdr v m s t x = Some b
    /\ length b = HDR_SZ
    /\ unpack_hdr (b ++ rest)
       = Some (v, m mod 256, s mod 65536, t mod 4294967296,
               x mod 4294967296).
Proof.
  intros Hv. eexists. split; [apply pack_hdr_bytes; exact Hv|]. split.
  - rewrite !length_app, !be_bytes_length. reflexivity.
  - rewrite <- !app_assoc, unpack_hdr_fields.
    change 255 with (Z.ones 8). change 65535 with (Z.ones 16).
    change 4294967295 with (Z.ones 32).
    rewrite !Z.land_ones by lia.
    change (2 ^ 8) with 256. change (2 ^ 16) with 65536.
    change (2 ^ 32) with 4294967296.
    rewrite !Z.mod_mod by lia. rewrite (Z.mod_small v 256) by lia.
    reflexivity.
Qed.

(** X1: a header packed with a version byte in range is twelve bytes
    long, and unpacking a datagram that starts with it gives back the
    version and the other four fields reduced to their widths (8, 16,
    32 and 32 bits), whatever follows the header. *)
Theorem pack_hdr_unpack (v m s t x : Z) (rest : list byte) :
  0 <= v < 256 ->
  exists b,
    pack_hdr v m s t x = Some b
    /\ length b = HDR_SZ
    /\ unpack_hdr (b ++ rest)
       = Some (v, m mod 256, s mod 65536, t mod 4294967296,
               x mod 4294967296).
Proof. exact (pack_hdr_fields v m s t x rest). Qed.

Lemma pack_hdr_unpack_witness :
  exists b,
    pack_hdr 1 0 65536 (-1) 7 = Some b
    /\ length b = HDR_SZ
    /\ unpack_hdr (b ++ [])
       = Some (1, 0 mod 256, 65536 mod 65536, (-1) mod 4294967296,
               7 mod 4294967296).
Proof. apply (pack_hdr_unpack 1 0 65536 (-1) 7 []). lia. Defined.

Lemma unpack_hdr_take (b : list byte) :
  (HDR_SZ <= length b)%nat ->
  unpack_hdr b
  = Some (be_value (take 1 b), be_value (take 1 (drop 1 b)),
          be_value (take 2 (drop 2 b)), be_value (take 4 (drop 4 b)),
          be_value (take 4 (drop 8 b))).
Proof.
  unfold HDR_SZ. intros Hlen. unfold unpack_hdr, unpack_BBHII, HDR_SZ.
  rewrite length_take, Nat.min_l by lia. simpl Nat.eqb. cbv iota.
  rewrite !take_take, !skipn_firstn_comm, !take_take. reflexivity.
Qed.

(** X2: [unpack_hdr] raises exactly on buffers shorter than twelve
    bytes; on any other buffer the five fields lie within their widths
    and packing them again gives back the first twelve bytes. *)
Theorem unpack_hdr_pack (b : list byte) :
  (unpack_hdr b = None <-> (length b < HDR_SZ)%nat)
  /\ forall v m s t x,
      unpack_hdr b = Some (v, m, s, t, x) ->
      (0 <= v < 256 /\ 0 <= m < 256 /\ 0 <= s < 65536
       /\ 0 <= t < 4294967296 /\ 0 <= x < 4294967296)
      /\ pack_hdr v m s t x = Some (take HDR_SZ b).
Proof.
  split.
  - unfold unpack_hdr, unpack_BBHII, HDR_SZ. rewrite length_take.
    destruct (Nat.eqb_spec (12 `min` length b)%nat 12%nat) as [E | E].
    + split; [discriminate | lia].
    + split; [lia | reflexivity].
  - intros v m s t x H.
    assert (Hlen : (HDR_SZ <= length b)%nat).
    { unfold unpack_hdr, unpack_BBHII, HDR_SZ in *.
      rewrite length_take in H.
      destruct (Nat.eqb_spec (12 `min` length b)%nat 12%nat); [lia | discriminate]. }
    rewrite (unpack_hdr_take b Hlen) in H. unfold HDR_SZ in Hlen.
    injection H as <- <- <- <- <-.
    pose proof (be_value_range (take 1 b)) as R1.
    pose proof (be_value_range (take 1 (drop 1 b))) as R2.
    pose proof (be_value_range (take 2 (drop 2 b))) as R3.
    pose proof (be_value_range (take 4 (drop 4 b))) as R4.
    pose proof (be_value_range (take 4 (drop 8 b))) as R5.
    assert (L1 : length (take 1 b) = 1%nat) by (rewrite length_take; lia).
    assert (L2 : length (take 1 (drop 1 b)) = 1%nat)
      by (rewrite length_take, length_drop; lia).
    assert (L3 : length (take 2 (drop 2 b)) = 2%nat)
      by (rewrite length_take, length_drop; lia).
    assert (L4 : length (take 4 (drop 4 b)) = 4%nat)
      by (rewrite length_take, length_drop; lia).
    assert (L5 : length (take 4 (drop 8 b)) = 4%nat)
      by (rewrite length_take, length_drop; lia).
    rewrite L1 in R1. rewrite L2 in R2. rewrite L3 in R3. rewrite L4 in R4.
    rewrite L5 in R5.
    change (2 ^ (8 * Z.of_nat 1)) with 256 in R1, R2.
    change (2 ^ (8 * Z.of_nat 2)) with 65536 in R3.
    change (2 ^ (8 * Z.of_nat 4)) with 4294967296 in R4, R5.
    split; [lia|].
    rewrite pack_hdr_bytes by lia.
    change 255 with (Z.ones 8). change 65535 with (Z.ones 16).
    change 4294967295 with (Z.ones 32).
    rewrite !Z.land_ones by lia.
    change (2 ^ 8) with 256. change (2 ^ 16) with 65536.
    change (2 ^ 32) with 4294967296.
    rewrite !Z.mod_small by lia.
    pose proof (be_bytes_value (take 1 b)) as E1. rewrite L1 in E1.
    pose proof (be_bytes_value (take 1 (drop 1 b))) as E2. rewrite L2 in E2.
    pose proof (be_bytes_value (take 2 (drop 2 b))) as E3. rewrite L3 in E3.
    pose proof (be_bytes_value (take 4 (drop 4 b))) as E4. rewrite L4 in E4.
    pose proof (be_bytes_value (take 4 (drop 8 b))) as E5. rewrite L5 in E5.
    rewrite E1, E2, E3, E4, E5.
    f_equal. unfold HDR_SZ. clear - Hlen.
    do 12 (destruct b as [|? b]; [simpl in Hlen; lia|]).
    reflexivity.
Qed.

Lemma seq_next_mod (seq : Z) :
  SeqGen.next seq = ((seq + 1) mod 65536, (seq + 1) mod 65536).
Proof.
  unfold SeqGen.next. change 65535 with (Z.ones 16).
  rewrite Z.land_ones by lia. reflexivity.
Qed.

Lemma seq_after_mod (n : nat) :
  forall seq, SeqGen.after (S n) seq = (seq + Z.of_nat (S n)) mod 65536.
Proof.
  induction n as [|n IH]; intros seq.
  - cbn [SeqGen.after]. rewrite seq_next_mod. reflexivity.
  - change (SeqGen.after (S (S n)) seq)
      with (SeqGen.after (S n) (fst (SeqGen.next seq))).
    rewrite IH, seq_next_mod. cbn [fst].
    rewrite Zplus_mod_idemp_l. f_equal. lia.
Qed.

(** X3: after [n] calls, the next number a sequence generator started
    at [initial] hands out is [(initial + n + 1) mod 65536]: the
    numbers stay within 16 bits, 65535 is followed by 0, and they
    repeat with period 65536. *)
Theorem seqgen_nth (initial : Z) (n : nat) :
  snd (SeqGen.next (SeqGen.after n (SeqGen.init initial)))
  = (initial + Z.of_nat n + 1) mod 65536
  /\ 0 <= snd (SeqGen.next (SeqGen.after n (SeqGen.init initial))) < 65536
  /\ SeqGen.after (n + Z.to_nat 65536) (SeqGen.init initial)
     = SeqGen.after n (SeqGen.init initial).
Proof.
  assert (Hi : SeqGen.init initial = initial mod 65536).
  { unfold SeqGen.init. change 65535 with (Z.ones 16).
    rewrite Z.land_ones by lia. reflexivity. }
  assert (Ha : forall k, SeqGen.after k (SeqGen.init initial)
                         = (initial + Z.of_nat k) mod 65536).
  { intros [|k].
    - simpl. rewrite Hi. f_equal. lia.
    - rewrite seq_after_mod, Hi, Zplus_mod_idemp_l. reflexivity. }
  rewrite seq_next_mod. cbn [snd]. rewrite !Ha. split; [|split].
  - rewrite Zplus_mod_idemp_l. reflexivity.
  - apply Z.mod_pos_bound. lia.
  - replace (initial + Z.of_nat (n + Z.to_nat 65536))
      with (initial + Z.of_nat n + 1 * 65536)
      by (rewrite Nat2Z.inj_add, Z2Nat.id; lia).
    rewrite Z.mod_add by lia. reflexivity.
Qed.

Lemma pack_BH_bytes (a b : Z) :
  0 <= a < 256 -> 0 <= b < 65536 ->
  pack_BH a b = Some (be_bytes 1 a ++ be_bytes 2 b).
Proof.
  intros Ha Hb. unfold pack_BH.
  rewrite (pack_uint_Some 1 a) by (change (2 ^ (8 * Z.of_nat 1)) with 256; lia).
  rewrite (pack_uint_Some 2 b)
    by (change (2 ^ (8 * Z.of_nat 2)) with 65536; lia).
  reflexivity.
Qed.

Lemma unpack_BH_fields (a b : Z) :
  unpack_BH (be_bytes 1 a ++ be_bytes 2 b) = Some (a mod 256, b mod 65536).
Proof.
  unfold unpack_BH. rewrite length_app, !be_bytes_length.
  simpl Nat.eqb. cbv iota.
  rewrite take_be_bytes_app, drop_be_bytes_app.
  rewrite <- (app_nil_r (be_bytes 2 b)), take_be_bytes_app.
  rewrite !be_value_bytes. reflexivity.
Qed.

(** The channel bits sit above the four flag bits kept from the
    sender and are read back unchanged. *)
Lemma chan_bits_spec (a r : Z) :
  0 <= a < 16 -> 0 <= r < 4 ->
  Z.lor a (Z.shiftl r 4) = a + 16 * r
  /\ Z.land (Z.shiftr (a + 16 * r) 4) 3 = r.
Proof.
  intros Ha Hr.
  assert (Hr' : r = 0 \/ r = 1 \/ r = 2 \/ r = 3) by lia.
  assert (Ha' : a = 0 \/ a = 1 \/ a = 2 \/ a = 3 \/ a = 4 \/ a = 5 \/ a = 6
                \/ a = 7 \/ a = 8 \/ a = 9 \/ a = 10 \/ a = 11 \/ a = 12
                \/ a = 13 \/ a = 14 \/ a = 15) by lia.
  clear Ha Hr.
  destruct Hr' as [-> | [-> | [-> | ->]]];
    repeat (destruct Ha' as [-> | Ha']; [split; reflexivity |]);
    subst a; split; reflexivity.
Qed.

Lemma hdr_split (v m s t x : Z) (rest : list byte) :
  0 <= v < 256 ->
  exists h,
    pack_hdr v m s t x = Some h /\ length h = 12%nat
    /\ unpack_hdr (take HDR_SZ (h ++ rest))
       = Some (v, m mod 256, s mod 65536, t mod 4294967296,
               x mod 4294967296)
    /\ unpack_hdr (h ++ rest)
       = Some (v, m mod 256, s mod 65536, t mod 4294967296,
               x mod 4294967296)
    /\ drop HDR_SZ (h ++ rest) = rest.
Proof.
  intros Hv.
  destruct (pack_hdr_fields v m s t x rest Hv) as (h & Hp & Hl & Hu).
  exists h. split; [exact Hp|]. split; [exact Hl|].
  unfold HDR_SZ in *. split; [|split].
  - rewrite take_app_length' by (symmetry; exact Hl).
    destruct (pack_hdr_fields v m s t x [] Hv) as (h' & Hp' & _ & Hu').
    rewrite Hp in Hp'. injection Hp' as <-. rewrite app_nil_r in Hu'.
    exact Hu'.
  - exact Hu.
  - rewrite drop_app_length' by (symmetry; exact Hl). reflexivity.
Qed.

Lemma recvfrom_whole (n : nat) (dgram : list byte) :
  (length dgram <= n)%nat -> Socket.recvfrom n dgram = dgram.
Proof. intros H. unfold Socket.recvfrom. apply take_ge. exact H. Qed.

(** The datagram the server builds for a recipient, and what the head
    of the client's loop reads from it. *)
Lemma forward_packet_rx
        (flags seq ts48 ssrc rx_idx self : Z) (data : list byte)
        (allow : bool) :
  0 <= flags < 256 -> data <> [] -> Z.of_nat (length data) < 65536 ->
  0 <= rx_idx < 4 ->
  exists pkt,
    UdpServer.forward_packet flags data seq ts48 ssrc rx_idx = Some pkt
    /\ length pkt = (15 + length data)%nat
    /\ UdpClient.rx_parse self allow pkt
       = if (ssrc mod 4294967296 =? self) && negb allow then None
         else Some (UdpClient.RxHead
                      (seq mod 65536) (ssrc mod 4294967296)
                      (flags mod 16 + 16 * rx_idx) data rx_idx).
Proof.
  intros Hf Hd Hl Hr.
  unfold UdpServer.forward_packet.
  assert (Hm : Z.land flags 15 = flags mod 16).
  { change 15 with (Z.ones 4). rewrite Z.land_ones by lia. reflexivity. }
  assert (Hm3 : Z.land rx_idx 3 = rx_idx).
  { change 3 with (Z.ones 2). rewrite Z.land_ones by lia.
    apply Z.mod_small. change (2 ^ 2) with 4. lia. }
  pose proof (Z.mod_pos_bound flags 16 ltac:(lia)) as Ha.
  destruct (chan_bits_spec (flags mod 16) rx_idx Ha Hr) as [Hlor Hback].
  rewrite Hm, Hm3, Hlor.
  set (fo := flags mod 16 + 16 * rx_idx) in *.
  assert (Hfo : 0 <= fo < 256) by (unfold fo; lia).
  rewrite (pack_BH_bytes fo (Z.of_nat (length data))) by lia.
  cbn [mbind option_bind].
  destruct (hdr_split VER MT_AUDIO seq ts48 ssrc
                      ((be_bytes 1 fo ++ be_bytes 2 (Z.of_nat (length data)))
                         ++ data))
    as (h & Hp & Hlen & Hu & _ & Hdrop); [unfold VER; lia|].
  rewrite Hp. cbn [mbind option_bind].
  eexists. split; [reflexivity|]. split.
  { rewrite !length_app, !be_bytes_length, Hlen. lia. }
  unfold UdpClient.rx_parse.
  assert (Hlp : (length (h ++ (be_bytes 1 fo
                                 ++ be_bytes 2 (Z.of_nat (length data)))
                            ++ data) <? HDR_SZ)%nat = false).
  { apply Nat.ltb_ge. rewrite length_app, Hlen. unfold HDR_SZ. lia. }
  rewrite Hlp, Hu, Hdrop.
  change (negb (VER =? VER)) with false. cbv iota.
  change (MT_AUDIO mod 256 =? MT_AUDIO) with true. cbv iota.
  assert (Hlb : (length ((be_bytes 1 fo
                            ++ be_bytes 2 (Z.of_nat (length data))) ++ data)
                 <? AUDIO_HDR_SZ)%nat = false).
  { apply Nat.ltb_ge. rewrite !length_app, !be_bytes_length.
    unfold AUDIO_HDR_SZ. lia. }
  rewrite Hlb. unfold AUDIO_HDR_SZ.
  rewrite take_app_length'
    by (rewrite length_app, !be_bytes_length; reflexivity).
  rewrite drop_app_length'
    by (rewrite length_app, !be_bytes_length; reflexivity).
  rewrite unpack_BH_fields.
  rewrite (Z.mod_small fo 256) by lia.
  rewrite (Z.mod_small (Z.of_nat (length data)) 65536) by lia.
  rewrite Nat2Z.id, firstn_all.
  destruct data as [|d0 data']; [contradiction|].
  rewrite Hback. reflexivity.
Qed.

Lemma land_2 (x : Z) : Z.land x 2 = if Z.testbit x 1 then 2 else 0.
Proof.
  apply Z.bits_inj'. intros n Hn. rewrite Z.land_spec.
  change 2 with (2 ^ 1) at 1. rewrite Z.pow2_bits_eqb by lia.
  destruct (Z.eqb_spec 1 n) as [<- | Hne].
  - rewrite andb_true_r. destruct (Z.testbit x 1); reflexivity.
  - rewrite andb_false_r. destruct (Z.testbit x 1).
    + change 2 with (2 ^ 1). rewrite Z.pow2_bits_eqb by lia.
      symmetry. apply Z.eqb_neq. exact Hne.
    + symmetry. apply Z.bits_0.
Qed.

(** The server keeps the codec bit of the sender's flags. *)
Lemma flags_out_pcm (flags rx_idx : Z) :
  Z.testbit (flags mod 16 + 16 * rx_idx) 1 = Z.testbit flags 1.
Proof.
  rewrite <- (Z.mod_pow2_bits_low (flags mod 16 + 16 * rx_idx) 4 1) by lia.
  rewrite <- (Z.mod_pow2_bits_low flags 4 1) by lia.
  change (2 ^ 4) with 16.
  rewrite (Z.mul_comm 16 rx_idx), Z.mod_add by lia.
  rewrite Z.mod_mod by lia. reflexivity.
Qed.

(** The loop body of the client on a datagram the server built. *)
Lemma forward_packet_loop
      {Decoder : Type}
      (opus_decode : Decoder -> list byte -> Z -> option (Decoder * list byte))
      (flags seq ts48 ssrc rx_idx self : Z) (data : list byte)
      (allow : bool) (new_dec : option Decoder) (type_error : bool)
      (enc : OpusShim.t Decoder) :
  0 <= flags < 256 -> data <> [] -> Z.of_nat (length data) <= 8177 ->
  0 <= rx_idx < 4 ->
  exists pkt,
    UdpServer.forward_packet flags data seq ts48 ssrc rx_idx = Some pkt
    /\ UdpClient.rx opus_decode self allow new_dec type_error enc pkt
       = (if (ssrc mod 4294967296 =? self) && negb allow then (enc, None)
          else
            let r := UdpClient.decode_frame
                       opus_decode new_dec type_error enc
                       (flags mod 16 + 16 * rx_idx) data
                       (ssrc mod 4294967296) in
            (fst r,
             UdpClient.hand_over (fst r) (snd r) (ssrc mod 4294967296)
                                 rx_idx))
    /\ (Z.testbit flags 1 = true \/ OpusShim.enabled enc = false ->
        UdpClient.rx opus_decode self allow new_dec type_error enc pkt
        = (enc, None)).
Proof.
  intros Hf Hd Hl Hr.
  destruct (forward_packet_rx flags seq ts48 ssrc rx_idx self data allow
                              Hf Hd ltac:(lia) Hr)
    as (pkt & Hp & Hlen & Hrx).
  exists pkt. split; [exact Hp |].
  assert (Hall : UdpClient.rx opus_decode self allow new_dec type_error enc pkt
                 = (if (ssrc mod 4294967296 =? self) && negb allow
                    then (enc, None)
                    else
                      let r := UdpClient.decode_frame
                                 opus_decode new_dec type_error enc
                                 (flags mod 16 + 16 * rx_idx) data
                                 (ssrc mod 4294967296) in
                      (fst r,
                       UdpClient.hand_over (fst r) (snd r)
                                           (ssrc mod 4294967296) rx_idx))).
  { unfold UdpClient.rx.
    rewrite recvfrom_whole
      by (rewrite Hlen; apply Nat2Z.inj_le; rewrite Z2Nat.id by lia; lia).
    rewrite Hrx.
    destruct ((ssrc mod 4294967296 =? self) && negb allow); [reflexivity |].
    cbn [UdpClient.rx_flags UdpClient.rx_data UdpClient.rx_ssrc
         UdpClient.rx_chan_idx].
    destruct (UdpClient.decode_frame _ _ _ _ _ _ _) as [e b]. reflexivity. }
  split; [exact Hall |].
  intros Hdrop. rewrite Hall.
  destruct ((ssrc mod 4294967296 =? self) && negb allow); [reflexivity |].
  cbv zeta. unfold UdpClient.decode_frame, AUDIO_FLAG_CODEC_PCM.
  rewrite land_2, flags_out_pcm.
  destruct Hdrop as [-> | ->]; [reflexivity |].
  rewrite andb_false_r. reflexivity.
Qed.


(** The datagram of step 3 of [send_audio], read by the server. *)
Lemma audio_datagram_read (seq ts48 ssrc flags : Z) (data : list byte) :
  data <> [] ->
  exists pkt body,
    UdpClient.audio_datagram seq ts48 ssrc flags data = Some pkt
    /\ length pkt = (15 + length data)%nat
    /\ (Z.of_nat (length pkt) <= 65535 ->
        UdpServer.audio_call pkt = Some (ssrc mod 4294967296, body)
        /\ UdpServer.audio_payload body = Some (flags mod 256, data)).
Proof.
  intros Hd. unfold UdpClient.audio_datagram.
  assert (Hm : Z.land flags 255 = flags mod 256).
  { change 255 with (Z.ones 8). rewrite Z.land_ones by lia. reflexivity. }
  assert (Hn : Z.land (Z.of_nat (length data)) 65535
               = Z.of_nat (length data) mod 65536).
  { change 65535 with (Z.ones 16). rewrite Z.land_ones by lia. reflexivity. }
  rewrite Hm, Hn.
  set (n := Z.of_nat (length data) mod 65536).
  set (f := flags mod 256).
  assert (Hf : 0 <= f < 256) by (apply Z.mod_pos_bound; lia).
  assert (Hnr : 0 <= n < 65536) by (apply Z.mod_pos_bound; lia).
  rewrite (pack_BH_bytes f n) by lia.
  cbn [mbind option_bind].
  destruct (hdr_split VER MT_AUDIO seq ts48 ssrc
                      ((be_bytes 1 f ++ be_bytes 2 n) ++ data))
    as (h & Hp & Hlen & _ & Hu & Hdrop); [unfold VER; lia|].
  rewrite Hp. cbn [mbind option_bind].
  eexists. exists ((be_bytes 1 f ++ be_bytes 2 n) ++ data).
  split; [reflexivity|].
  assert (Hlpkt : length (h ++ (be_bytes 1 f ++ be_bytes 2 n) ++ data)
                  = (15 + length data)%nat).
  { rewrite !length_app, !be_bytes_length, Hlen. lia. }
  split; [exact Hlpkt |].
  intros Hfit. rewrite Hlpkt in Hfit.
  assert (En : n = Z.of_nat (length data)).
  { unfold n. apply Z.mod_small. lia. }
  split.
  - unfold UdpServer.audio_call.
    rewrite recvfrom_whole
      by (rewrite Hlpkt; apply Nat2Z.inj_le; rewrite Z2Nat.id by lia; lia).
    assert (Hlp : (length (h ++ (be_bytes 1 f ++ be_bytes 2 n) ++ data)
                   <? HDR_SZ)%nat = false).
    { apply Nat.ltb_ge. rewrite length_app, Hlen. unfold HDR_SZ. lia. }
    rewrite Hlp, Hu, Hdrop. reflexivity.
  - unfold UdpServer.audio_payload.
    assert (Hlb : (length ((be_bytes 1 f ++ be_bytes 2 n) ++ data) <? 3)%nat
                  = false).
    { apply Nat.ltb_ge. rewrite !length_app, !be_bytes_length. lia. }
    rewrite Hlb.
    rewrite take_app_length'
      by (rewrite length_app, !be_bytes_length; reflexivity).
    rewrite drop_app_length'
      by (rewrite length_app, !be_bytes_length; reflexivity).
    rewrite unpack_BH_fields.
    rewrite (Z.mod_small f 256), (Z.mod_small n 65536) by lia.
    rewrite !length_app, !be_bytes_length.
    destruct data as [| d0 data']; [contradiction |].
    destruct (Z.leb_spec n 0) as [? | _]; [simpl in En; lia |].
    destruct (Z.ltb_spec (Z.of_nat (1 + 2 + length (d0 :: data'))) (3 + n));
      [lia |].
    cbn [orb]. rewrite En, Nat2Z.id, firstn_all. reflexivity.
Qed.

(** X5: [send_audio] sends nothing, and leaves the sequence number
    alone, when PTT is off, the samples cannot be converted, Opus is
    disabled or the encoder gives no data. Otherwise it hands
    [sendto] one datagram of 15 bytes more than the encoded frame
    and the sequence number advances by one; when the datagram is at
    most 65535 bytes long, so that the server reads it whole, the
    server loop passes it to the audio handler under the client's
    ssrc (32 bits), and the handler reads back the flag [PTT] and the
    encoded frame. *)
Theorem audio_datagram_served
        (ptt enabled : bool) (encode : list f32 -> option (list byte))
        (pcm : option (list f32)) (seq ts48 ssrc : Z) :
  exists seq' out,
    UdpClient.send_audio ptt enabled encode pcm seq ts48 ssrc
    = Some (seq', out)
    /\ match out with
       | None =>
           seq' = seq
           /\ (ptt = false \/ enabled = false
               \/ match pcm with
                  | None => True
                  | Some buf =>
                      default [] (encode (UdpClient.normalise buf)) = []
                  end)
       | Some dgram =>
           exists buf data,
             ptt = true /\ enabled = true /\ pcm = Some buf
             /\ encode (UdpClient.normalise buf) = Some data
             /\ data <> []
             /\ seq' = (seq + 1) mod 65536
             /\ length dgram = (15 + length data)%nat
             /\ (Z.of_nat (length dgram) <= 65535 ->
                 exists body,
                   UdpServer.audio_call dgram
                   = Some (ssrc mod 4294967296, body)
                   /\ UdpServer.audio_payload body
                      = Some (AUDIO_FLAG_PTT, data))
       end.
Proof.
  unfold UdpClient.send_audio.
  destruct ptt; cbn [negb]; [| exists seq, None; split; auto].
  destruct pcm as [buf |]; [| exists seq, None; split; auto].
  destruct enabled; cbn [negb]; [| exists seq, None; split; auto].
  destruct (encode (UdpClient.normalise buf)) as [data |] eqn:He;
    cbn [default from_option id]; [| exists seq, None; split; auto].
  destruct data as [| d0 data']; [exists seq, None; split; auto |].
  cbv iota. set (data := d0 :: data') in *.
  assert (Hd : data <> []) by discriminate.
  destruct (audio_datagram_read (snd (SeqGen.next seq)) ts48 ssrc
                                AUDIO_FLAG_PTT data Hd)
    as (pkt & body & Hp & Hlen & Hsrv).
  unfold UdpClient.audio_datagram in Hp.
  destruct (pack_BH (Z.land AUDIO_FLAG_PTT 255)
                    (Z.land (Z.of_nat (length data)) 65535))
    as [aud_hdr |]; [| discriminate].
  cbn [mbind option_bind] in Hp |- *.
  unfold SeqGen.next in Hp |- *. cbn [snd] in Hp.
  destruct (pack_hdr VER MT_AUDIO (Z.land (seq + 1) 65535) ts48 ssrc)
    as [h |]; [| discriminate].
  cbn [mbind option_bind] in Hp |- *. injection Hp as Hp.
  eexists _, (Some _). split; [reflexivity |].
  exists buf, data. rewrite Hp.
  split; [reflexivity |]. split; [reflexivity |]. split; [reflexivity |].
  split; [exact He |]. split; [exact Hd |]. split.
  { change 65535 with (Z.ones 16). rewrite Z.land_ones by lia. reflexivity. }
  split; [exact Hlen |].
  intros Hfit. exists body. apply Hsrv, Hfit.
Qed.

End Wire.

(** ** The audio relay *)

Section Relay.
Import Numpy UdpProtocol SessionManager.

Lemma audio_payload_Some (payload : list byte) (flags : Z) (data : list byte) :
  UdpServer.audio_payload payload = Some (flags, data) ->
  0 <= flags < 256 /\ data <> [] /\ Z.of_nat (length data) < 65536.
Proof.
  unfold UdpServer.audio_payload.
  destruct (length payload <? 3)%nat eqn:Hl; [discriminate|].
  apply Nat.ltb_ge in Hl.
  unfold unpack_BH. rewrite length_take, Nat.min_l by lia.
  simpl Nat.eqb. cbv iota.
  set (len := be_value (take 2 (drop 1 (take 3 payload)))).
  pose proof (be_value_range (take 1 (take 3 payload))) as Rf.
  pose proof (be_value_range (take 2 (drop 1 (take 3 payload)))) as Rl.
  assert (L1 : length (take 1 (take 3 payload)) = 1%nat)
    by (rewrite !length_take; lia).
  assert (L2 : length (take 2 (drop 1 (take 3 payload))) = 2%nat)
    by (rewrite length_take, length_drop, length_take; lia).
  rewrite L1 in Rf. rewrite L2 in Rl.
  change (2 ^ (8 * Z.of_nat 1)) with 256 in Rf.
  change (2 ^ (8 * Z.of_nat 2)) with 65536 in Rl. fold len in Rl.
  destruct ((len <=? 0) || (Z.of_nat (length payload) <? 3 + len)) eqn:Hc;
    [discriminate|].
  apply orb_false_iff in Hc. destruct Hc as [Hc1 Hc2].
  apply Z.leb_gt in Hc1. apply Z.ltb_ge in Hc2.
  destruct (take (Z.to_nat len) (drop 3 payload)) as [|d0 r] eqn:Et;
    [discriminate|].
  intros H. injection H as <- <-.
  split; [exact Rf|]. split; [discriminate|].
  rewrite <- Et, length_take, length_drop. lia.
Qed.

Lemma recipients_loop_range (m : SessionManager.t) (fresh : Z -> string)
      (now : PyFloat.float) (sender_key : Z) (net : string)
      (P : recipient -> Prop) :
  (forall key other idx, (idx < 4)%nat -> P (key, other, idx)) ->
  forall items recipients (seen_ids : gset Z),
    Forall P recipients ->
    Forall P (recipients_loop m fresh now sender_key net items recipients
                              seen_ids).
Proof.
  intros HP. induction items as [|[key other] items IH];
    intros recipients seen_ids Hr; [exact Hr|].
  cbn [recipients_loop].
  destruct (key =? sender_key); [apply IH; exact Hr|].
  destruct (deliver_for m (fresh key) now net other) as [idx|] eqn:Hd;
    [|apply IH; exact Hr].
  destruct (decide (key ∈ seen_ids)); [apply IH; exact Hr|].
  apply IH. apply Forall_app. split; [exact Hr|].
  apply Forall_singleton, HP.
  apply deliver_for_Some in Hd. destruct Hd as (_ & [Hi _] & _). exact Hi.
Qed.

Lemma recipients_loop_keys (m : SessionManager.t) (fresh : Z -> string)
      (now : PyFloat.float) (sender_key : Z) (net : string)
      (keys : list Z) :
  forall items recipients (seen_ids : gset Z),
    (forall k, k ∈ map fst items -> k ∈ keys) ->
    Forall (fun r : recipient => fst (fst r) ∈ keys) recipients ->
    Forall (fun r : recipient => fst (fst r) ∈ keys)
           (recipients_loop m fresh now sender_key net items recipients
                            seen_ids).
Proof.
  induction items as [|[key other] items IH];
    intros recipients seen_ids Hk Hr; [exact Hr|].
  assert (Hk' : forall k, k ∈ map fst items -> k ∈ keys).
  { intros k Hin. apply Hk. simpl. right. exact Hin. }
  cbn [recipients_loop].
  destruct (key =? sender_key); [apply IH; assumption|].
  destruct (deliver_for m (fresh key) now net other) as [idx|] eqn:Hd;
    [|apply IH; assumption].
  destruct (decide (key ∈ seen_ids)); [apply IH; assumption|].
  apply IH; [assumption|]. apply Forall_app. split; [exact Hr|].
  apply Forall_singleton. simpl. apply Hk. simpl. left.
Qed.

Lemma find_key_elem {A : Type} (items : list (Z * A)) (key : Z) (x : Z * A) :
  List.find (fun e => fst e =? key) items = Some x ->
  fst x = key /\ key ∈ map fst items.
Proof.
  intros H. apply find_some in H. destruct H as [Hin He].
  apply Z.eqb_eq in He. split; [exact He|].
  rewrite <- He. apply list_elem_of_In, in_map, Hin.
Qed.

Lemma find_key_Some {A : Type} (items : list (Z * A)) (key : Z) :
  key ∈ map fst items ->
  exists x, List.find (fun e => fst e =? key) items = Some x.
Proof.
  induction items as [|[k a] items IH]; intros H.
  - inversion H.
  - simpl. destruct (Z.eqb_spec k key) as [-> | Hne]; [eauto|].
    apply IH. simpl in H. apply elem_of_cons in H. destruct H; [congruence|].
    assumption.
Qed.

(** Every recipient is stored in the table and its channel index is
    one of the four. *)
Lemma audio_recipients_range (fresh : Z -> string) (now : PyFloat.float)
      (m : SessionManager.t) (ssrc : Z) :
  Forall (fun r : recipient =>
            (snd r < 4)%nat /\ fst (fst r) ∈ map fst (by_ssrc m))
         (fst (fst (fst (audio_recipients_for fresh now m ssrc)))).
Proof.
  unfold audio_recipients_for, get.
  destruct (List.find (fun e => fst e =? ssrc) (by_ssrc m)) as [x|] eqn:Hf;
    [|apply Forall_nil_2].
  apply find_key_elem in Hf. destruct Hf as [_ Hin]. cbn [fmap option_fmap option_map].
  destruct (match Session.compute_networks (fresh ssrc) x.2 with
            | Some (ids, active_net, _) => (ids, active_net)
            | None => ([], EmptyString)
            end) as [ids an].
  match goal with
  | |- context [if ?c then _ else _] => destruct c
  end; [apply Forall_nil_2|].
  cbn [fst].
  set (loop := recipients_loop _ _ _ _ _ _ _ _).
  assert (Hloop : Forall (fun r : recipient =>
                            (snd r < 4)%nat
                            /\ fst (fst r) ∈ map fst (by_ssrc m)) loop).
  { apply Forall_and. split.
    - unfold loop. apply recipients_loop_range; [|apply Forall_nil_2].
      intros key other idx Hi. exact Hi.
    - unfold loop. apply recipients_loop_keys; [|apply Forall_nil_2].
      intros k Hk. exact Hk. }
  destruct (Session.loopback x.2); [|exact Hloop].
  apply Forall_app. split; [exact Hloop|]. apply Forall_singleton.
  split; [apply clamp_channel_bound | exact Hin].
Qed.

Lemma omap_Forall2 {A B : Type} (f : A -> option B) (Q : B -> A -> Prop)
      (l : list A) :
  Forall (fun a => exists b, f a = Some b /\ Q b a) l ->
  Forall2 Q (omap f l) l.
Proof.
  induction 1 as [|a l (b & Hb & Hq) _ IH]; [constructor|].
  simpl. rewrite Hb. constructor; assumption.
Qed.

Lemma store_manager_keys (r : SessionStore.t) :
  map fst (by_ssrc (SessionStore.manager r))
  = map fst (SessionStore.by_ssrc r).
Proof.
  unfold SessionStore.manager. simpl. rewrite map_map. reflexivity.
Qed.

(** X6: on a well-formed audio payload the relay sends exactly one
    datagram per recipient chosen by [audio_recipients_for], in the
    same order, to the recipient's current address: the datagram
    [forward_packet] builds from the payload's flags and data, the
    sequence number the server drew and the recipient's matching
    channel index. The sequence number advances only when there is a
    recipient. When the data are at most 8177 bytes long, the loop of
    a client reads each datagram as a frame of the sender's ssrc on
    that channel index: it skips its own frames when loopback is
    off, and otherwise runs the decode step on the payload's data. *)
Theorem handle_audio_delivers
        {Decoder : Type}
        (opus_decode : Decoder -> list byte -> Z -> option (Decoder * list byte))
        (fresh : Z -> string) (now now' : PyFloat.float) (ts48 : Z)
        (srv : UdpServer.t) (ssrc : Z) (payload : list byte)
        (flags : Z) (data : list byte) (self : Z) (allow : bool)
        (new_dec : option Decoder) (type_error : bool)
        (enc : OpusShim.t Decoder) :
  UdpServer.audio_payload payload = Some (flags, data) ->
  0 <= ssrc < 4294967296 ->
  let m := SessionStore.note_audio_for now (UdpServer.mgr srv) ssrc
                                       (Z.of_nat (length data)) in
  let recipients :=
    fst (fst (fst (audio_recipients_for fresh now' (SessionStore.manager m)
                                        ssrc))) in
  let n := snd (SeqGen.next (UdpServer.seq srv)) in
  let out := UdpServer._handle_audio fresh now now' ts48 srv ssrc payload in
  fst out = UdpServer.mk m (match recipients with
                            | [] => UdpServer.seq srv
                            | _ => n
                            end)
  /\ Forall2 (fun (d : list byte * SessionStore.addr_t) (r : recipient) =>
                UdpServer.addr_of m (fst (fst r)) = Some (snd d)
                /\ UdpServer.forward_packet flags data n ts48 ssrc
                                            (Z.of_nat (snd r))
                   = Some (fst d)
                /\ (Z.of_nat (length data) <= 8177 ->
                    UdpClient.rx opus_decode self allow new_dec type_error
                                 enc (fst d)
                    = (if (ssrc =? self) && negb allow then (enc, None)
                       else
                         let x := UdpClient.decode_frame
                                    opus_decode new_dec type_error enc
                                    (flags mod 16 + 16 * Z.of_nat (snd r))
                                    data ssrc in
                         (fst x,
                          UdpClient.hand_over (fst x) (snd x) ssrc
                                              (Z.of_nat (snd r))))))
             (snd out) recipients.
Proof.
  intros Hp Hs m recipients n out.
  destruct (audio_payload_Some _ _ _ Hp) as (Hf & Hd & Hl).
  pose proof (audio_recipients_range fresh now' (SessionStore.manager m) ssrc)
    as Hr.
  fold recipients in Hr.
  assert (Hn : n = (UdpServer.seq srv + 1) mod 65536).
  { unfold n. rewrite seq_next_mod. reflexivity. }
  assert (Hout : out
                 = match recipients with
                   | [] => (UdpServer.mk m (UdpServer.seq srv), [])
                   | _ =>
                       (UdpServer.mk m n,
                        omap (fun r : recipient =>
                                let '(key, _, rx_idx) := r in
                                pkt ← UdpServer.forward_packet
                                        flags data n ts48 ssrc
                                        (Z.of_nat rx_idx);
                                a ← UdpServer.addr_of m key;
                                Some (pkt, a))
                             recipients)
                   end).
  { unfold out, UdpServer._handle_audio. rewrite Hp. fold m.
    unfold recipients.
    destruct (audio_recipients_for fresh now' (SessionStore.manager m) ssrc)
      as [[[rs a] c] nn]. cbn [fst].
    destruct rs; [reflexivity|]. rewrite seq_next_mod. rewrite Hn.
    reflexivity. }
  rewrite Hout. clear Hout out.
  destruct recipients as [|r0 rs] eqn:Er; [split; [reflexivity | constructor]|].
  rewrite <- Er in *. clear Er r0 rs.
  split; [destruct recipients; reflexivity|].
  cbn [snd].
  apply omap_Forall2.
  eapply Forall_impl; [exact Hr|].
  intros [[key other] idx] [Hi Hk]. cbn [fst snd] in *.
  destruct (forward_packet_rx flags n ts48 ssrc (Z.of_nat idx) self data
                              allow)
    as (pkt & Hpkt & Hlen & Hrx); [lia | exact Hd | exact Hl | lia |].
  rewrite store_manager_keys in Hk.
  destruct (find_key_Some _ _ Hk) as [x Hx].
  exists (pkt, SessionStore.addr (snd x)).
  unfold UdpServer.addr_of, SessionStore.get. rewrite Hpkt, Hx.
  split; [reflexivity|]. split; [reflexivity|].
  cbn [fst]. split; [reflexivity |].
  intros Hfit.
  destruct (forward_packet_loop opus_decode flags n ts48 ssrc (Z.of_nat idx)
                                self data allow new_dec type_error enc)
    as (pkt' & Hpkt' & Hloop & _); [lia | exact Hd | exact Hfit | lia |].
  rewrite Hpkt in Hpkt'. injection Hpkt' as <-.
  rewrite Hloop, (Z.mod_small ssrc) by lia. reflexivity.
Qed.

End Relay.

(** ** The session table *)

Section Store.
Import PyFloat SessionStore History Notions.

Lemma store_get_None (r : SessionStore.t) (key : Z) :
  SessionStore.get r key = None <-> key ∉ map fst (by_ssrc r).
Proof.
  unfold SessionStore.get. split.
  - intros H Hin. destruct (find_key_Some _ _ Hin) as [x Hx].
    rewrite Hx in H. discriminate.
  - intros Hn.
    destruct (List.find (fun e => fst e =? key) (by_ssrc r)) as [x|] eqn:Hf;
      [|reflexivity].
    apply find_key_elem in Hf. destruct Hf as [_ Hin]. contradiction.
Qed.

Lemma store_get_Some (r : SessionStore.t) (key : Z) (s : session) :
  SessionStore.get r key = Some s -> (key, s) ∈ by_ssrc r.
Proof.
  unfold SessionStore.get. intros H.
  destruct (List.find (fun e => fst e =? key) (by_ssrc r)) as [[k x]|] eqn:Hf;
    [|discriminate].
  injection H as <-. apply find_some in Hf. destruct Hf as [Hin He].
  apply Z.eqb_eq in He. simpl in He. subst k. apply list_elem_of_In, Hin.
Qed.

Lemma items_find_NoDup (items : list (Z * session)) (key : Z) (s : session) :
  NoDup (map fst items) -> (key, s) ∈ items ->
  List.find (fun e => fst e =? key) items = Some (key, s).
Proof.
  induction items as [|[k x] items IH]; intros Hnd Hin.
  - inversion Hin.
  - simpl in *. apply NoDup_cons in Hnd. destruct Hnd as [Hk Hnd].
    apply elem_of_cons in Hin. destruct Hin as [Heq | Hin].
    + injection Heq as <- <-. rewrite Z.eqb_refl. reflexivity.
    + destruct (Z.eqb_spec k key) as [-> | Hne].
      * exfalso. apply Hk.
        apply (list_elem_of_fmap_2 fst) in Hin. exact Hin.
      * apply IH; assumption.
Qed.

Lemma update_keys (key : Z) (f : session -> session)
      (items : list (Z * session)) :
  map fst (update key f items) = map fst items.
Proof.
  unfold update. rewrite map_map. apply map_ext. intros [k s]. simpl.
  destruct (k =? key); reflexivity.
Qed.

Lemma update_Forall (P : session -> Prop) (key : Z) (f : session -> session)
      (items : list (Z * session)) :
  (forall s, P s -> P (f s)) ->
  Forall (fun e => P (snd e)) items ->
  Forall (fun e => P (snd e)) (update key f items).
Proof.
  intros Hf H. unfold update. apply Forall_fmap.
  eapply Forall_impl; [exact H|]. intros [k s] Hs. simpl in *.
  destruct (k =? key); simpl; auto.
Qed.

Lemma update_find (key k : Z) (f : session -> session)
      (items : list (Z * session)) :
  List.find (fun e => fst e =? k) (update key f items)
  = (fun e : Z * session => if fst e =? key then (fst e, f (snd e)) else e)
      <$> List.find (fun e => fst e =? k) items.
Proof.
  induction items as [|[k0 s0] items IH]; [reflexivity|].
  simpl. destruct (Z.eqb_spec k0 key) as [-> | Hne]; simpl.
  - destruct (Z.eqb_spec key k) as [-> | Hk]; simpl.
    + rewrite Z.eqb_refl. reflexivity.
    + exact IH.
  - destruct (Z.eqb_spec k0 k) as [-> | Hk]; simpl.
    + destruct (Z.eqb_spec k key); [contradiction | reflexivity].
    + exact IH.
Qed.

Lemma remove_keys (key : Z) (items : list (Z * session)) :
  map fst (remove key items)
  = List.filter (fun k => negb (k =? key)) (map fst items).
Proof.
  induction items as [|[k s] items IH]; [reflexivity|].
  simpl. destruct (k =? key); simpl; rewrite IH; reflexivity.
Qed.

Lemma remove_NoDup (key : Z) (items : list (Z * session)) :
  NoDup (map fst items) -> NoDup (map fst (remove key items)).
Proof.
  rewrite remove_keys. intros H.
  induction H as [|k ks Hk Hnd IH]; simpl; [constructor|].
  destruct (k =? key); simpl; [exact IH|].
  constructor; [|exact IH].
  intros Hin. apply Hk. apply list_elem_of_In in Hin.
  apply filter_In in Hin. apply list_elem_of_In. tauto.
Qed.

Lemma remove_elem (key k : Z) (items : list (Z * session)) :
  k ∈ map fst (remove key items) <-> k ∈ map fst items /\ k <> key.
Proof.
  rewrite remove_keys. rewrite list_elem_of_In, filter_In.
  rewrite <- list_elem_of_In. rewrite negb_true_iff, Z.eqb_neq. tauto.
Qed.

Lemma remove_find (key k : Z) (items : list (Z * session)) :
  k <> key ->
  List.find (fun e => fst e =? k) (remove key items)
  = List.find (fun e => fst e =? k) items.
Proof.
  intros Hk. induction items as [|[k0 s0] items IH]; [reflexivity|].
  simpl. destruct (Z.eqb_spec k0 key) as [-> | Hne]; simpl.
  - destruct (Z.eqb_spec key k); [congruence | exact IH].
  - destruct (k0 =? k); [reflexivity | exact IH].
Qed.

Lemma remove_Forall (P : Z * session -> Prop) (key : Z)
      (items : list (Z * session)) :
  Forall P items -> Forall P (remove key items).
Proof.
  intros H. unfold remove. apply Forall_forall. intros x Hin.
  apply list_elem_of_In, filter_In in Hin. destruct Hin as [Hin _].
  rewrite Forall_forall in H. apply H, list_elem_of_In, Hin.
Qed.

Lemma find_app_absent (k : Z) (items : list (Z * session)) (e : Z * session) :
  List.find (fun e => fst e =? k) (items ++ [e])
  = match List.find (fun e => fst e =? k) items with
    | Some x => Some x
    | None => if fst e =? k then Some e else None
    end.
Proof.
  induction items as [|x items IH]; simpl.
  - destruct (fst e =? k); reflexivity.
  - destruct (fst x =? k); [reflexivity | exact IH].
Qed.

Lemma keeps_four (f : session -> session) :
  keeps_channels f -> forall s, four_channels (base s) -> four_channels (base (f s)).
Proof.
  intros Hf s (H1 & H2 & H3). destruct (Hf s) as (E1 & E2 & E3).
  unfold four_channels. rewrite E1, E2, E3. auto.
Qed.

Lemma keeps_compose (f g : session -> session) :
  keeps_channels f -> keeps_channels g -> keeps_channels (fun s => f (g s)).
Proof.
  intros Hf Hg s. destruct (Hf (g s)) as (E1 & E2 & E3).
  destruct (Hg s) as (F1 & F2 & F3).
  rewrite E1, E2, E3, F1, F2, F3. auto.
Qed.

Lemma keeps_set_if {A : Type} (v : option A) (set : A -> session -> session) :
  (forall x, keeps_channels (set x)) -> keeps_channels (set_if v set).
Proof.
  intros H. destruct v; simpl; [apply H|]. intros s. auto.
Qed.

Lemma keeps_touch (now : float) : keeps_channels (touch now).
Proof. intros s. auto. Qed.

Lemma keeps_set_nick (v : string) : keeps_channels (set_nick v).
Proof. intros s. auto. Qed.

Lemma keeps_set_active_channel (v : Z) : keeps_channels (set_active_channel v).
Proof. intros s. auto. Qed.

Lemma keeps_set_scan (v : bool) : keeps_channels (set_scan v).
Proof. intros s. auto. Qed.

Lemma keeps_set_ptt (v : bool) : keeps_channels (set_ptt v).
Proof. intros s. auto. Qed.

Lemma keeps_set_loopback (v : bool) : keeps_channels (set_loopback v).
Proof. intros s. auto. Qed.

Lemma keeps_set_addr (v : addr_t) : keeps_channels (set_addr v).
Proof. intros s. auto. Qed.

Lemma keeps_set_client_id (v : option string) : keeps_channels (set_client_id v).
Proof. intros s. auto. Qed.

Lemma keeps_set_net (v : string) : keeps_channels (set_net v).
Proof. intros s. auto. Qed.

Lemma keeps_set_current_tx_freq (v : option float) :
  keeps_channels (set_current_tx_freq v).
Proof. intros s. auto. Qed.

Lemma keeps_set_position v : keeps_channels (set_position v).
Proof. intros s. auto. Qed.

Lemma mapM_length {A B : Type} (f : A -> option B) (l : list A) (k : list B) :
  mapM f l = Some k -> length k = length l.
Proof.
  intros H. apply mapM_Some_1 in H. symmetry. eapply Forall2_length, H.
Qed.

Lemma assign_channel_four (str_int : string -> option Z)
      (str_float : string -> option float)
      (active_idx freqs scan : Json.t) (s : session) :
  four_channels (base s) ->
  four_channels (base (assign_channel str_int str_float active_idx freqs scan s)).
Proof.
  intros H. unfold assign_channel.
  set (s1 := set_if (Json.to_int str_int active_idx) set_active_channel s).
  assert (H1 : four_channels (base s1)).
  { unfold s1. apply keeps_four; [|exact H].
    apply keeps_set_if. apply keeps_set_active_channel. }
  set (s2 := match freqs with
             | Json.JList l =>
                 if (length l =? 4)%nat
                 then set_if (mapM (Json.to_float str_float) l) set_freqs s1
                 else s1
             | _ => s1
             end).
  assert (H2 : four_channels (base s2)).
  { unfold s2. destruct freqs; try exact H1.
    destruct (Nat.eqb_spec (length l) 4) as [El|]; [|exact H1].
    destruct (mapM (Json.to_float str_float) l) as [k|] eqn:Em; [|exact H1].
    apply mapM_length in Em. destruct H1 as (_ & F2 & F3).
    simpl. unfold four_channels. simpl. split; [lia | auto]. }
  destruct scan; exact H2.
Qed.

Lemma normalize_scan_length (sc : list bool) :
  length (normalize_scan sc) = 4%nat.
Proof.
  unfold normalize_scan.
  destruct (Nat.ltb_spec (length sc) 4).
  - rewrite length_take, length_app, length_replicate. lia.
  - rewrite length_take. lia.
Qed.

Lemma assign_tx_keeps (str_float : string -> option float) (on : bool) (freq : option Json.t) :
  keeps_channels (assign_tx str_float on freq).
Proof.
  intros s. unfold assign_tx. destruct on; [destruct freq|]; auto.
Qed.

(** An update of the object under a key keeps the shape of the
    table. *)
Lemma with_update_well_formed (r : SessionStore.t) (key : Z)
      (f : session -> session) :
  (forall s, four_channels (base s) -> four_channels (base (f s))) ->
  well_formed r ->
  well_formed (with_sessions r (update key f (by_ssrc r))).
Proof.
  intros Hf (Hnd & Hfour & Htrim). unfold well_formed. simpl.
  rewrite update_keys. split; [exact Hnd|]. split; [|exact Htrim].
  apply (update_Forall (fun s => four_channels (base s))); assumption.
Qed.

Lemma upsert_well_formed rnd now r a ssrc m :
  well_formed r -> well_formed (upsert rnd now r a ssrc m).
Proof.
  intros (Hnd & Hfour & Htrim). unfold upsert.
  set (finish := fun s : session =>
                   touch now (set_if (m_loopback m) set_loopback s)).
  assert (Hfin : forall s, four_channels (base s)
                           -> four_channels (base (finish s))).
  { apply keeps_four. apply (keeps_compose (touch now)).
    - apply keeps_touch.
    - apply keeps_set_if, keeps_set_loopback. }
  assert (Hupd : forall s, four_channels (base s) ->
                           four_channels
                             (base (finish
                                (set_if (truthy_str (m_net m)) set_net
                                   (set_if (truthy_str (m_nick m)) set_nick
                                      (set_if (truthy_str (m_client_id m))
                                         (fun c => set_client_id (Some c))
                                         (set_addr a s))))))).
  { intros s Hs. apply Hfin.
    apply (keeps_four _ (keeps_set_if _ _ keeps_set_net)).
    apply (keeps_four _ (keeps_set_if _ _ keeps_set_nick)).
    apply (keeps_four _ (keeps_set_if _ (fun c => set_client_id (Some c))
                                      (fun c => keeps_set_client_id (Some c)))).
    apply (keeps_four _ (keeps_set_addr a)). exact Hs. }
  assert (Hnew : forall cid nick net,
             four_channels (base (finish (new_session rnd now a ssrc cid
                                                      nick net)))).
  { intros. apply Hfin. repeat split. }
  destruct (SessionStore.get r ssrc) as [s0|] eqn:Hget.
  - (* the session exists *)
    apply (with_update_well_formed r ssrc); [exact Hupd|].
    exact (conj Hnd (conj Hfour Htrim)).
  - apply store_get_None in Hget.
    destruct (truthy_str (m_client_id m)) as [cid|] eqn:Hcid.
    + destruct (List.find (same_client cid) (by_ssrc r)) as [[old_key existing]|]
        eqn:Hfind.
      * (* rebinding *)
        apply find_some in Hfind. destruct Hfind as [Hin _].
        assert (Hne : old_key <> ssrc).
        { intros ->. apply Hget.
          apply list_elem_of_In in Hin.
          apply (list_elem_of_fmap_2 fst) in Hin. exact Hin. }
        destruct (Z.eqb_spec old_key ssrc) as [? | _]; [contradiction|].
        cbn [negb].
        unfold well_formed. simpl. rewrite update_keys.
        split; [|split; [|exact Htrim]].
        -- rewrite map_app. simpl. apply NoDup_app. split; [|split].
           ++ apply remove_NoDup, Hnd.
           ++ intros k Hk Hk'. apply list_elem_of_singleton in Hk'. subst k.
              apply remove_elem in Hk. tauto.
           ++ apply NoDup_singleton.
        -- apply (update_Forall (fun s => four_channels (base s)));
             [exact Hupd|].
           apply Forall_app. split.
           ++ apply remove_Forall, Hfour.
           ++ apply Forall_singleton. simpl.
              rewrite Forall_forall in Hfour.
              apply (Hfour (old_key, existing)), list_elem_of_In, Hin.
      * (* a new session *)
        unfold well_formed. simpl. split; [|split; [|exact Htrim]].
        -- rewrite map_app. simpl. apply NoDup_app. split; [exact Hnd|].
           split; [|apply NoDup_singleton].
           intros k Hk Hk'. apply list_elem_of_singleton in Hk'. subst k.
           contradiction.
        -- apply Forall_app. split; [exact Hfour|].
           apply Forall_singleton. apply Hnew.
    + unfold well_formed. simpl. split; [|split; [|exact Htrim]].
      * rewrite map_app. simpl. apply NoDup_app. split; [exact Hnd|].
        split; [|apply NoDup_singleton].
        intros k Hk Hk'. apply list_elem_of_singleton in Hk'. subst k.
        contradiction.
      * apply Forall_app. split; [exact Hfour|].
        apply Forall_singleton. apply Hnew.
Qed.

Lemma run_well_formed (str_int : string -> option Z)
      (str_float : string -> option float)
      (r : SessionStore.t) (c : call) :
  well_formed r -> well_formed (run str_int str_float r c).
Proof.
  intros Hwf.
  destruct c as [rnd now a ssrc m | now ssrc | ssrc
                | now ssrc active_idx freqs scan | now ssrc on freq
                | now ssrc on | now now' ssrc upd | now ssrc pos
                | now ssrc info | now ssrc nbytes | src dst | | enabled];
    simpl.
  - apply upsert_well_formed, Hwf.
  - unfold note_heartbeat. destruct (SessionStore.get r ssrc); [|exact Hwf].
    apply with_update_well_formed; [|exact Hwf].
    apply keeps_four, keeps_touch.
  - unfold SessionStore.drop.
    destruct (SessionStore.get r ssrc); [|exact Hwf].
    destruct Hwf as (Hnd & Hfour & Htrim). unfold well_formed. simpl.
    split; [apply remove_NoDup, Hnd|]. split; [|exact Htrim].
    apply remove_Forall, Hfour.
  - unfold set_channel. destruct (SessionStore.get r ssrc); [|exact Hwf].
    apply with_update_well_formed; [|exact Hwf].
    intros x Hs. apply (keeps_four _ (keeps_touch now)).
    apply assign_channel_four, Hs.
  - unfold set_tx_state. destruct (SessionStore.get r ssrc); [|exact Hwf].
    apply with_update_well_formed; [|exact Hwf].
    intros x Hs. apply (keeps_four _ (keeps_touch now)).
    apply (keeps_four _ (assign_tx_keeps str_float on freq)), Hs.
  - unfold note_ptt, set_tx_state.
    destruct (SessionStore.get r ssrc); [|exact Hwf].
    apply with_update_well_formed; [|exact Hwf].
    intros x Hs. apply (keeps_four _ (keeps_touch now)).
    apply (keeps_four _ (assign_tx_keeps str_float on None)), Hs.
  - unfold note_chan_update. destruct upd; try exact Hwf.
    set (r1 := set_channel _ _ _ _ _ _ _ _).
    assert (H1 : well_formed r1).
    { unfold r1, set_channel.
      destruct (SessionStore.get r ssrc); [|exact Hwf].
      apply with_update_well_formed; [|exact Hwf].
      intros x Hs. apply (keeps_four _ (keeps_touch now)).
      apply assign_channel_four, Hs. }
    destruct (Json.get o "scan_channels") as [[]|]; try exact H1.
    destruct (SessionStore.get r1 ssrc); [|exact H1].
    apply with_update_well_formed; [|exact H1].
    intros x (F1 & F2 & F3). apply (keeps_four _ (keeps_touch now')).
    repeat split; simpl; [exact F1 | apply normalize_scan_length | exact F3].
  - unfold note_position. destruct (SessionStore.get r ssrc); [|exact Hwf].
    apply with_update_well_formed; [|exact Hwf].
    intros x Hs. apply (keeps_four _ (keeps_touch now)).
    destruct pos; exact Hs.
  - unfold note_presence. destruct (SessionStore.get r ssrc); [|exact Hwf].
    apply with_update_well_formed; [|exact Hwf].
    intros x Hs. apply (keeps_four _ (keeps_touch now)).
    apply (keeps_four _ (keeps_set_if _ _ keeps_set_loopback)).
    apply (keeps_four _ (keeps_set_if _ (fun c => set_client_id (Some c))
                                      (fun c => keeps_set_client_id (Some c)))).
    apply (keeps_four _ (keeps_set_if _ _ keeps_set_net)).
    apply (keeps_four _ (keeps_set_if _ _ keeps_set_nick)). exact Hs.
  - unfold note_audio_for. destruct Hwf as (Hnd & Hfour & Htrim).
    unfold well_formed. simpl.
    destruct (SessionStore.get r ssrc).
    + rewrite update_keys. split; [exact Hnd|]. split; [|exact Htrim].
      apply (update_Forall (fun s => four_channels (base s)));
        [apply keeps_four, keeps_touch | exact Hfour].
    + exact (conj Hnd (conj Hfour Htrim)).
  - destruct Hwf as (Hnd & Hfour & Htrim). unfold well_formed. simpl.
    split; [exact Hnd|]. split; [exact Hfour|].
    apply (merge_net_trimmed (manager r) src dst). exact Htrim.
  - destruct Hwf as (Hnd & Hfour & Htrim). unfold well_formed. simpl.
    split; [exact Hnd|]. split; [exact Hfour|].
    intros k v H. rewrite lookup_empty in H. discriminate.
  - exact Hwf.
Qed.

Lemma init_well_formed : well_formed init.
Proof.
  unfold well_formed. simpl. split; [constructor|]. split; [constructor|].
  intros k v H. rewrite lookup_empty in H. discriminate.
Qed.

Lemma after_well_formed (str_int : string -> option Z)
      (str_float : string -> option float)
      (calls : list call) :
  well_formed (after str_int str_float calls).
Proof.
  unfold after.
  assert (H : forall r, well_formed r ->
                        well_formed (fold_left (run str_int str_float) calls r)).
  { induction calls as [|c calls IH]; intros r Hr; [exact Hr|].
    simpl. apply IH, run_well_formed, Hr. }
  apply H, init_well_formed.
Qed.

(** X7: whatever calls are made on a session manager, with whatever
    JSON values, the keys of the table stay pairwise distinct, every
    session keeps exactly four frequencies, four scan flags and four
    prefixes, and the alias table holds trimmed ids. *)
Theorem history_well_formed (str_int : string -> option Z)
        (str_float : string -> option float)
        (calls : list call) :
  well_formed (after str_int str_float calls).
Proof. apply after_well_formed. Qed.

Lemma compute_networks_draw (f1 f2 : string) (b : Session.t) :
  length (Session.net_prefixes b) = 4%nat ->
  Session.compute_networks f1 b = Session.compute_networks f2 b.
Proof.
  intros H. unfold Session.compute_networks, Session.fix_prefixes.
  rewrite H. reflexivity.
Qed.

Lemma deliver_for_draw (m : SessionManager.t) (f1 f2 : string) (now : float)
      (net : string) (b : Session.t) :
  length (Session.net_prefixes b) = 4%nat ->
  SessionManager.deliver_for m f1 now net b
  = SessionManager.deliver_for m f2 now net b.
Proof.
  intros H. unfold SessionManager.deliver_for.
  rewrite (compute_networks_draw f1 f2 b H). reflexivity.
Qed.

Lemma recipients_loop_draw (m : SessionManager.t) (fresh1 fresh2 : Z -> string)
      (now : float) (sender_key : Z) (net : string) :
  forall items recipients seen_ids,
    Forall (fun e : Z * Session.t =>
              length (Session.net_prefixes (snd e)) = 4%nat) items ->
    SessionManager.recipients_loop m fresh1 now sender_key net items
                                   recipients seen_ids
    = SessionManager.recipients_loop m fresh2 now sender_key net items
                                     recipients seen_ids.
Proof.
  induction items as [|[key other] items IH]; intros recipients seen_ids H;
    [reflexivity|].
  apply Forall_cons in H. destruct H as [H0 H]. simpl in H0.
  cbn [SessionManager.recipients_loop].
  rewrite (deliver_for_draw m (fresh1 key) (fresh2 key) now net other H0).
  destruct (key =? sender_key); [apply IH, H|].
  destruct (SessionManager.deliver_for m (fresh2 key) now net other);
    [|apply IH, H].
  destruct (decide (key ∈ seen_ids)); apply IH, H.
Qed.

Lemma manager_prefixes (r : SessionStore.t) :
  well_formed r ->
  Forall (fun e : Z * Session.t =>
            length (Session.net_prefixes (snd e)) = 4%nat)
         (SessionManager.by_ssrc (manager r)).
Proof.
  intros (_ & Hfour & _). unfold manager. simpl. apply Forall_fmap.
  eapply Forall_impl; [exact Hfour|]. intros [k x] (_ & _ & H). exact H.
Qed.

Lemma audio_recipients_draw (fresh1 fresh2 : Z -> string) (now : float)
      (r : SessionStore.t) (ssrc : Z) :
  well_formed r ->
  SessionManager.audio_recipients_for fresh1 now (manager r) ssrc
  = SessionManager.audio_recipients_for fresh2 now (manager r) ssrc.
Proof.
  intros Hwf. pose proof (manager_prefixes r Hwf) as Hp.
  unfold SessionManager.audio_recipients_for, SessionManager.get.
  destruct (List.find (fun e => fst e =? ssrc)
                      (SessionManager.by_ssrc (manager r)))
    as [[k sender]|] eqn:Hf; [|reflexivity].
  apply find_some in Hf. destruct Hf as [Hin _].
  rewrite Forall_forall in Hp.
  pose proof (Hp _ (proj2 (list_elem_of_In _ _) Hin)) as Hs. simpl in Hs.
  cbn [fmap option_fmap option_map snd].
  rewrite (compute_networks_draw (fresh1 ssrc) (fresh2 ssrc) sender Hs).
  destruct (match Session.compute_networks (fresh2 ssrc) sender with
            | Some (ids, active_net, _) => (ids, active_net)
            | None => ([], EmptyString)
            end) as [ids an].
  rewrite (recipients_loop_draw (manager r) fresh1 fresh2);
    [reflexivity|].
  apply Forall_forall. exact Hp.
Qed.

(** X8: in the table reached by any history of calls, the recipients
    of a sender do not depend on what a prefix draw would give: no
    prefix is drawn after a session has been created, so routing is a
    function of the table and the clock alone. *)
Theorem routing_draws_no_prefix
        (str_int : string -> option Z)
        (str_float : string -> option float)
        (calls : list call) (fresh1 fresh2 : Z -> string) (now : float)
        (ssrc : Z) :
  SessionManager.audio_recipients_for
    fresh1 now (manager (after str_int str_float calls)) ssrc
  = SessionManager.audio_recipients_for
      fresh2 now (manager (after str_int str_float calls)) ssrc.
Proof. apply audio_recipients_draw, after_well_formed. Qed.

Lemma manager_get (r : SessionStore.t) (key : Z) :
  SessionManager.get (manager r) key = base <$> SessionStore.get r key.
Proof.
  unfold SessionManager.get, SessionStore.get, manager. simpl.
  induction (by_ssrc r) as [|[k x] items IH]; [reflexivity|].
  simpl. destruct (k =? key); [reflexivity | exact IH].
Qed.

(** X9: after [drop(ssrc)] the key is gone, every other key holds what
    it held, the session's address is no longer listed, audio from the
    dropped ssrc reaches nobody and no sender reaches it. *)
Theorem drop_forgets (r : SessionStore.t) (ssrc other : Z)
        (fresh : Z -> string) (now : float) :
  SessionStore.get (SessionStore.drop r ssrc) ssrc = None
  /\ (forall k, k <> ssrc ->
                SessionStore.get (SessionStore.drop r ssrc) k
                = SessionStore.get r k)
  /\ (forall s, SessionStore.get r ssrc = Some s ->
                addr s ∉ by_addr (SessionStore.drop r ssrc))
  /\ SessionManager.audio_recipients_for
       fresh now (manager (SessionStore.drop r ssrc)) ssrc
     = ([], EmptyString, 0%nat, EmptyString)
  /\ Forall (fun rc : SessionManager.recipient => fst (fst rc) <> ssrc)
            (fst (fst (fst (SessionManager.audio_recipients_for
                              fresh now (manager (SessionStore.drop r ssrc))
                              other)))).
Proof.
  assert (Hgone : SessionStore.get (SessionStore.drop r ssrc) ssrc = None).
  { unfold SessionStore.drop.
    destruct (SessionStore.get r ssrc) eqn:Hg; [|exact Hg].
    apply store_get_None. simpl. intros Hin. apply remove_elem in Hin.
    tauto. }
  split; [exact Hgone|]. split; [|split; [|split]].
  - intros k Hk. unfold SessionStore.drop.
    destruct (SessionStore.get r ssrc); [|reflexivity].
    unfold SessionStore.get. simpl. rewrite remove_find by exact Hk.
    reflexivity.
  - intros s Hs. unfold SessionStore.drop. rewrite Hs. simpl.
    set_solver.
  - unfold SessionManager.audio_recipients_for.
    rewrite manager_get, Hgone. reflexivity.
  - pose proof (audio_recipients_range
                  fresh now (manager (SessionStore.drop r ssrc)) other) as H.
    eapply Forall_impl; [exact H|].
    intros rc [_ Hk] E. rewrite E, store_manager_keys in Hk.
    apply store_get_None in Hgone. contradiction.
Qed.

(** X10: a call that names an ssrc without a session changes nothing:
    only [upsert] creates sessions. [note_audio_for] still counts the
    frame, under the key [unknown], and leaves the sessions alone. *)
Theorem unknown_ssrc_ignored
        (str_int : string -> option Z)
        (str_float : string -> option float)
        (r : SessionStore.t) (ssrc : Z) (now now' : float)
        (active_idx freqs scan upd pos : Json.t) (on : bool)
        (freq : option Json.t) (info : meta) (nbytes : Z) :
  SessionStore.get r ssrc = None ->
  note_heartbeat now r ssrc = r
  /\ SessionStore.drop r ssrc = r
  /\ set_channel str_int str_float now r ssrc active_idx freqs scan = r
  /\ set_tx_state str_float now r ssrc on freq = r
  /\ note_ptt str_float now r ssrc on = r
  /\ note_chan_update str_int str_float now now' r ssrc upd = r
  /\ note_position now r ssrc pos = r
  /\ note_presence now r ssrc info = r
  /\ by_ssrc (note_audio_for now r ssrc nbytes) = by_ssrc r
  /\ freq_frames (note_audio_for now r ssrc nbytes)
     = bump "unknown" 1 (freq_frames r)
  /\ freq_bytes (note_audio_for now r ssrc nbytes)
     = bump "unknown" nbytes (freq_bytes r).
Proof.
  intros H.
  assert (Hs : set_channel str_int str_float now r ssrc active_idx freqs scan
               = r) by (unfold set_channel; rewrite H; reflexivity).
  unfold note_heartbeat, SessionStore.drop, set_tx_state, note_ptt,
    set_tx_state, note_position, note_presence, note_audio_for.
  rewrite !H.
  split; [reflexivity|]. split; [reflexivity|]. split; [exact Hs|].
  split; [reflexivity|]. split; [reflexivity|].
  split; [|repeat split; reflexivity].
  unfold note_chan_update. destruct upd; try reflexivity.
  unfold set_channel. rewrite !H.
  destruct (Json.get o "scan_channels") as [[]|]; reflexivity.
Qed.

Lemma fsub_self_not_late (x : float) : fltb (of_Z 15) (fsub x x) = false.
Proof.
  destruct x as [s | s | | s m e].
  - destruct s; reflexivity.
  - destruct s; reflexivity.
  - reflexivity.
  - unfold fsub, SFsub. rewrite Z.sub_diag. destruct s; reflexivity.
Qed.

Lemma touch_not_timed_out (now : float) (s : session) :
  SessionManager.timed_out now (base (touch now s)) = false.
Proof. unfold SessionManager.timed_out. simpl. apply fsub_self_not_late. Qed.

Lemma refreshed_twice now a m s :
  refreshed now a m (refreshed now a m s) = refreshed now a m s.
Proof.
  unfold refreshed.
  destruct s as [b ad cid nt tx ps]. destruct b.
  destruct m as [mc mn mt ml]. cbn [m_client_id m_nick m_net m_loopback].
  destruct ml, (truthy_str mc), (truthy_str mn), (truthy_str mt);
    reflexivity.
Qed.

Lemma update_twice (key : Z) (f : session -> session)
      (items : list (Z * session)) :
  (forall s, f (f s) = f s) ->
  update key f (update key f items) = update key f items.
Proof.
  intros Hf. unfold update. rewrite map_map. apply map_ext.
  intros [k s]. simpl. destruct (k =? key) eqn:E; simpl; rewrite E;
    [rewrite Hf|]; reflexivity.
Qed.

Lemma update_get_Some (r : SessionStore.t) (key : Z) (f : session -> session)
      (s : session) :
  SessionStore.get r key = Some s ->
  SessionStore.get (with_sessions r (update key f (by_ssrc r))) key
  = Some (f s).
Proof.
  unfold SessionStore.get. simpl. rewrite update_find. intros H.
  destruct (List.find (fun e => fst e =? key) (by_ssrc r)) as [[k x]|] eqn:Hf;
    [|discriminate].
  injection H as <-. apply find_some in Hf. destruct Hf as [_ He].
  simpl in *. rewrite He. reflexivity.
Qed.

Lemma update_get_other (r : SessionStore.t) (key k : Z)
      (f : session -> session) :
  k <> key ->
  SessionStore.get (with_sessions r (update key f (by_ssrc r))) k
  = SessionStore.get r k.
Proof.
  intros Hk. unfold SessionStore.get. simpl. rewrite update_find.
  destruct (List.find (fun e => fst e =? k) (by_ssrc r)) as [[k0 x]|] eqn:Hf;
    [|reflexivity].
  apply find_some in Hf. destruct Hf as [_ He]. simpl in *.
  apply Z.eqb_eq in He. subst k0.
  destruct (Z.eqb_spec k key); [contradiction | reflexivity].
Qed.

(** The three ways of [upsert]: the session found under the key, the
    session of the same client rebound to the key, a new session. *)
Lemma upsert_cases rnd now r a ssrc m :
  (exists s, SessionStore.get r ssrc = Some s
             /\ upsert rnd now r a ssrc m
                = with_sessions r (update ssrc (refreshed now a m) (by_ssrc r)))
  \/ (exists cid old s,
         SessionStore.get r ssrc = None
         /\ truthy_str (m_client_id m) = Some cid
         /\ List.find (same_client cid) (by_ssrc r) = Some (old, s)
         /\ old <> ssrc
         /\ upsert rnd now r a ssrc m
            = with_sessions r
                (update ssrc (refreshed now a m)
                        (remove old (by_ssrc r) ++ [(ssrc, s)])))
  \/ (SessionStore.get r ssrc = None
      /\ (forall cid, truthy_str (m_client_id m) = Some cid ->
                      List.find (same_client cid) (by_ssrc r) = None)
      /\ upsert rnd now r a ssrc m
         = mk (by_ssrc r
                 ++ [(ssrc,
                      touch now
                        (set_if (m_loopback m) set_loopback
                           (new_session rnd now a ssrc (m_client_id m)
                              (default EmptyString (m_nick m))
                              (default EmptyString (m_net m)))))])
              ({[a]} ∪ by_addr r) (freq_frames r) (freq_bytes r)
              (net_alias r) (auto_merge_by_freq r)).
Proof.
  unfold upsert.
  destruct (SessionStore.get r ssrc) as [s0|] eqn:Hget.
  - left. exists s0. split; reflexivity.
  - right.
    destruct (truthy_str (m_client_id m)) as [cid|] eqn:Hcid.
    + destruct (List.find (same_client cid) (by_ssrc r)) as [[old s]|]
        eqn:Hfind.
      * left. exists cid, old, s.
        assert (Hne : old <> ssrc).
        { intros ->. apply find_some in Hfind. destruct Hfind as [Hin _].
          apply store_get_None in Hget. apply Hget.
          apply list_elem_of_In in Hin.
          apply (list_elem_of_fmap_2 fst) in Hin. exact Hin. }
        destruct (Z.eqb_spec old ssrc) as [? | _]; [contradiction|].
        split; [reflexivity|]. split; [reflexivity|].
        split; [exact Hfind|]. split; [exact Hne|].
        unfold refreshed. rewrite Hcid. reflexivity.
      * right. split; [reflexivity|]. split; [|reflexivity].
        intros c Hc. injection Hc as <-. exact Hfind.
    + right. split; [reflexivity|]. split; [|reflexivity].
      intros c Hc. discriminate.
Qed.

Lemma get_after_append (r : SessionStore.t) (items : list (Z * session))
      (key : Z) (s : session) bad ff fb al au :
  key ∉ map fst items ->
  SessionStore.get (mk (items ++ [(key, s)]) bad ff fb al au) key = Some s.
Proof.
  intros Hk. unfold SessionStore.get. simpl. rewrite find_app_absent.
  destruct (List.find (fun e => fst e =? key) items) as [x|] eqn:Hf.
  - apply find_key_elem in Hf. destruct Hf as [_ Hin]. contradiction.
  - simpl. rewrite Z.eqb_refl. reflexivity.
Qed.

Lemma upsert_found rnd now r a ssrc m (s : session) :
  SessionStore.get r ssrc = Some s ->
  upsert rnd now r a ssrc m
  = with_sessions r (update ssrc (refreshed now a m) (by_ssrc r)).
Proof. intros H. unfold upsert. rewrite H. reflexivity. Qed.

Lemma update_absent (key : Z) (f : session -> session)
      (items : list (Z * session)) :
  key ∉ map fst items -> update key f items = items.
Proof.
  intros Hk. unfold update. rewrite <- (map_id items) at 2.
  apply map_ext_in. intros [k x] Hin. simpl.
  destruct (Z.eqb_spec k key) as [-> | _]; [|reflexivity].
  exfalso. apply Hk. apply list_elem_of_In in Hin.
  apply (list_elem_of_fmap_2 fst) in Hin. exact Hin.
Qed.

Lemma refreshed_new rnd now a ssrc m :
  refreshed now a m
    (touch now
       (set_if (m_loopback m) set_loopback
          (new_session rnd now a ssrc (m_client_id m)
             (default EmptyString (m_nick m))
             (default EmptyString (m_net m)))))
  = touch now
      (set_if (m_loopback m) set_loopback
         (new_session rnd now a ssrc (m_client_id m)
            (default EmptyString (m_nick m))
            (default EmptyString (m_net m)))).
Proof.
  unfold refreshed, truthy_str. destruct m as [mc mn mt ml]. simpl.
  destruct mc as [c|]; [destruct (String.eqb c EmptyString)|];
    (destruct mn as [n|]; [destruct (String.eqb n EmptyString)|]);
    (destruct mt as [t|]; [destruct (String.eqb t EmptyString)|]);
    destruct ml; reflexivity.
Qed.

Lemma remove_shorter (old : Z) (s : session) (items : list (Z * session)) :
  In (old, s) items -> (length (remove old items) < length items)%nat.
Proof.
  intros Hin. unfold remove.
  induction items as [|[k x] items IH]; [inversion Hin|].
  simpl. destruct (Z.eqb_spec k old) as [-> | Hne]; simpl.
  - pose proof (filter_length_le
                  (fun e : Z * session => negb (fst e =? old)) items).
    lia.
  - destruct Hin as [Heq | Hin]; [congruence|].
    specialize (IH Hin). lia.
Qed.

Lemma get_update_append (r : SessionStore.t) (items : list (Z * session))
      (key : Z) (f : session -> session) (s : session) :
  key ∉ map fst items ->
  SessionStore.get (with_sessions r (update key f (items ++ [(key, s)]))) key
  = Some (f s).
Proof.
  intros Hk. unfold SessionStore.get. simpl.
  rewrite update_find, find_app_absent.
  destruct (List.find (fun e => fst e =? key) items) as [x|] eqn:Hf.
  - apply find_key_elem in Hf. destruct Hf as [_ Hin]. contradiction.
  - cbn [fst]. rewrite Z.eqb_refl. cbn. rewrite Z.eqb_refl. reflexivity.
Qed.

(** X11: [upsert] leaves a session under the key, at the given
    address, seen at the given time and therefore not timed out at
    that time; the table grows by at most one session, and repeating
    the call changes nothing more. *)
Theorem upsert_registers rnd rnd' now r a ssrc m :
  (exists s,
      SessionStore.get (upsert rnd now r a ssrc m) ssrc = Some s
      /\ addr s = a
      /\ Session.last_seen (base s) = now
      /\ SessionManager.timed_out now (base s) = false)
  /\ (length (by_ssrc (upsert rnd now r a ssrc m))
      <= length (by_ssrc r) + 1)%nat
  /\ upsert rnd' now (upsert rnd now r a ssrc m) a ssrc m
     = upsert rnd now r a ssrc m.
Proof.
  assert (Hre : forall s, addr (refreshed now a m s) = a
                          /\ Session.last_seen (base (refreshed now a m s)) = now
                          /\ SessionManager.timed_out
                               now (base (refreshed now a m s)) = false).
  { intros s. split; [|split].
    - unfold refreshed. destruct (m_loopback m), (truthy_str (m_net m)),
        (truthy_str (m_nick m)), (truthy_str (m_client_id m)); reflexivity.
    - reflexivity.
    - apply touch_not_timed_out. }
  destruct (upsert_cases rnd now r a ssrc m)
    as [(s & Hget & ->) | [(cid & old & s & Hget & Hcid & Hfind & Hne & ->)
                          | (Hget & Hnone & ->)]].
  - (* found under the key *)
    pose proof (update_get_Some r ssrc (refreshed now a m) s Hget) as Hg.
    split; [|split].
    + exists (refreshed now a m s). split; [exact Hg | apply Hre].
    + simpl. unfold update. rewrite length_map. lia.
    + rewrite (upsert_found rnd' now _ a ssrc m _ Hg). simpl.
      rewrite update_twice by apply refreshed_twice. reflexivity.
  - (* rebound from the old key *)
    assert (Hk : ssrc ∉ map fst (remove old (by_ssrc r))).
    { intros Hin. apply remove_elem in Hin.
      apply store_get_None in Hget. tauto. }
    assert (Hg : SessionStore.get
                   (with_sessions r
                      (update ssrc (refreshed now a m)
                              (remove old (by_ssrc r) ++ [(ssrc, s)]))) ssrc
                 = Some (refreshed now a m s)).
    { apply get_update_append, Hk. }
    split; [|split].
    + exists (refreshed now a m s). split; [exact Hg | apply Hre].
    + simpl. unfold update. rewrite length_map, length_app. simpl.
      apply find_some in Hfind. destruct Hfind as [Hin _].
      pose proof (remove_shorter old s (by_ssrc r) Hin). lia.
    + rewrite (upsert_found rnd' now _ a ssrc m _ Hg). simpl.
      rewrite update_twice by apply refreshed_twice. reflexivity.
  - (* a new session *)
    apply store_get_None in Hget.
    set (s := touch now _).
    pose proof (get_after_append r (by_ssrc r) ssrc s ({[a]} ∪ by_addr r)
                  (freq_frames r) (freq_bytes r) (net_alias r)
                  (auto_merge_by_freq r) Hget) as Hg.
    split; [|split].
    + exists s. split; [exact Hg|]. split; [|split].
      * unfold s. destruct (m_loopback m); reflexivity.
      * reflexivity.
      * apply touch_not_timed_out.
    + simpl. rewrite length_app. simpl. lia.
    + rewrite (upsert_found rnd' now _ a ssrc m _ Hg). simpl.
      unfold with_sessions. simpl. f_equal.
      unfold update. rewrite map_app. simpl. rewrite Z.eqb_refl.
      fold (update ssrc (refreshed now a m) (by_ssrc r)).
      rewrite update_absent by exact Hget.
      unfold s. rewrite refreshed_new. reflexivity.
Qed.

(** X12: when no session is stored under the new ssrc but a session
    with the same non-empty client id is, [upsert] moves that session
    (the first such in insertion order) to the new key: the old key is
    gone, the table keeps its size, the other keys are untouched, and
    the session keeps its channel state and prefixes. Its own [ssrc]
    attribute still holds the number it was created with. *)
Theorem upsert_rebinds rnd now r a ssrc m (cid : string) (old : Z)
        (s : session) :
  NoDup (map fst (by_ssrc r)) ->
  SessionStore.get r ssrc = None ->
  truthy_str (m_client_id m) = Some cid ->
  List.find (same_client cid) (by_ssrc r) = Some (old, s) ->
  let r' := upsert rnd now r a ssrc m in
  SessionStore.get r' old = None
  /\ (exists s',
         SessionStore.get r' ssrc = Some s'
         /\ Session.freqs (base s') = Session.freqs (base s)
         /\ Session.active_channel (base s')
            = Session.active_channel (base s)
         /\ Session.scan_channels (base s')
            = Session.scan_channels (base s)
         /\ Session.net_prefixes (base s')
            = Session.net_prefixes (base s)
         /\ Session.ssrc (base s') = Session.ssrc (base s)
         /\ client_id s' = Some cid /\ addr s' = a)
  /\ length (by_ssrc r') = length (by_ssrc r)
  /\ forall k, k <> old -> k <> ssrc ->
               SessionStore.get r' k = SessionStore.get r k.
Proof.
  intros Hnd Hget Hcid Hfind r'.
  destruct (upsert_cases rnd now r a ssrc m)
    as [(s0 & Hget0 & _) | [(cid' & old' & s' & _ & Hcid' & Hfind' & Hne & E)
                           | (_ & Hnone & _)]].
  - rewrite Hget in Hget0. discriminate.
  - rewrite Hcid in Hcid'. injection Hcid' as <-.
    rewrite Hfind in Hfind'. injection Hfind' as <- <-.
    unfold r'. rewrite E. clear E r'.
    pose proof Hfind as Hin. apply find_some in Hin.
    destruct Hin as [Hin Hsame].
    assert (Hk : ssrc ∉ map fst (remove old (by_ssrc r))).
    { intros H. apply remove_elem in H.
      apply store_get_None in Hget. tauto. }
    split; [|split; [|split]].
    + apply store_get_None. simpl. rewrite update_keys, map_app. simpl.
      intros H. apply elem_of_app in H. destruct H as [H | H].
      * apply remove_elem in H. tauto.
      * apply list_elem_of_singleton in H. congruence.
    + exists (refreshed now a m s). split.
      * apply get_update_append, Hk.
      * unfold refreshed. rewrite Hcid.
        destruct (m_loopback m), (truthy_str (m_net m)),
          (truthy_str (m_nick m)); repeat split; reflexivity.
    + simpl. unfold update. rewrite length_map, length_app. simpl.
      assert (Hl : (length (remove old (by_ssrc r)) + 1
                    = length (by_ssrc r))%nat).
      { clear - Hnd Hin. unfold remove.
        induction (by_ssrc r) as [|[k x] items IH]; [inversion Hin|].
        simpl in *. apply NoDup_cons in Hnd. destruct Hnd as [Hk Hnd].
        destruct (Z.eqb_spec k old) as [-> | Hne]; simpl.
        - assert (Hall : List.filter
                           (fun e : Z * session => negb (fst e =? old)) items
                         = items).
          { apply forallb_filter_id, forallb_forall. intros [k' x'] Hin'.
            simpl. apply negb_true_iff, Z.eqb_neq. intros ->.
            apply Hk. apply list_elem_of_In in Hin'.
            apply (list_elem_of_fmap_2 fst) in Hin'. exact Hin'. }
          rewrite Hall. lia.
        - destruct Hin as [Heq | Hin]; [congruence|].
          specialize (IH Hnd Hin). lia. }
      lia.
    + intros k Hk1 Hk2. unfold SessionStore.get. simpl.
      rewrite update_find, find_app_absent, remove_find by exact Hk1.
      destruct (List.find (fun e => fst e =? k) (by_ssrc r)) as [[k0 x]|]
        eqn:Hf.
      * apply find_some in Hf. destruct Hf as [_ He]. simpl in *.
        apply Z.eqb_eq in He. subst k0.
        destruct (Z.eqb_spec k ssrc); [contradiction | reflexivity].
      * simpl. destruct (Z.eqb_spec ssrc k); [congruence | reflexivity].
  - rewrite (Hnone cid Hcid) in Hfind. discriminate.
Qed.

End Store.

(** ** The receive jitter buffer *)

Section Jitter.
Import PyFloat Numpy RadioApp RxQueue Playback.

Local Open Scope nat_scope.

Lemma drop_stale_suffix (stale now : float) (q : list entry) :
  exists k, drop_stale stale now q = drop k q.
Proof.
  induction q as [|e q [k IH]]; [exists 0; reflexivity|].
  simpl. destruct (fltb stale (fsub now (ts (item e)))).
  - exists (S k). exact IH.
  - exists 0. reflexivity.
Qed.

Lemma Forall_drop_stale (P : entry -> Prop) stale now (q : list entry) :
  Forall P q -> Forall P (drop_stale stale now q).
Proof.
  intros H. destruct (drop_stale_suffix stale now q) as [k ->].
  apply Forall_drop, H.
Qed.

Lemma length_drop_stale stale now (q : list entry) :
  length (drop_stale stale now q) <= length q.
Proof.
  destruct (drop_stale_suffix stale now q) as [k ->].
  rewrite length_drop. lia.
Qed.

Lemma append_sound (P : entry -> Prop) (q : list entry) (e : entry) :
  Forall P q -> P e -> length q <= 200 ->
  Forall P (append q e) /\ length (append q e) <= 200.
Proof.
  intros Hq He Hl. unfold append.
  destruct (Nat.leb_spec 200 (length q)).
  - split.
    + apply Forall_app. split; [apply Forall_drop, Hq|].
      apply Forall_singleton, He.
    + rewrite length_app, length_drop. simpl. lia.
  - split.
    + apply Forall_app. split; [exact Hq | apply Forall_singleton, He].
    + rewrite length_app. simpl. lia.
Qed.

Lemma normalize_length (resample : Z -> list f32 -> option (list f32))
      (rate : Z) (arr out : list f32) :
  normalize resample rate arr = Some out -> length out = AUDIO_BLOCK.
Proof.
  unfold normalize. intros H. apply bind_Some in H.
  destruct H as (arr' & _ & H). injection H as <-.
  unfold f32 in *.
  destruct (Nat.ltb_spec (length arr') AUDIO_BLOCK).
  - rewrite length_app, length_replicate. lia.
  - destruct (Nat.ltb_spec AUDIO_BLOCK (length arr')).
    + rewrite length_take. lia.
    + lia.
Qed.

Lemma scale_length (gain : float) (arr : list f32) :
  length (scale gain arr) = length arr.
Proof. unfold scale. apply length_map. Qed.

Lemma mix_items_block (a : RadioApp.t) (batch : list rx_item) :
  forall mix,
    length mix = AUDIO_BLOCK ->
    Forall (fun it => length (buf it) = AUDIO_BLOCK) batch ->
    exists out, mix_items a mix batch = Some out
                /\ length out = AUDIO_BLOCK.
Proof.
  induction batch as [|it batch IH]; intros mix Hm Hb.
  - exists mix. split; [reflexivity | exact Hm].
  - apply Forall_cons in Hb. destruct Hb as [Hit Hb].
    cbn [mix_items]. unfold mix_item.
    destruct (skipped a it).
    + apply IH; assumption.
    + unfold add_into. rewrite scale_length, Hit, Hm.
      rewrite Nat.ltb_irrefl.
      apply IH; [|exact Hb]. rewrite add_prefix_length. exact Hm.
Qed.

Lemma soft_limit_length (mix : list f32) :
  length (soft_limit mix) = length mix.
Proof.
  unfold soft_limit. destruct (SFltb _ _); [apply length_map | reflexivity].
Qed.

Lemma mix_batch_block (a : RadioApp.t) (batch : list rx_item) :
  Forall (fun it => length (buf it) = AUDIO_BLOCK) batch ->
  exists mix,
    mix_batch a batch = Some (set_repeat a (Some mix) 0, mix)
    /\ length mix = AUDIO_BLOCK.
Proof.
  intros Hb. unfold mix_batch.
  destruct (mix_items_block a batch (replicate AUDIO_BLOCK (S754_zero false)))
    as (out & Ho & Hl); [apply length_replicate | exact Hb |].
  rewrite Ho. exists (soft_limit out). split; [reflexivity|].
  rewrite soft_limit_length. exact Hl.
Qed.

Lemma collected_stop (first_ts : float) (q batch : list entry) :
  NoDup (map key batch) -> collected first_ts q batch [] [] q.
Proof.
  intros Hnd. unfold collected. rewrite !app_nil_r. simpl.
  split; [apply sublist_nil_l|]. split; [reflexivity|].
  split; [reflexivity|]. split; [exact Hnd|]. split; [lia|].
  split; constructor.
Qed.

Lemma collect_spec (first_ts : float) :
  forall q batch seen defer_same B D R,
    collect first_ts q batch seen defer_same = (B, D, R) ->
    (forall k, k ∈ seen <-> k ∈ map key batch) ->
    NoDup (map key batch) ->
    exists B' D',
      B = batch ++ B' /\ D = defer_same ++ D'
      /\ collected first_ts q batch B' D' R.
Proof.
  induction q as [|nxt rest IH]; intros batch seen defer_same B D R H Hseen Hnd.
  - simpl in H. injection H as <- <- <-. exists [], [].
    rewrite !app_nil_r. split; [reflexivity|]. split; [reflexivity|].
    apply collected_stop, Hnd.
  - cbn [collect] in H.
    destruct (Nat.ltb_spec (length batch) MAX_BATCH) as [Hlt | Hge].
    2:{ injection H as <- <- <-. exists [], [].
        rewrite !app_nil_r. split; [reflexivity|]. split; [reflexivity|].
        apply collected_stop, Hnd. }
    destruct (fltb f_0_050 (fsub (ts (item nxt)) first_ts)) eqn:Hw.
    { injection H as <- <- <-. exists [], [].
      rewrite !app_nil_r. split; [reflexivity|]. split; [reflexivity|].
      apply collected_stop, Hnd. }
    destruct (decide (key nxt ∈ seen)) as [Hin | Hnin].
    + destruct (IH _ _ _ _ _ _ H Hseen Hnd)
        as (B' & D' & -> & -> & HsB & HsD & Hp & HndB & Hlen & Hwin & Hd).
      exists B', (nxt :: D').
      split; [reflexivity|]. split; [rewrite <- app_assoc; reflexivity|].
      split; [apply sublist_cons, HsB|].
      split; [simpl; apply sublist_skip, HsD|].
      split.
      { rewrite <- Hp. simpl. symmetry. apply Permutation_middle. }
      split; [exact HndB|]. split; [exact Hlen|]. split.
      { apply Forall_app. apply Forall_app in Hwin. destruct Hwin as [H1 H2].
        split; [exact H1|]. apply Forall_cons. split; assumption. }
      apply Forall_cons. split; [|exact Hd].
      rewrite map_app. apply elem_of_app. left. apply Hseen, Hin.
    + assert (Hseen' : forall k, k ∈ {[key nxt]} ∪ seen
                                 <-> k ∈ map key (batch ++ [nxt])).
      { intros k. rewrite map_app, elem_of_app, elem_of_union, Hseen.
        simpl. rewrite list_elem_of_singleton, elem_of_singleton. tauto. }
      assert (Hnd' : NoDup (map key (batch ++ [nxt]))).
      { rewrite map_app. apply NoDup_app. split; [exact Hnd|]. split.
        - intros k Hk Hk'. simpl in Hk'. apply list_elem_of_singleton in Hk'.
          subst k. apply Hnin, Hseen, Hk.
        - simpl. apply NoDup_singleton. }
      destruct (IH _ _ _ _ _ _ H Hseen' Hnd')
        as (B' & D' & -> & -> & HsB & HsD & Hp & HndB & Hlen & Hwin & Hd).
      exists (nxt :: B'), D'.
      split; [rewrite <- app_assoc; reflexivity|]. split; [reflexivity|].
      split; [apply sublist_skip, HsB|].
      split; [apply sublist_cons, HsD|].
      split; [simpl; rewrite Hp; reflexivity|].
      rewrite <- app_assoc in HndB, Hlen, Hd. simpl in HndB, Hlen, Hd.
      split; [exact HndB|].
      split.
      { rewrite !length_app in *. simpl in *. unfold MAX_BATCH in *. lia. }
      split.
      { simpl. apply Forall_cons. split; assumption. }
      exact Hd.
Qed.

Lemma requeue_app (defer_same q : list entry) :
  length defer_same + length q <= 200 ->
  requeue defer_same q = defer_same ++ q.
Proof.
  induction defer_same as [|d ds IH]; intros Hl; [reflexivity|].
  simpl in *. rewrite IH by lia. unfold appendleft.
  destruct (Nat.leb_spec 200 (length (ds ++ q))) as [H|]; [|reflexivity].
  rewrite length_app in H. lia.
Qed.

Lemma fsub_self_in_window (x : float) : fltb f_0_050 (fsub x x) = false.
Proof.
  destruct x as [s | s | | s m e].
  - destruct s; reflexivity.
  - destruct s; reflexivity.
  - reflexivity.
  - unfold fsub, SFsub. rewrite Z.sub_diag. destruct s; reflexivity.
Qed.

Lemma sublist_Forall' {A : Type} (P : A -> Prop) (l1 l2 : list A) :
  sublist l1 l2 -> Forall P l2 -> Forall P l1.
Proof.
  induction 1 as [|x l1 l2 _ IH|x l1 l2 _ IH]; intros H.
  - constructor.
  - apply Forall_cons in H. destruct H as [Hx H].
    constructor; [exact Hx | apply IH, H].
  - apply Forall_cons in H. destruct H as [_ H]. apply IH, H.
Qed.

Lemma take_batch_collected (first : entry) (rest : list entry) :
  length (first :: rest) <= 200 ->
  exists B' D' R,
    take_batch (first :: rest) = Some (first :: B', D' ++ R)
    /\ collected (ts (item first)) rest [first] B' D' R.
Proof.
  intros Hl. unfold take_batch.
  destruct (collect (ts (item first)) rest [first] {[key first]} [])
    as [[B D] R] eqn:Hc.
  destruct (collect_spec _ _ _ _ _ _ _ _ Hc) as (B' & D' & -> & -> & Hcol).
  - intros k. simpl. rewrite list_elem_of_singleton, elem_of_singleton.
    tauto.
  - simpl. apply NoDup_singleton.
  - exists B', D', R. split; [|exact Hcol].
    simpl. f_equal. f_equal. apply requeue_app.
    destruct Hcol as (_ & Hs & _). apply sublist_length in Hs.
    rewrite length_app in Hs. simpl in Hl. lia.
Qed.

Lemma take_batch_parts (first : entry) (rest : list entry) :
  length (first :: rest) <= 200 ->
  exists batch q',
    take_batch (first :: rest) = Some (batch, q')
    /\ head batch = Some first
    /\ length batch <= MAX_BATCH
    /\ NoDup (map key batch)
    /\ Forall (fun e => fltb f_0_050
                             (fsub (ts (item e)) (ts (item first))) = false)
              batch
    /\ sublist batch (first :: rest)
    /\ sublist q' rest
    /\ batch ++ q' ≡ₚ first :: rest.
Proof.
  intros Hl.
  destruct (take_batch_collected first rest Hl)
    as (B' & D' & R & Ht & HsB & HsD & Hp & Hnd & Hlen & Hwin & Hd).
  exists (first :: B'), (D' ++ R).
  split; [exact Ht|]. split; [reflexivity|].
  split; [simpl in Hlen; unfold MAX_BATCH in *; simpl; lia|].
  split; [exact Hnd|]. split.
  { apply Forall_cons. split; [apply fsub_self_in_window|].
    apply Forall_app in Hwin. tauto. }
  split; [apply sublist_skip, HsB|]. split; [exact HsD|].
  simpl. apply Permutation_skip. exact Hp.
Qed.

(** X14: from a queue of at most 200 entries the dequeue step takes a
    batch that starts with the oldest entry, holds at most six entries,
    no two of them from the same sender, each at most 50 ms younger
    than the first; the batch and the queue left behind partition the
    queue, and both keep the entries in their original order, so the
    frames of a speaker that were passed over are played in order by
    the next calls. *)
Theorem take_batch_layers (first : entry) (rest : list entry) :
  length (first :: rest) <= 200 ->
  exists batch q',
    take_batch (first :: rest) = Some (batch, q')
    /\ head batch = Some first
    /\ length batch <= MAX_BATCH
    /\ NoDup (map key batch)
    /\ Forall (fun e => fltb f_0_050
                             (fsub (ts (item e)) (ts (item first))) = false)
              batch
    /\ sublist batch (first :: rest)
    /\ sublist q' rest
    /\ batch ++ q' ≡ₚ first :: rest.
Proof. exact (take_batch_parts first rest). Qed.

Lemma take_batch_layers_witness :
  exists batch q',
    take_batch [Entry 1 (Examples.frame 0); Entry 2 (Examples.frame 1)]
    = Some (batch, q')
    /\ head batch = Some (Entry 1 (Examples.frame 0))
    /\ length batch <= MAX_BATCH
    /\ NoDup (map key batch)
    /\ Forall (fun e =>
                 fltb f_0_050
                      (fsub (ts (item e))
                            (ts (item (Entry 1 (Examples.frame 0))))) = false)
              batch
    /\ sublist batch [Entry 1 (Examples.frame 0); Entry 2 (Examples.frame 1)]
    /\ sublist q' [Entry 2 (Examples.frame 1)]
    /\ batch ++ q'
       ≡ₚ [Entry 1 (Examples.frame 0); Entry 2 (Examples.frame 1)].
Proof.
  apply (take_batch_layers (Entry 1 (Examples.frame 0))
                           [Entry 2 (Examples.frame 1)]).
  simpl. lia.
Defined.

Lemma dequeue_sound (pow : float -> Z -> float) (now : float) (a : RadioApp.t) (j : RxQueue.t) :
  sound (a, j) ->
  sound (fst (_dequeue_rx_frame pow now a j))
  /\ match snd (_dequeue_rx_frame pow now a j) with
     | Some frame => length frame = AUDIO_BLOCK
     | None => True
     end
  /\ length (_rx_queue (snd (fst (_dequeue_rx_frame pow now a j))))
     <= length (_rx_queue j).
Proof.
  intros (Hq & Hl & Hc). simpl in Hq, Hl, Hc.
  unfold _dequeue_rx_frame, dequeue_head.
  destruct (_rx_queue j) as [|e0 q0] eqn:Eq.
  { simpl. rewrite Eq.
    split; [|split; [exact I | reflexivity]].
    split; [simpl; rewrite Eq; constructor|].
    split; [simpl; rewrite Eq; simpl; lia | exact Hc]. }
  rewrite <- Eq in *. clear Eq e0 q0.
  set (q := drop (length (drop_stale f_0_6 now (_rx_queue j)) - MAX_DEPTH)
                 (drop_stale f_0_6 now (_rx_queue j))).
  assert (Hq' : Forall (fun e => length (buf (item e)) = AUDIO_BLOCK) q).
  { unfold q. apply Forall_drop, Forall_drop_stale, Hq. }
  assert (Hl' : length q <= length (_rx_queue j)).
  { unfold q. rewrite length_drop.
    pose proof (length_drop_stale f_0_6 now (_rx_queue j)). lia. }
  assert (Hrep : forall limit base,
             match repeat_last pow a limit base with
             | Some (a', frame) =>
                 length frame = AUDIO_BLOCK
                 /\ match _rx_last_frame a' with
                    | Some last => length last = AUDIO_BLOCK
                    | None => True
                    end
             | None => True
             end).
  { intros limit base. unfold repeat_last.
    destruct (_rx_last_frame a) as [last|]; [|exact I].
    destruct (_rx_last_repeat a <? limit)%Z; [|exact I].
    simpl. rewrite scale_length. split; exact Hc. }
  assert (Hbatch : forall started,
             let out :=
               match
                 match take_batch q with
                 | Some (batch, q') => (a, RxQueue.mk q' started, Batch batch)
                 | None => (a, RxQueue.mk q started, Return None)
                 end
               with
               | (a1, j1, Return frame) => (a1, j1, frame)
               | (a1, j1, Batch batch) =>
                   match mix_batch a1 (map item batch) with
                   | Some (a', mix) => (a', j1, Some mix)
                   | None => (a1, j1, None)
                   end
               end in
             sound (fst out)
             /\ match snd out with
                | Some frame => length frame = AUDIO_BLOCK
                | None => True
                end
             /\ length (_rx_queue (snd (fst out))) <= length (_rx_queue j)).
  { intros started. destruct q as [|first rest] eqn:Eq.
    - simpl. split; [|split; [exact I | lia]].
      split; [constructor|]. split; [simpl; lia | exact Hc].
    - destruct (take_batch_parts first rest) as
        (batch & q' & Ht & _ & _ & _ & _ & HsB & HsQ & _);
        [simpl in *; lia|].
      rewrite Ht. cbv zeta.
      destruct (mix_batch_block a (map item batch)) as (mix & Hm & Hlm).
      { apply Forall_fmap. eapply sublist_Forall'; [exact HsB | exact Hq']. }
      rewrite Hm. simpl.
      apply Forall_cons in Hq'. destruct Hq' as [_ Hrest].
      pose proof (sublist_length _ _ HsQ). simpl in Hl'.
      split; [|split; [exact Hlm | lia]].
      split; [|split; [simpl; lia | exact Hlm]].
      eapply sublist_Forall'; [exact HsQ | exact Hrest]. }
  destruct (_rx_started j); cbn [negb].
  - destruct (Nat.ltb_spec (length q) 2).
    + specialize (Hrep 3%Z f_0_5).
      destruct (repeat_last pow a 3 f_0_5) as [[a' frame]|].
      * destruct Hrep as [Hf Hc']. simpl.
        split; [|split; [exact Hf | exact Hl']].
        split; [exact Hq'|]. split; [simpl; lia | exact Hc'].
      * cbn [fst snd]. split; [|split; [apply length_replicate | exact Hl']].
        split; [exact Hq'|]. split; [simpl; lia | exact I].
    + apply Hbatch.
  - destruct (Nat.ltb_spec (length q) TARGET_DEPTH).
    + specialize (Hrep 2%Z f_0_6).
      destruct (repeat_last pow a 2 f_0_6) as [[a' frame]|].
      * destruct Hrep as [Hf Hc']. simpl.
        split; [|split; [exact Hf | exact Hl']].
        split; [exact Hq'|]. split; [simpl; lia | exact Hc'].
      * simpl. split; [|split; [exact I | exact Hl']].
        split; [exact Hq'|]. split; [simpl; lia | exact Hc].
    + apply Hbatch.
Qed.

Lemma run_sound (resample : Z -> list f32 -> option (list f32))
      (pow : float -> Z -> float)
      (st : RadioApp.t * RxQueue.t) (c : call) :
  sound st -> sound (run resample pow st c).
Proof.
  destruct st as [a j]. intros Hs.
  destruct c as [now new_oid b rate chan_idx src_ssrc | now
                | active scans scan_d vols vol_d |]; simpl.
  - destruct Hs as (Hq & Hl & Hc). simpl in *.
    unfold _enqueue_rx_frame.
    destruct (normalize resample rate b) as [arr|] eqn:Hn;
      [|split; [exact Hq | split; [exact Hl | exact Hc]]].
    apply normalize_length in Hn.
    destruct (append_sound
                (fun e => length (buf (item e)) = AUDIO_BLOCK)
                (drop_stale f_0_7 now (_rx_queue j))
                (Entry new_oid (RxItem arr chan_idx src_ssrc now)))
      as [H1 H2].
    + apply Forall_drop_stale, Hq.
    + exact Hn.
    + pose proof (length_drop_stale f_0_7 now (_rx_queue j)). lia.
    + split; [exact H1 | split; [exact H2 | exact Hc]].
  - apply dequeue_sound, Hs.
  - exact Hs.
  - destruct Hs as (_ & _ & Hc). split; [constructor|].
    split; [simpl; lia | exact Hc].
Qed.

Lemma after_sound (resample : Z -> list f32 -> option (list f32))
      (pow : float -> Z -> float)
      (a0 : RadioApp.t) (calls : list call) :
  sound (after resample pow a0 calls).
Proof.
  unfold after.
  assert (H : forall st, sound st ->
                         sound (fold_left (run resample pow) calls st)).
  { induction calls as [|c calls IH]; intros st Hs; [exact Hs|].
    simpl. apply IH, run_sound, Hs. }
  apply H. split; [constructor|]. split; [simpl; lia | exact I].
Qed.

(** X13: whatever frames arrive (of any length and rate), whatever the
    user sets and whenever the audio loop asks, every queued frame and
    the cached one have exactly [AUDIO_BLOCK] samples and the queue
    holds at most 200 entries; a frame handed to the audio loop has
    exactly [AUDIO_BLOCK] samples. *)
Theorem playback_frames_block
        (resample : Z -> list f32 -> option (list f32))
        (pow : float -> Z -> float)
        (a0 : RadioApp.t) (calls : list call) (now : float) :
  sound (after resample pow a0 calls)
  /\ match snd (_dequeue_rx_frame pow now
                                  (fst (after resample pow a0 calls))
                                  (snd (after resample pow a0 calls))) with
     | Some frame => length frame = AUDIO_BLOCK
     | None => True
     end.
Proof.
  pose proof (after_sound resample pow a0 calls) as Hs. split; [exact Hs|].
  destruct (after resample pow a0 calls) as [a j].
  apply (dequeue_sound pow now a j Hs).
Qed.

End Jitter.

(** ** Channel volume *)

Section Volume.
Import PyFloat RadioApp Notions.

(** The volume steps: [_snap_10 v] is ten times a step between 0 and
    10, and the step grows with [v]. *)
Lemma snap_10_step (v : Z) :
  _snap_10 v = 10 * Z.max 0 (Z.min 10 (v / 10)).
Proof. unfold _snap_10. lia. Qed.

(** X15: [_snap_10] rounds a percentage down to a multiple of ten
    within 0..100 (59 gives 50), is idempotent and monotone;
    [_snap_10_min30] does the same within 30..100. *)
Theorem snap_10_floor (v w : Z) :
  (0 <= _snap_10 v <= 100 /\ _snap_10 v mod 10 = 0)
  /\ _snap_10 (_snap_10 v) = _snap_10 v
  /\ (0 <= v <= 100 -> _snap_10 v <= v < _snap_10 v + 10)
  /\ (v <= w -> _snap_10 v <= _snap_10 w)
  /\ (30 <= _snap_10_min30 v <= 100 /\ _snap_10_min30 v mod 10 = 0)
  /\ (30 <= v <= 100 -> _snap_10_min30 v = _snap_10 v).
Proof.
  unfold _snap_10_min30. rewrite !snap_10_step.
  pose proof (Z.div_mod v 10 ltac:(lia)) as Hv.
  pose proof (Z.mod_pos_bound v 10 ltac:(lia)) as Hr.
  set (k := Z.max 0 (Z.min 10 (v / 10))).
  assert (Hk : 0 <= k <= 10) by (unfold k; lia).
  split; [split; [lia|]|].
  { rewrite Z.mul_comm. apply Z.mod_mul. lia. }
  split.
  { replace (10 * k / 10) with k
      by (rewrite (Z.mul_comm 10 k), Z.div_mul; lia).
    lia. }
  split; [unfold k; lia|].
  split.
  { intros Hvw. pose proof (Z.div_le_mono v w 10 ltac:(lia) Hvw). lia. }
  split.
  { split; [lia|].
    destruct (Z.max_spec 30 (10 * k)) as [[_ ->] | [_ ->]].
    - rewrite Z.mul_comm. apply Z.mod_mul. lia.
    - reflexivity. }
  intros Hv30. unfold k. lia.
Qed.

Lemma step_gain_sorted (k k' : Z) :
  0 <= k <= 10 -> 0 <= k' <= 10 -> k <= k' ->
  fleb (step_gain k) (step_gain k') = true.
Proof.
  intros Hk Hk' Hle.
  assert (E : k = 0 \/ k = 1 \/ k = 2 \/ k = 3 \/ k = 4 \/ k = 5 \/ k = 6
              \/ k = 7 \/ k = 8 \/ k = 9 \/ k = 10) by lia.
  assert (E' : k' = 0 \/ k' = 1 \/ k' = 2 \/ k' = 3 \/ k' = 4 \/ k' = 5
               \/ k' = 6 \/ k' = 7 \/ k' = 8 \/ k' = 9 \/ k' = 10) by lia.
  clear Hk Hk'.
  repeat (destruct E as [-> | E]);
    repeat (destruct E' as [-> | E']); subst;
    first [ lia | vm_compute; reflexivity ].
Qed.

Lemma gain_at_step (v : Z) :
  gain_at v = step_gain (Z.max 0 (Z.min 10 (v / 10))).
Proof. unfold gain_at, step_gain. rewrite snap_10_step. reflexivity. Qed.

Lemma gain_d_at_step (v : Z) :
  gain_d_at v = step_gain (Z.max 3 (Z.min 10 (v / 10))).
Proof.
  unfold gain_d_at, step_gain, _snap_10_min30. rewrite snap_10_step.
  f_equal. lia.
Qed.

Lemma step_gain_anchors :
  step_gain 0 = of_Z 0 /\ step_gain 5 = of_Z 1 /\ step_gain 10 = of_Z 2
  /\ fleb RxQueue.f_0_6 (step_gain 3) = true.
Proof. repeat split; vm_compute; reflexivity. Qed.

Lemma step_gain_floor_d (k : Z) :
  3 <= k <= 10 -> fleb RxQueue.f_0_6 (step_gain k) = true.
Proof.
  intros Hk.
  assert (E : k = 3 \/ k = 4 \/ k = 5 \/ k = 6 \/ k = 7 \/ k = 8 \/ k = 9
              \/ k = 10) by lia.
  repeat (destruct E as [-> | E]); subst; vm_compute; reflexivity.
Qed.

Lemma gain_bounds (v : Z) :
  fleb (of_Z 0) (gain_at v) = true /\ fleb (gain_at v) (of_Z 2) = true
  /\ fleb (of_Z 0) (gain_d_at v) = true
  /\ fleb RxQueue.f_0_6 (gain_d_at v) = true
  /\ fleb (gain_d_at v) (of_Z 2) = true.
Proof.
  rewrite !gain_at_step, !gain_d_at_step.
  destruct step_gain_anchors as (H0 & _ & H2 & _).
  split; [rewrite <- H0; apply step_gain_sorted; lia|].
  split; [rewrite <- H2; apply step_gain_sorted; lia|].
  split; [rewrite <- H0; apply step_gain_sorted; lia|].
  split; [apply step_gain_floor_d; lia|].
  rewrite <- H2; apply step_gain_sorted; lia.
Qed.

(** X16: the gain of a channel grows with its volume setting and lies
    between 0 and 2: it is 0 below 10 percent, 1 at 50 and 2 from 100
    on; the gain of channel D is never below 0.6. *)
Theorem gain_scale (v w : Z) :
  (v <= w -> fleb (gain_at v) (gain_at w) = true)
  /\ fleb (of_Z 0) (gain_at v) = true
  /\ fleb (gain_at v) (of_Z 2) = true
  /\ (v < 10 -> gain_at v = of_Z 0)
  /\ (50 <= v < 60 -> gain_at v = of_Z 1)
  /\ (100 <= v -> gain_at v = of_Z 2)
  /\ (v <= w -> fleb (gain_d_at v) (gain_d_at w) = true)
  /\ fleb RxQueue.f_0_6 (gain_d_at v) = true
  /\ fleb (gain_d_at v) (of_Z 2) = true.
Proof.
  destruct (gain_bounds v) as (B0 & B2 & _ & D6 & D2).
  destruct step_gain_anchors as (H0 & H1 & H2 & _).
  pose proof (Z.div_mod v 10 ltac:(lia)) as Hv.
  pose proof (Z.mod_pos_bound v 10 ltac:(lia)) as Hr.
  split.
  { intros Hvw. pose proof (Z.div_le_mono v w 10 ltac:(lia) Hvw).
    rewrite !gain_at_step. apply step_gain_sorted; lia. }
  split; [exact B0|]. split; [exact B2|].
  split.
  { intros Hlt. rewrite gain_at_step, <- H0. f_equal. lia. }
  split.
  { intros Hlt. rewrite gain_at_step, <- H1. f_equal. lia. }
  split.
  { intros Hlt. rewrite gain_at_step, <- H2. f_equal. lia. }
  split.
  { intros Hvw. pose proof (Z.div_le_mono v w 10 ltac:(lia) Hvw).
    rewrite !gain_d_at_step. apply step_gain_sorted; lia. }
  split; [exact D6 | exact D2].
Qed.

(** X17: whatever the channel tag of a frame and whatever the user has
    set, the gain the mix applies to it lies between 0 and 2; a frame
    tagged with channel D is never scaled below 0.6. *)
Theorem item_gain_range (a : RadioApp.t) (it : rx_item) :
  fleb (of_Z 0) (item_gain a it) = true
  /\ fleb (item_gain a it) (of_Z 2) = true
  /\ (chan_idx it = Some 3 -> fleb RxQueue.f_0_6 (item_gain a it) = true).
Proof.
  assert (Hone : fleb (of_Z 0) (of_Z 1) = true /\ fleb (of_Z 1) (of_Z 2) = true)
    by (split; vm_compute; reflexivity).
  assert (Hvol : forall idx,
             fleb (of_Z 0) (default (of_Z 1) (get_channel_volume a idx)) = true
             /\ fleb (default (of_Z 1) (get_channel_volume a idx)) (of_Z 2)
                = true
             /\ (idx = 3 ->
                 fleb RxQueue.f_0_6
                      (default (of_Z 1) (get_channel_volume a idx)) = true)).
  { intros idx. unfold get_channel_volume.
    destruct ((0 <=? idx) && (idx <? 3)) eqn:Hr.
    - assert (Hne : idx <> 3) by lia.
      destruct (chan_vol_vars a !! Z.to_nat idx) as [v|]; simpl.
      + fold (gain_at v). destruct (gain_bounds v) as (G0 & G2 & _).
        split; [exact G0|]. split; [exact G2|]. intros E. contradiction.
      + split; [tauto|]. split; [tauto|]. intros E. contradiction.
    - destruct (Z.eqb_spec idx 3) as [-> | Hne]; simpl.
      + fold (gain_d_at (chan_d_vol_var a)).
        destruct (gain_bounds (chan_d_vol_var a)) as (_ & _ & D0 & D6 & D2).
        split; [exact D0|]. split; [exact D2|]. intros _. exact D6.
      + split; [tauto|]. split; [tauto|]. intros E. contradiction. }
  unfold item_gain. destruct (chan_idx it) as [c|].
  - destruct (Hvol c) as (A & B & C). split; [exact A|]. split; [exact B|].
    intros E. injection E as ->. apply C. reflexivity.
  - destruct (Hvol (active_chan a)) as (A & B & _).
    split; [exact A|]. split; [exact B|]. intros E. discriminate.
Qed.

End Volume.

(** ** The raw-PCM codec of the server *)

Section Codec.
Import Numpy OpusDecoder OpusEncoder.

Lemma word_fields (S E M : Z) :
  0 <= S <= 1 -> 0 <= E < 256 -> 0 <= M < 2 ^ 23 ->
  Z.testbit (S * 2 ^ 31 + E * 2 ^ 23 + M) 31 = (S =? 1)
  /\ Z.land (Z.shiftr (S * 2 ^ 31 + E * 2 ^ 23 + M) 23) 255 = E
  /\ Z.land (S * 2 ^ 31 + E * 2 ^ 23 + M) (2 ^ 23 - 1) = M.
Proof.
  intros HS HE HM.
  change (2 ^ 31) with 2147483648 in *. change (2 ^ 23) with 8388608 in *.
  set (w := S * 2147483648 + E * 8388608 + M).
  split; [|split].
  - rewrite Z.testbit_odd, Z.shiftr_div_pow2 by lia.
    change (2 ^ 31) with 2147483648.
    replace (w / 2147483648) with S
      by (apply Z.div_unique with (E * 8388608 + M); unfold w; lia).
    assert (HS' : S = 0 \/ S = 1) by lia.
    destruct HS' as [-> | ->]; reflexivity.
  - rewrite Z.shiftr_div_pow2 by lia. change (2 ^ 23) with 8388608.
    replace (w / 8388608) with (S * 256 + E)
      by (apply Z.div_unique with M; unfold w; lia).
    change 255 with (Z.ones 8). rewrite Z.land_ones by lia.
    change (2 ^ 8) with 256.
    symmetry. apply Z.mod_unique with S; lia.
  - change (8388608 - 1) with (Z.ones 23). rewrite Z.land_ones by lia.
    change (2 ^ 23) with 8388608.
    symmetry. apply Z.mod_unique with (S * 256 + E); unfold w; lia.
Qed.

Lemma sign_bit_eq (s : bool) :
  sign_bit s = (if s then 1 else 0) * 2 ^ 31
  /\ ((if s then 1 else 0) =? 1) = s.
Proof. destruct s; split; reflexivity. Qed.

(** The canonical form of a valid binary32 number. *)
Lemma valid_f32_shape (s : bool) (m : positive) (e : Z) :
  valid_binary 24 128 (S754_finite s m e) = true ->
  (Zpos m < 2 ^ 23 /\ e = -149)
  \/ (2 ^ 23 <= Zpos m < 2 ^ 24 /\ -149 <= e <= 104).
Proof.
  unfold valid_binary, bounded, canonical_mantissa, fexp, emin.
  intros H. apply andb_prop in H. destruct H as [Hc He].
  apply Z.eqb_eq in Hc. apply Z.leb_le in He.
  pose proof (digits2_pos_upper m) as Hup.
  pose proof (digits2_pos_lower m) as Hlow.
  set (d := Zpos (digits2_pos m)) in *.
  assert (Hd : 1 <= d) by (unfold d; lia).
  destruct (Z_lt_le_dec (Zpos m) (2 ^ 23)) as [Hsmall | Hbig].
  - left. split; [exact Hsmall|].
    assert (d <= 23).
    { destruct (Z_lt_le_dec 23 d) as [Hgt|]; [|assumption].
      assert (2 ^ 23 <= 2 ^ (d - 1)) by (apply Z.pow_le_mono_r; lia).
      lia. }
    lia.
  - right.
    assert (23 < d).
    { destruct (Z_lt_le_dec 23 d) as [|Hle]; [assumption|].
      assert (2 ^ d <= 2 ^ 23) by (apply Z.pow_le_mono_r; lia).
      lia. }
    assert (d = 24) by lia.
    assert (Hm : Zpos m < 2 ^ 24) by (replace 24 with d by lia; exact Hup).
    lia.
Qed.

Lemma f32_bits_round_trip (nan : Z) (x : f32) :
  valid_binary 24 128 x = true ->
  f32_of_bits nan = S754_nan ->
  f32_of_bits (f32_bits nan x) = x.
Proof.
  intros Hv Hnan. destruct x as [s | s | | s m e].
  - destruct s; reflexivity.
  - destruct s; reflexivity.
  - exact Hnan.
  - cbn [f32_bits]. destruct (sign_bit_eq s) as [Hs Hs1]. rewrite Hs.
    change (2 ^ 23) with 8388608 in *. change (2 ^ 31) with 2147483648 in *.
    destruct (valid_f32_shape s m e Hv) as [[Hm ->] | [Hm He]];
      change (2 ^ 23) with 8388608 in Hm; change (2 ^ 24) with 16777216 in Hm.
    + destruct (Z.ltb_spec (Zpos m) 8388608) as [_ | ?]; [|lia].
      destruct (word_fields (if s then 1 else 0) 0 (Zpos m))
        as (Ht & Hexp & Hman);
        [destruct s; lia | lia | change (2 ^ 23) with 8388608; lia |].
      change (2 ^ 31) with 2147483648 in *.
      change (2 ^ 23) with 8388608 in *.
      replace ((if s then 1 else 0) * 2147483648 + Z.pos m)
        with ((if s then 1 else 0) * 2147483648 + 0 * 8388608 + Z.pos m)
        by lia.
      unfold f32_of_bits. change (2 ^ 23) with 8388608.
      rewrite Ht, Hexp, Hman, Hs1. reflexivity.
    + destruct (Z.ltb_spec (Zpos m) 8388608) as [? | _]; [lia|].
      destruct (word_fields (if s then 1 else 0) (e + 150) (Zpos m - 8388608))
        as (Ht & Hexp & Hman);
        [destruct s; lia | lia | change (2 ^ 23) with 8388608; lia |].
      change (2 ^ 31) with 2147483648 in *.
      change (2 ^ 23) with 8388608 in *.
      replace ((if s then 1 else 0) * 2147483648
               + ((e + 150) * 8388608 + (Z.pos m - 8388608)))
        with ((if s then 1 else 0) * 2147483648 + (e + 150) * 8388608
              + (Z.pos m - 8388608)) by lia.
      unfold f32_of_bits. change (2 ^ 23) with 8388608.
      rewrite Ht, Hexp, Hman, Hs1.
      destruct (Z.eqb_spec (e + 150) 0) as [? | _]; [lia|].
      destruct (Z.eqb_spec (e + 150) 255) as [? | _]; [lia|].
      replace (Z.pos m - 8388608 + 8388608) with (Zpos m) by lia.
      replace (e + 150 - 150) with e by lia. reflexivity.
Qed.

Lemma f32_bits_range (nan : Z) (x : f32) :
  valid_binary 24 128 x = true -> 0 <= nan < 2 ^ 32 ->
  0 <= f32_bits nan x < 2 ^ 32.
Proof.
  intros Hv Hnan. change (2 ^ 32) with 4294967296 in *.
  destruct x as [s | s | | s m e]; cbn [f32_bits].
  - destruct s; simpl; lia.
  - destruct s; simpl; lia.
  - exact Hnan.
  - destruct (valid_f32_shape s m e Hv) as [[Hm ->] | [Hm He]];
      change (2 ^ 23) with 8388608 in *; change (2 ^ 24) with 16777216 in *.
    + destruct (Z.ltb_spec (Zpos m) 8388608) as [_ | ?]; [|lia].
      destruct s; simpl; lia.
    + destruct (Z.ltb_spec (Zpos m) 8388608) as [? | _]; [lia|].
      destruct s; simpl; lia.
Qed.

Lemma frombuffer_f4_word (w : Z) (rest : list byte) :
  0 <= w < 2 ^ 32 ->
  frombuffer_f4 (le_bytes 4 w ++ rest) = f32_of_bits w :: frombuffer_f4 rest.
Proof.
  intros Hw. change (2 ^ 32) with 4294967296 in Hw.
  cbn [le_bytes app frombuffer_f4]. rewrite !byte_val_of. f_equal. f_equal.
  pose proof (Z.div_mod w 256 ltac:(lia)).
  pose proof (Z.div_mod (w / 256) 256 ltac:(lia)).
  pose proof (Z.div_mod (w / 256 / 256) 256 ltac:(lia)).
  pose proof (Z.mod_pos_bound w 256 ltac:(lia)).
  pose proof (Z.mod_pos_bound (w / 256) 256 ltac:(lia)).
  pose proof (Z.mod_pos_bound (w / 256 / 256) 256 ltac:(lia)).
  assert (0 <= w / 256 / 256 / 256 < 256).
  { split; [repeat apply Z.div_pos; lia|].
    repeat (apply Z.div_lt_upper_bound; [lia|]). lia. }
  rewrite (Z.mod_small (w / 256 / 256 / 256) 256) by lia.
  pose proof (Z.div_mod (w / 256 / 256) 256 ltac:(lia)). lia.
Qed.

Lemma frombuffer_i2_word (v : Z) (rest : list byte) :
  -32768 <= v < 32768 ->
  frombuffer_i2 (le_bytes 2 (v mod 65536) ++ rest) = v :: frombuffer_i2 rest.
Proof.
  intros Hv. cbn [le_bytes app frombuffer_i2]. rewrite !byte_val_of.
  f_equal.
  set (u := v mod 65536).
  assert (Hu : 0 <= u < 65536) by (apply Z.mod_pos_bound; lia).
  assert (Hsum : u mod 256 + 256 * (u / 256 mod 256) = u).
  { pose proof (Z.div_mod u 256 ltac:(lia)).
    assert (0 <= u / 256 < 256).
    { split; [apply Z.div_pos; lia|].
      apply Z.div_lt_upper_bound; lia. }
    rewrite (Z.mod_small (u / 256) 256) by lia. lia. }
  rewrite Hsum.
  destruct (Z_lt_le_dec v 0) as [Hneg | Hpos].
  - assert (u = v + 65536).
    { unfold u. symmetry. apply Z.mod_unique with (-1); lia. }
    destruct (Z.leb_spec 32768 u); lia.
  - assert (u = v) by (unfold u; apply Z.mod_small; lia).
    destruct (Z.leb_spec 32768 u); lia.
Qed.

Lemma clip_valid (x : f32) :
  valid_binary 24 128 x = true -> valid_binary 24 128 (clip x) = true.
Proof.
  intros Hv. unfold clip. destruct x as [s | s | | s m e].
  - destruct s; reflexivity.
  - destruct s; reflexivity.
  - reflexivity.
  - destruct (SFltb _ _); [reflexivity|].
    destruct (SFltb _ _); [reflexivity | exact Hv].
Qed.

Lemma clip_twice (x : f32) : clip (clip x) = clip x.
Proof.
  destruct x as [s | s | | s m e].
  - destruct s; reflexivity.
  - destruct s; reflexivity.
  - reflexivity.
  - assert (E : clip (S754_finite s m e)
                = if SFltb (S754_finite s m e) (f32_of_Z (-1))
                  then f32_of_Z (-1)
                  else if SFltb (f32_of_Z 1) (S754_finite s m e)
                       then f32_of_Z 1
                       else S754_finite s m e) by reflexivity.
    destruct (SFltb (S754_finite s m e) (f32_of_Z (-1))) eqn:Hlo.
    + rewrite E. reflexivity.
    + destruct (SFltb (f32_of_Z 1) (S754_finite s m e)) eqn:Hhi.
      * rewrite E. reflexivity.
      * rewrite E. exact E.
Qed.

Lemma le_bytes_length (n : nat) (w : Z) : length (le_bytes n w) = n.
Proof.
  revert w. induction n as [|n IH]; intros w; simpl; [reflexivity|].
  rewrite IH. reflexivity.
Qed.

Lemma tobytes_f4_decoded (a : list f32) :
  forall nan : nat -> Z,
    Forall (fun x => valid_binary 24 128 x = true) a ->
    (forall i, 0 <= nan i < 2 ^ 32 /\ f32_of_bits (nan i) = S754_nan) ->
    frombuffer_f4 (tobytes_f4 nan a) = a
    /\ length (tobytes_f4 nan a) = (4 * length a)%nat.
Proof.
  induction a as [|x a IH]; intros nan Hv Hnan; [split; reflexivity|].
  apply Forall_cons in Hv. destruct Hv as [Hx Hv].
  unfold tobytes_f4. cbn [imap concat].
  destruct (IH (fun i => nan (S i)) Hv (fun i => Hnan (S i))) as [IH1 IH2].
  unfold tobytes_f4 in IH1, IH2. split.
  - rewrite frombuffer_f4_word
      by (apply f32_bits_range; [exact Hx | apply Hnan]).
    rewrite f32_bits_round_trip by (exact Hx || apply Hnan).
    f_equal. exact IH1.
  - rewrite length_app, le_bytes_length. unfold compose in IH2 |- *.
    rewrite IH2. simpl. lia.
Qed.

Lemma tobytes_i2_decoded (a : list Z) :
  Forall (fun v => -32768 <= v < 32768) a ->
  frombuffer_i2 (tobytes_i2 a) = a
  /\ length (tobytes_i2 a) = (2 * length a)%nat.
Proof.
  induction a as [|v a IH]; intros Hv; [split; reflexivity|].
  apply Forall_cons in Hv. destruct Hv as [Hx Hv].
  destruct (IH Hv) as [IH1 IH2].
  unfold tobytes_i2 in *. cbn [map concat]. split.
  - rewrite frombuffer_i2_word by exact Hx. f_equal. exact IH1.
  - rewrite length_app, le_bytes_length, IH2. simpl. lia.
Qed.

Lemma decode_f4_mono (data : list byte) :
  decode_f4 1 data = map clip (frombuffer_f4 data).
Proof. reflexivity. Qed.

Lemma decode_i2_mono (data : list byte) :
  decode_i2 1 data = i16_to_unit (frombuffer_i2 data).
Proof. reflexivity. Qed.

Lemma decode_aligned_4 (channels : Z) (data : list byte) :
  data <> [] -> Z.of_nat (length data) mod 4 = 0 ->
  decode_to_float32 channels data = Some (decode_f4 channels data).
Proof.
  intros Hd Hn. unfold decode_to_float32.
  destruct data as [|b data]; [contradiction|].
  rewrite Hn. reflexivity.
Qed.

Lemma decode_aligned_2 (channels : Z) (data : list byte) :
  Z.of_nat (length data) mod 4 = 2 ->
  decode_to_float32 channels data = Some (decode_i2 channels data).
Proof.
  intros Hn. unfold decode_to_float32.
  destruct data as [|b data]; [simpl in Hn; discriminate|].
  rewrite Hn. cbn [Z.eqb].
  replace (Z.of_nat (length (b :: data)) mod 2) with 0; [reflexivity|].
  pose proof (Z.div_mod (Z.of_nat (length (b :: data))) 4 ltac:(lia)) as H.
  apply Z.mod_unique with (2 * (Z.of_nat (length (b :: data)) / 4) + 1);
    lia.
Qed.

(** X18: a frame of valid [float32] samples written by
    [encode_float32] is read back by the mono decoder as the same
    samples clipped to [-1, 1], NaN samples included. *)
Theorem encode_float32_decoded (nan : nat -> Z) (a : list f32) :
  Forall (fun x => valid_binary 24 128 x = true) a ->
  (forall i, 0 <= nan i < 2 ^ 32 /\ f32_of_bits (nan i) = S754_nan) ->
  decode_to_float32 1 (encode_float32 nan (Some (F32 a))) = Some (map clip a).
Proof.
  intros Hv Hnan. unfold encode_float32. cbn [as_f32].
  assert (Hv' : Forall (fun x => valid_binary 24 128 x = true) (map clip a)).
  { apply Forall_fmap. eapply Forall_impl; [exact Hv|].
    intros x Hx. apply clip_valid, Hx. }
  destruct (tobytes_f4_decoded (map clip a) nan Hv' Hnan) as [Hd Hl].
  destruct a as [|x a]; [reflexivity|].
  rewrite decode_aligned_4.
  - rewrite decode_f4_mono, Hd. f_equal.
    rewrite <- list_fmap_compose. apply list_fmap_ext.
    intros i y _. apply clip_twice.
  - intros E. apply (f_equal length) in E. rewrite Hl in E. simpl in E. lia.
  - rewrite Hl, Nat2Z.inj_mul. rewrite Z.mul_comm. apply Z.mod_mul. lia.
Qed.

Lemma frombuffer_f4_length (data : list byte) :
  forall k, length data = (4 * k)%nat -> length (frombuffer_f4 data) = k.
Proof.
  intros k. revert data. induction k as [|k IH]; intros data Hl.
  - destruct data; [reflexivity | simpl in Hl; lia].
  - destruct data as [|b0 [|b1 [|b2 [|b3 data]]]]; simpl in Hl; try lia.
    cbn [frombuffer_f4 length]. f_equal. apply IH. lia.
Qed.

(** X19: [int16] samples written by [encode_int16] come back as
    themselves divided by 32767 only when their number is odd. A
    frame with an even number of samples has a length that is a
    multiple of four, so the decoder reads it as [float32] data and
    returns half as many samples. *)
Theorem encode_int16_decoded (nan_i16 : Z) (a : list Z) :
  Forall (fun v => -32768 <= v < 32768) a ->
  (Nat.odd (length a) = true ->
   decode_to_float32 1 (encode_int16 nan_i16 (Some (I16 a)))
   = Some (i16_to_unit a))
  /\ (Nat.even (length a) = true ->
      decode_to_float32 1 (encode_int16 nan_i16 (Some (I16 a)))
      = Some (map clip (frombuffer_f4 (tobytes_i2 a)))
      /\ (2 * length (map clip (frombuffer_f4 (tobytes_i2 a))) = length a)%nat).
Proof.
  intros Hv. destruct (tobytes_i2_decoded a Hv) as [Hd Hl].
  cbn [encode_int16]. split.
  - intros Hodd. apply Nat.odd_spec in Hodd. destruct Hodd as [k Hk].
    rewrite decode_aligned_2.
    + rewrite decode_i2_mono, Hd. reflexivity.
    + rewrite Hl, Hk.
      replace (Z.of_nat (2 * (2 * k + 1))) with (2 + Z.of_nat k * 4) by lia.
      rewrite Z.mod_add by lia. reflexivity.
  - intros Heven. apply Nat.even_spec in Heven. destruct Heven as [k Hk].
    assert (Hl4 : length (tobytes_i2 a) = (4 * k)%nat) by lia.
    split.
    + destruct a as [|v a]; [reflexivity|].
      rewrite decode_aligned_4; [reflexivity | |].
      * intros E. apply (f_equal length) in E. rewrite Hl in E.
        simpl in E. lia.
      * rewrite Hl4, Nat2Z.inj_mul, Z.mul_comm. apply Z.mod_mul. lia.
    + rewrite length_map, (frombuffer_f4_length _ k Hl4). lia.
Qed.

Lemma encode_int16_decoded_witness :
  (Nat.odd (length [1; -2; 3]) = true ->
   decode_to_float32 1 (encode_int16 0 (Some (I16 [1; -2; 3])))
   = Some (i16_to_unit [1; -2; 3]))
  /\ (Nat.even (length [1; -2; 3]) = true ->
      decode_to_float32 1 (encode_int16 0 (Some (I16 [1; -2; 3])))
      = Some (map clip (frombuffer_f4 (tobytes_i2 [1; -2; 3])))
      /\ (2 * length (map clip (frombuffer_f4 (tobytes_i2 [1; -2; 3]%Z)))
          = length [1; -2; 3]%Z)%nat).
Proof.
  apply (encode_int16_decoded 0 [1; -2; 3]).
  repeat constructor; lia.
Defined.

Lemma encode_float32_decoded_witness :
  decode_to_float32
    1 (encode_float32 (fun _ => 2143289344)
                      (Some (F32 [S754_finite false 12582912 (-23);
                                  S754_nan; S754_zero true])))
  = Some (map clip [S754_finite false 12582912 (-23); S754_nan;
                    S754_zero true]).
Proof.
  apply (encode_float32_decoded
           (fun _ => 2143289344)
           [S754_finite false 12582912 (-23); S754_nan; S754_zero true]).
  - repeat constructor.
  - intros i. split; [lia | reflexivity].
Defined.

Lemma decode_None (channels : Z) (data : list byte) :
  decode_to_float32 channels data = None <-> length data = 1%nat.
Proof.
  unfold decode_to_float32.
  destruct data as [|b data]; [split; [discriminate | simpl; lia]|].
  set (n := Z.of_nat (length (b :: data))).
  assert (Hn : 1 <= n) by (unfold n; simpl; lia).
  assert (Hlen : length (b :: data) = 1%nat <-> n = 1) by (unfold n; lia).
  rewrite Hlen. clear Hlen.
  pose proof (Z.div_mod n 4 ltac:(lia)) as Hdm.
  pose proof (Z.mod_pos_bound n 4 ltac:(lia)) as Hr.
  destruct (Z.eqb_spec (n mod 4) 0) as [H4 | H4];
    [split; [discriminate | lia]|].
  assert (H2 : n mod 2 = n mod 4 mod 2).
  { rewrite Hdm at 1. replace (4 * (n / 4) + n mod 4)
      with (n mod 4 + (2 * (n / 4)) * 2) by lia.
    apply Z.mod_add. lia. }
  destruct (Z.eqb_spec (n mod 2) 0) as [E2 | E2];
    [split; [discriminate|]|].
  { intros ->. discriminate. }
  assert (Hodd : n mod 4 = 1 \/ n mod 4 = 3).
  { assert (n mod 4 = 1 \/ n mod 4 = 2 \/ n mod 4 = 3) as [?|[E|?]] by lia;
      [tauto | | tauto].
    rewrite E in H2. simpl in H2. contradiction. }
  cbn [trim_loop].
  destruct (Z.leb_spec (n - 1) 0) as [Hle | Hgt].
  - split; [lia | reflexivity].
  - destruct (Z.eqb_spec ((n - 1) mod 4) 0) as [? | Hm4];
      [split; [discriminate | lia]|].
    assert (Hm2 : (n - 1) mod 2 = 0).
    { destruct Hodd as [E | E].
      - exfalso. apply Hm4.
        replace (n - 1) with (0 + (n / 4) * 4) by lia.
        rewrite Z.mod_add by lia. reflexivity.
      - replace (n - 1) with (0 + (2 * (n / 4) + 1) * 2) by lia.
        rewrite Z.mod_add by lia. reflexivity. }
    rewrite Hm2. cbn [Z.eqb]. split; [discriminate | lia].
Qed.

Lemma decode_odd (channels : Z) (data : list byte) :
  Nat.odd (length data) = true -> (1 < length data)%nat ->
  decode_to_float32 channels data
  = decode_to_float32 channels (take (length data - 1) data).
Proof.
  intros Hodd Hlen. apply Nat.odd_spec in Hodd. destruct Hodd as [k Hk].
  assert (Hk1 : (1 <= k)%nat) by lia.
  assert (Ht : length (take (length data - 1) data) = (2 * k)%nat).
  { rewrite length_take. lia. }
  unfold decode_to_float32 at 1.
  destruct data as [|b data]; [simpl in Hlen; lia|].
  set (d := b :: data) in *.
  replace (Z.of_nat (length d)) with (2 * Z.of_nat k + 1) by lia.
  assert (H2 : (2 * Z.of_nat k + 1) mod 2 = 1).
  { replace (2 * Z.of_nat k + 1) with (1 + Z.of_nat k * 2) by lia.
    rewrite Z.mod_add by lia. reflexivity. }
  assert (H4 : (2 * Z.of_nat k + 1) mod 4 <> 0).
  { intros E. apply Z.mod_divide in E; [|lia]. destruct E as [c Hc]. lia. }
  destruct (Z.eqb_spec ((2 * Z.of_nat k + 1) mod 4) 0); [contradiction|].
  rewrite H2. cbn [Z.eqb trim_loop].
  replace (2 * Z.of_nat k + 1 - 1) with (Z.of_nat (2 * k)) by lia.
  destruct (Z.leb_spec (Z.of_nat (2 * k)) 0) as [Hle | _]; [lia|].
  rewrite Nat2Z.id.
  replace (length d - 1)%nat with (2 * k)%nat in * by lia.
  unfold decode_to_float32.
  destruct (take (2 * k) d) as [|b0 t] eqn:Et; [simpl in Ht; lia|].
  rewrite Ht.
  assert (Hm2 : Z.of_nat (2 * k) mod 2 = 0).
  { rewrite Nat2Z.inj_mul, Z.mul_comm. apply Z.mod_mul. lia. }
  destruct (Z.eqb_spec (Z.of_nat (2 * k) mod 4) 0); [reflexivity|].
  rewrite Hm2. reflexivity.
Qed.

(** X20: the decoder raises on a payload of exactly one byte and on
    no other: an empty payload gives no samples, and a payload of an
    odd length of three bytes or more is decoded as the payload
    without its last byte. *)
Theorem decode_raises_on_one_byte (channels : Z) (data : list byte) :
  (decode_to_float32 channels data = None <-> length data = 1%nat)
  /\ decode_to_float32 channels [] = Some []
  /\ (Nat.odd (length data) = true -> (1 < length data)%nat ->
      decode_to_float32 channels data
      = decode_to_float32 channels (take (length data - 1) data)).
Proof.
  split; [apply decode_None|]. split; [reflexivity|]. apply decode_odd.
Qed.

End Codec.

(** ** The start of playout *)

Section Playout.
Import PyFloat Numpy RadioApp RxQueue Playback.

Local Open Scope nat_scope.

Lemma take_batch_Some (first : entry) (rest : list entry) :
  exists batch q',
    take_batch (first :: rest) = Some (batch, q')
    /\ sublist batch (first :: rest).
Proof.
  unfold take_batch.
  destruct (collect (ts (item first)) rest [first] {[key first]} [])
    as [[B D] R] eqn:Hc.
  destruct (collect_spec _ _ _ _ _ _ _ _ Hc) as (B' & D' & -> & -> & Hcol).
  - intros k. simpl. rewrite list_elem_of_singleton, elem_of_singleton.
    tauto.
  - simpl. apply NoDup_singleton.
  - eexists _, _. split; [reflexivity|].
    destruct Hcol as (Hs & _). simpl. apply sublist_skip, Hs.
Qed.

Lemma dequeue_cases (pow : float -> Z -> float) (now : float)
      (a : RadioApp.t) (j : RxQueue.t) :
  sound (a, j) ->
  let out := _dequeue_rx_frame pow now a j in
  (_rx_started j = true ->
   _rx_started (snd (fst out)) = true
   /\ (_rx_queue j <> [] -> snd out <> None))
  /\ (_rx_started j = false -> _rx_last_frame a = None ->
      (snd out = None /\ _rx_last_frame (fst (fst out)) = None
       /\ _rx_started (snd (fst out)) = false)
      \/ (snd out <> None /\ _rx_started (snd (fst out)) = true
          /\ TARGET_DEPTH <= length (_rx_queue j))).
Proof.
  intros (Hq & Hl & Hc). simpl in Hq, Hl, Hc.
  unfold _dequeue_rx_frame, dequeue_head.
  destruct (_rx_queue j) as [|e0 q0] eqn:Eq.
  { cbn [fst snd]. split.
    - intros Hs. split; [exact Hs | congruence].
    - intros Hs Hn. left. split; [reflexivity|]. split; assumption. }
  rewrite <- Eq in *.
  assert (Hne : _rx_queue j <> []) by (rewrite Eq; discriminate).
  clear Eq e0 q0.
  set (q := drop (length (drop_stale f_0_6 now (_rx_queue j)) - MAX_DEPTH)
                 (drop_stale f_0_6 now (_rx_queue j))).
  assert (Hq' : Forall (fun e => length (buf (item e)) = AUDIO_BLOCK) q).
  { unfold q. apply Forall_drop, Forall_drop_stale, Hq. }
  assert (Hl' : length q <= length (_rx_queue j)).
  { unfold q. rewrite length_drop.
    pose proof (length_drop_stale f_0_6 now (_rx_queue j)). lia. }
  assert (Hbatch : 1 <= length q ->
             let out :=
               match
                 match take_batch q with
                 | Some (batch, q') => (a, RxQueue.mk q' true, Batch batch)
                 | None => (a, RxQueue.mk q true, Return None)
                 end
               with
               | (a1, j1, Return frame) => (a1, j1, frame)
               | (a1, j1, Batch batch) =>
                   match mix_batch a1 (map item batch) with
                   | Some (a', mix) => (a', j1, Some mix)
                   | None => (a1, j1, None)
                   end
               end in
             snd out <> None /\ _rx_started (snd (fst out)) = true).
  { intros Hlen. destruct q as [|first rest] eqn:Eq; [simpl in Hlen; lia|].
    destruct (take_batch_Some first rest) as (batch & q' & Ht & HsB).
    rewrite Ht. cbv zeta.
    destruct (mix_batch_block a (map item batch)) as (mix & Hm & _).
    { apply Forall_fmap. eapply sublist_Forall'; [exact HsB | exact Hq']. }
    rewrite Hm. simpl. split; [discriminate | reflexivity]. }
  destruct (_rx_started j); cbn [negb]; (split; [intros Hs | intros Hs Hn]);
    try discriminate.
  - destruct (Nat.ltb_spec (length q) 2).
    + destruct (repeat_last pow a 3 f_0_5) as [[a' frame]|]; cbn [fst snd];
        (split; [reflexivity | intros _; discriminate]).
    + destruct Hbatch as [H1 H2]; [lia|]. split; [exact H2 | intros _; exact H1].
  - destruct (Nat.ltb_spec (length q) TARGET_DEPTH).
    + left. unfold repeat_last. rewrite Hn. cbn [fst snd].
      split; [reflexivity|]. split; [exact Hn | reflexivity].
    + right. destruct Hbatch as [H1 H2]; [unfold TARGET_DEPTH in *; lia|].
      split; [exact H1|]. split; [exact H2 | lia].
Qed.

Lemma run_started (resample : Z -> list f32 -> option (list f32))
      (pow : float -> Z -> float) (st : RadioApp.t * RxQueue.t) (c : call) :
  sound st ->
  (_rx_started (snd st) = true ->
   _rx_started (snd (run resample pow st c)) = true)
  /\ ((_rx_started (snd st) = false -> _rx_last_frame (fst st) = None) ->
      _rx_started (snd (run resample pow st c)) = false ->
      _rx_last_frame (fst (run resample pow st c)) = None).
Proof.
  destruct st as [a j]. intros Hs.
  destruct c as [now new_oid b rate chan_idx src_ssrc | now
                | active scans scan_d vols vol_d |]; cbn [run fst snd].
  - unfold _enqueue_rx_frame.
    destruct (normalize resample rate b) as [arr|]; cbn [_rx_started];
      split; auto.
  - destruct (dequeue_cases pow now a j Hs) as [H1 H2]. split.
    + intros Hst. apply H1, Hst.
    + intros Hinv Hst'. destruct (_rx_started j) eqn:Hst.
      * destruct (H1 eq_refl) as [Ht _]. congruence.
      * destruct (H2 eq_refl (Hinv eq_refl)) as [(_ & Hn & _) | (_ & Ht & _)];
          [exact Hn | congruence].
  - split; auto.
  - split; auto.
Qed.

Lemma after_app (resample : Z -> list f32 -> option (list f32))
      (pow : float -> Z -> float) (a0 : RadioApp.t)
      (calls more : list call) :
  after resample pow a0 (calls ++ more)
  = fold_left (run resample pow) more (after resample pow a0 calls).
Proof. unfold after. apply fold_left_app. Qed.

Lemma fold_sound (resample : Z -> list f32 -> option (list f32))
      (pow : float -> Z -> float) (calls : list call) :
  forall st, sound st -> sound (fold_left (run resample pow) calls st).
Proof.
  induction calls as [|c calls IH]; intros st Hs; [exact Hs|].
  simpl. apply IH, run_sound, Hs.
Qed.

Lemma fold_started (resample : Z -> list f32 -> option (list f32))
      (pow : float -> Z -> float) (calls : list call) :
  forall st, sound st -> _rx_started (snd st) = true ->
             _rx_started (snd (fold_left (run resample pow) calls st)) = true.
Proof.
  induction calls as [|c calls IH]; intros st Hs Ht; [exact Ht|].
  simpl. apply IH; [apply run_sound, Hs|].
  apply (run_started resample pow st c Hs), Ht.
Qed.

Lemma after_unstarted (resample : Z -> list f32 -> option (list f32))
      (pow : float -> Z -> float) (a0 : RadioApp.t) (calls : list call) :
  _rx_started (snd (after resample pow a0 calls)) = false ->
  _rx_last_frame (fst (after resample pow a0 calls)) = None.
Proof.
  unfold after.
  assert (H : forall st,
             sound st ->
             (_rx_started (snd st) = false -> _rx_last_frame (fst st) = None) ->
             _rx_started (snd (fold_left (run resample pow) calls st)) = false ->
             _rx_last_frame (fst (fold_left (run resample pow) calls st))
             = None).
  { induction calls as [|c calls IH]; intros st Hs Hinv; [exact Hinv|].
    simpl. apply IH; [apply run_sound, Hs|].
    apply (run_started resample pow st c Hs), Hinv. }
  apply H; [|reflexivity].
  split; [constructor|]. split; [simpl; lia | exact I].
Qed.

(** X21: playout starts once and never stops. Before it has started
    no frame is cached, so the audio loop gets nothing until six
    fresh frames are queued (the branch that replays the cached frame
    with the factor 0.6 is never taken); the call that returns the
    first frame starts playout. Once started it stays started through
    every later call, and a call on a non-empty queue always returns
    a frame. *)
Theorem playout_starts_once
        (resample : Z -> list f32 -> option (list f32))
        (pow : float -> Z -> float)
        (a0 : RadioApp.t) (calls more : list call) (now : float) :
  let st := after resample pow a0 calls in
  let out := _dequeue_rx_frame pow now (fst st) (snd st) in
  (_rx_started (snd st) = false ->
   _rx_last_frame (fst st) = None
   /\ repeat_last pow (fst st) 2 f_0_6 = None
   /\ (snd out <> None ->
       _rx_started (snd (fst out)) = true
       /\ TARGET_DEPTH <= length (_rx_queue (snd st))))
  /\ (_rx_started (snd st) = true ->
      _rx_started (snd (after resample pow a0 (calls ++ more))) = true
      /\ (_rx_queue (snd st) <> [] -> snd out <> None)).
Proof.
  intros st out.
  pose proof (after_sound resample pow a0 calls) as Hs. fold st in Hs.
  assert (Hs' : sound (fst st, snd st)) by (destruct st; exact Hs).
  destruct (dequeue_cases pow now (fst st) (snd st) Hs') as [H1 H2].
  fold out in H1, H2. split.
  - intros Hst.
    pose proof (after_unstarted resample pow a0 calls Hst) as Hn.
    fold st in Hn. split; [exact Hn|]. split.
    + unfold repeat_last. rewrite Hn. reflexivity.
    + intros Hout.
      destruct (H2 Hst Hn) as [(Hnone & _) | (_ & Ht & Hd)];
        [contradiction | split; assumption].
  - intros Hst. split; [|apply H1, Hst].
    rewrite after_app. apply fold_started; [exact Hs | exact Hst].
Qed.

End Playout.

(** ** The audio counters *)

Section Stats.
Import PyFloat SessionStore History Notions.

Lemma total_bump (key : string) (n : Z) (d : gmap string Z) :
  total (bump key n d) = total d + n.
Proof.
  unfold total, bump.
  destruct (d !! key) as [old|] eqn:Hk; simpl.
  - transitivity (map_fold (fun (_ : string) v acc => v + acc) 0
                           (<[key:=old]> (delete key d)) + n).
    + rewrite <- (insert_delete_eq d key (old + n)).
      rewrite !map_fold_insert_L;
        [lia | intros; lia | apply lookup_delete_eq | intros; lia
         | apply lookup_delete_eq].
    + rewrite insert_delete_id by exact Hk. reflexivity.
  - rewrite map_fold_insert_L; [lia | intros; lia | exact Hk].
Qed.

Lemma bump_dom (key : string) (n m : Z) (d1 d2 : gmap string Z) :
  dom d1 = dom d2 -> dom (bump key n d1) = dom (bump key m d2).
Proof. intros H. unfold bump. rewrite !dom_insert_L, H. reflexivity. Qed.

Lemma bump_positive (key : string) (d : gmap string Z) :
  map_Forall (fun _ v => 1 <= v) d ->
  map_Forall (fun _ v => 1 <= v) (bump key 1 d).
Proof.
  intros H. unfold bump. apply map_Forall_insert_2; [|exact H].
  destruct (d !! key) as [v|] eqn:E; simpl; [|lia].
  specialize (H key v E). simpl in H. lia.
Qed.

Lemma run_counters (str_int : string -> option Z)
      (str_float : string -> option float) (r : SessionStore.t) (c : call) :
  (freq_frames (run str_int str_float r c), freq_bytes (run str_int str_float r c))
  = match c with
    | NoteAudioFor now ssrc nbytes =>
        (freq_frames (note_audio_for now r ssrc nbytes),
         freq_bytes (note_audio_for now r ssrc nbytes))
    | _ => (freq_frames r, freq_bytes r)
    end.
Proof.
  destruct c as [rnd now a ssrc m | now ssrc | ssrc
                | now ssrc active_idx freqs scan | now ssrc on freq
                | now ssrc on | now now' ssrc upd | now ssrc pos
                | now ssrc info | now ssrc nbytes | src dst | | enabled];
    cbn [run]; try reflexivity.
  - unfold upsert.
    repeat match goal with
           | |- context [match ?x with _ => _ end] => destruct x
           end; reflexivity.
  - unfold note_heartbeat. destruct (SessionStore.get r ssrc); reflexivity.
  - unfold SessionStore.drop. destruct (SessionStore.get r ssrc); reflexivity.
  - unfold set_channel. destruct (SessionStore.get r ssrc); reflexivity.
  - unfold set_tx_state. destruct (SessionStore.get r ssrc); reflexivity.
  - unfold note_ptt, set_tx_state.
    destruct (SessionStore.get r ssrc); reflexivity.
  - unfold note_chan_update, set_channel, set_tx_state.
    repeat match goal with
           | |- context [match ?x with _ => _ end] => destruct x
           end; reflexivity.
  - unfold note_position.
    repeat match goal with
           | |- context [match ?x with _ => _ end] => destruct x
           end; reflexivity.
  - unfold note_presence.
    repeat match goal with
           | |- context [match ?x with _ => _ end] => destruct x
           end; reflexivity.
Qed.

Lemma fold_counters (str_int : string -> option Z)
      (str_float : string -> option float) (calls : list call) :
  forall r,
    dom (freq_frames r) = dom (freq_bytes r) ->
    map_Forall (fun _ v => 1 <= v) (freq_frames r) ->
    let r' := fold_left (run str_int str_float) calls r in
    total (freq_frames r') = total (freq_frames r) + fst (noted calls)
    /\ total (freq_bytes r') = total (freq_bytes r) + snd (noted calls)
    /\ dom (freq_frames r') = dom (freq_bytes r')
    /\ map_Forall (fun _ v => 1 <= v) (freq_frames r').
Proof.
  induction calls as [|c calls IH]; intros r Hd Hp.
  - simpl. repeat split; [lia | lia | exact Hd | exact Hp].
  - cbn [fold_left]. cbv zeta.
    pose proof (run_counters str_int str_float r c) as Hc.
    assert (Hstep :
             dom (freq_frames (run str_int str_float r c))
             = dom (freq_bytes (run str_int str_float r c))
             /\ map_Forall (fun _ v => 1 <= v)
                           (freq_frames (run str_int str_float r c))
             /\ total (freq_frames (run str_int str_float r c))
                + fst (noted calls)
                = total (freq_frames r) + fst (noted (c :: calls))
             /\ total (freq_bytes (run str_int str_float r c))
                + snd (noted calls)
                = total (freq_bytes r) + snd (noted (c :: calls))).
    { destruct c; pose proof (f_equal fst Hc) as E1;
        pose proof (f_equal snd Hc) as E2; cbn [fst snd] in E1, E2;
        rewrite E1, E2; cbn [noted fst snd];
        try (repeat split; [exact Hd | exact Hp]).
      unfold note_audio_for. cbn [freq_frames freq_bytes].
      split; [apply bump_dom, Hd|]. split; [apply bump_positive, Hp|].
      rewrite !total_bump. split; lia. }
    destruct Hstep as (Hd' & Hp' & Hf & Hb).
    destruct (IH _ Hd' Hp') as (I1 & I2 & I3 & I4).
    repeat split; [lia | lia | exact I3 | exact I4].
Qed.

(** X22: the audio counters are conserved: after any history of calls
    on a new manager the frame counters add up to the number of
    [note_audio_for] calls and the byte counters to the sum of their
    sizes; both tables have the same keys, and every key holds at
    least one frame. No other method touches the counters. *)
Theorem audio_counters_conserved
        (str_int : string -> option Z)
        (str_float : string -> option float) (calls : list call) :
  let r := after str_int str_float calls in
  total (freq_frames r) = fst (noted calls)
  /\ total (freq_bytes r) = snd (noted calls)
  /\ dom (freq_frames r) = dom (freq_bytes r)
  /\ map_Forall (fun _ v => 1 <= v) (freq_frames r).
Proof.
  intros r. unfold r, after.
  destruct (fold_counters str_int str_float calls init)
    as (H1 & H2 & H3 & H4).
  - reflexivity.
  - apply map_Forall_empty.
  - cbv zeta in *. unfold init in *. cbn [freq_frames freq_bytes] in *.
    unfold total in H1 at 2. unfold total in H2 at 2.
    rewrite map_fold_empty in H1, H2.
    repeat split; [lia | lia | exact H3 | exact H4].
Qed.

(** X23: for a session of the table reached by any history,
    [note_ptt(ssrc, True)] always finds a transmit frequency: the one
    of the session's active channel clamped to 0..3, since the
    session has its four frequencies; [note_ptt(ssrc, False)] clears
    it. The next [note_audio_for] of the sender counts the frame
    under that frequency written with three decimals. *)
Theorem ptt_selects_active_frequency
        (str_int : string -> option Z)
        (str_float : string -> option float) (calls : list call)
        (now now' : float) (ssrc : Z) (s : session) (nbytes : Z) :
  SessionStore.get (after str_int str_float calls) ssrc = Some s ->
  let r := after str_int str_float calls in
  let on := note_ptt str_float now r ssrc true in
  exists f,
    Session.freqs (base s)
      !! Session.clamp_channel (Session.active_channel (base s)) = Some f
    /\ (exists s', SessionStore.get on ssrc = Some s'
                   /\ current_tx_freq s' = Some f
                   /\ Session.ptt (base s') = true)
    /\ (exists s',
           SessionStore.get (note_ptt str_float now r ssrc false) ssrc
           = Some s'
           /\ current_tx_freq s' = None /\ Session.ptt (base s') = false)
    /\ freq_frames (note_audio_for now' on ssrc nbytes)
       = bump (fmt_3f f) 1 (freq_frames r)
    /\ freq_bytes (note_audio_for now' on ssrc nbytes)
       = bump (fmt_3f f) nbytes (freq_bytes r).
Proof.
  intros Hget r on. fold r in Hget.
  destruct (after_well_formed str_int str_float calls) as (_ & Hfour & _).
  fold r in Hfour.
  pose proof (store_get_Some _ _ _ Hget) as Hin.
  rewrite Forall_forall in Hfour. specialize (Hfour _ Hin).
  destruct Hfour as (Hf & _). cbn [snd] in Hf.
  destruct (lookup_lt_is_Some_2
              (Session.freqs (base s))
              (Session.clamp_channel (Session.active_channel (base s))))
    as [f Hlook].
  { rewrite Hf. apply clamp_channel_bound. }
  exists f. split; [exact Hlook|].
  assert (Hon : SessionStore.get on ssrc
                = Some (touch now (assign_tx str_float true None s))).
  { unfold on, note_ptt, set_tx_state. rewrite Hget.
    exact (update_get_Some
             r ssrc (fun x => touch now (assign_tx str_float true None x))
             s Hget). }
  split.
  { eexists. split; [exact Hon|]. split; [|reflexivity].
    cbn. exact Hlook. }
  split.
  { eexists. split.
    - unfold note_ptt, set_tx_state. rewrite Hget.
      exact (update_get_Some
               r ssrc (fun x => touch now (assign_tx str_float false None x))
               s Hget).
    - split; reflexivity. }
  unfold note_audio_for. rewrite Hon. cbn [freq_frames freq_bytes].
  assert (Hc : current_tx_freq (touch now (assign_tx str_float true None s))
               = Some f) by (cbn; exact Hlook).
  rewrite Hc.
  assert (Hcnt : freq_frames on = freq_frames r
                 /\ freq_bytes on = freq_bytes r).
  { unfold on, note_ptt, set_tx_state. rewrite Hget. split; reflexivity. }
  destruct Hcnt as [-> ->]. split; reflexivity.
Qed.

End Stats.

(** ** The properties on the tables of [Scenario] *)

Section Instances.
Import PyFloat SessionManager SessionStore UdpProtocol History.

Lemma upsert_rebinds_witness :
  let r' := upsert (fun _ => "QQQ"%string) Examples.now Scenario.store
                   ("10.0.0.9"%string, 6000) 333
                   (mk_meta (Some "steam-1"%string) None None None) in
  SessionStore.get r' 111 = None
  /\ (exists s',
         SessionStore.get r' 333 = Some s'
         /\ Session.freqs (base s')
            = Session.freqs
                (base (Scenario.at_addr Examples.sender "10.0.0.1" 5000
                                        (Some "steam-1"%string)))
         /\ Session.active_channel (base s')
            = Session.active_channel
                (base (Scenario.at_addr Examples.sender "10.0.0.1" 5000
                                        (Some "steam-1"%string)))
         /\ Session.scan_channels (base s')
            = Session.scan_channels
                (base (Scenario.at_addr Examples.sender "10.0.0.1" 5000
                                        (Some "steam-1"%string)))
         /\ Session.net_prefixes (base s')
            = Session.net_prefixes
                (base (Scenario.at_addr Examples.sender "10.0.0.1" 5000
                                        (Some "steam-1"%string)))
         /\ Session.ssrc (base s')
            = Session.ssrc
                (base (Scenario.at_addr Examples.sender "10.0.0.1" 5000
                                        (Some "steam-1"%string)))
         /\ client_id s' = Some "steam-1"%string
         /\ addr s' = ("10.0.0.9"%string, 6000))
  /\ length (by_ssrc r') = length (by_ssrc Scenario.store)
  /\ forall k, k <> 111 -> k <> 333 ->
               SessionStore.get r' k = SessionStore.get Scenario.store k.
Proof.
  apply (upsert_rebinds (fun _ => "QQQ"%string) Examples.now Scenario.store
                        ("10.0.0.9"%string, 6000) 333
                        (mk_meta (Some "steam-1"%string) None None None)
                        "steam-1"%string 111
                        (Scenario.at_addr Examples.sender "10.0.0.1" 5000
                                          (Some "steam-1"%string))).
  - simpl. repeat constructor; set_solver.
  - reflexivity.
  - reflexivity.
  - reflexivity.
Defined.

Lemma unknown_ssrc_ignored_witness :
  note_heartbeat Examples.now Scenario.store 333 = Scenario.store
  /\ SessionStore.drop Scenario.store 333 = Scenario.store
  /\ set_channel Scenario.no_str_int Scenario.no_str_float Examples.now Scenario.store 333
                 (Json.JInt 1) (Json.JList []) (Json.JBool true)
     = Scenario.store
  /\ set_tx_state Scenario.no_str_float Examples.now Scenario.store 333 true None
     = Scenario.store
  /\ note_ptt Scenario.no_str_float Examples.now Scenario.store 333 true = Scenario.store
  /\ note_chan_update Scenario.no_str_int Scenario.no_str_float Examples.now Examples.now
                      Scenario.store 333 (Json.JObject [])
     = Scenario.store
  /\ note_position Examples.now Scenario.store 333 Json.JNull = Scenario.store
  /\ note_presence Examples.now Scenario.store 333
                   (mk_meta None None None None)
     = Scenario.store
  /\ by_ssrc (note_audio_for Examples.now Scenario.store 333 20)
     = by_ssrc Scenario.store
  /\ freq_frames (note_audio_for Examples.now Scenario.store 333 20)
     = bump "unknown" 1 (freq_frames Scenario.store)
  /\ freq_bytes (note_audio_for Examples.now Scenario.store 333 20)
     = bump "unknown" 20 (freq_bytes Scenario.store).
Proof.
  apply (unknown_ssrc_ignored Scenario.no_str_int Scenario.no_str_float
                              Scenario.store 333 Examples.now Examples.now
                              (Json.JInt 1) (Json.JList []) (Json.JBool true)
                              (Json.JObject []) Json.JNull true None
                              (mk_meta None None None None) 20).
  reflexivity.
Defined.

Lemma handle_audio_delivers_witness :
  let fresh := fun _ : Z => "QQQ"%string in
  let m := SessionStore.note_audio_for Examples.now
                                       (UdpServer.mgr Scenario.relay) 111
                                       (Z.of_nat (length [Byte.xaa; Byte.xbb]))
  in
  let recipients :=
    fst (fst (fst (audio_recipients_for fresh Examples.now
                                        (SessionStore.manager m) 111))) in
  let n := snd (SeqGen.next (UdpServer.seq Scenario.relay)) in
  let out := UdpServer._handle_audio fresh Examples.now Examples.now 77
                                     Scenario.relay 111 Scenario.payload in
  fst out = UdpServer.mk m (match recipients with
                            | [] => UdpServer.seq Scenario.relay
                            | _ => n
                            end)
  /\ Forall2 (fun (d : list byte * SessionStore.addr_t) (r : recipient) =>
                UdpServer.addr_of m (fst (fst r)) = Some (snd d)
                /\ UdpServer.forward_packet 1 [Byte.xaa; Byte.xbb] n 77 111
                                            (Z.of_nat (snd r))
                   = Some (fst d)
                /\ (Z.of_nat (length [Byte.xaa; Byte.xbb]) <= 8177 ->
                    UdpClient.rx Scenario.echo_decode 222 false None false
                                 Examples.full_shim (fst d)
                    = (if (111 =? 222) && negb false
                       then (Examples.full_shim, None)
                       else
                         let x := UdpClient.decode_frame
                                    Scenario.echo_decode None false
                                    Examples.full_shim
                                    (1 mod 16 + 16 * Z.of_nat (snd r))
                                    [Byte.xaa; Byte.xbb] 111 in
                         (fst x,
                          UdpClient.hand_over (fst x) (snd x) 111
                                              (Z.of_nat (snd r))))))
             (snd out) recipients.
Proof.
  apply (handle_audio_delivers Scenario.echo_decode
                               (fun _ : Z => "QQQ"%string) Examples.now
                               Examples.now 77 Scenario.relay 111
                               Scenario.payload 1 [Byte.xaa; Byte.xbb]
                               222 false None false Examples.full_shim).
  - reflexivity.
  - lia.
Defined.


Lemma ptt_selects_active_frequency_witness :
  let calls :=
    [Upsert (fun _ => "QQQ"%string) Examples.now ("10.0.0.9"%string, 6000)
            333 (mk_meta None None None None)] in
  let s :=
    touch Examples.now
          (new_session (fun _ => "QQQ"%string) Examples.now
                       ("10.0.0.9"%string, 6000) 333 None EmptyString
                       EmptyString) in
  let r := after Scenario.no_str_int Scenario.no_str_float calls in
  let on := note_ptt Scenario.no_str_float Examples.now r 333 true in
  exists f,
    Session.freqs (base s)
      !! Session.clamp_channel (Session.active_channel (base s)) = Some f
    /\ (exists s', SessionStore.get on 333 = Some s'
                   /\ current_tx_freq s' = Some f
                   /\ Session.ptt (base s') = true)
    /\ (exists s',
           SessionStore.get
             (note_ptt Scenario.no_str_float Examples.now r 333 false) 333
           = Some s'
           /\ current_tx_freq s' = None /\ Session.ptt (base s') = false)
    /\ freq_frames (note_audio_for Examples.now on 333 20)
       = bump (fmt_3f f) 1 (freq_frames r)
    /\ freq_bytes (note_audio_for Examples.now on 333 20)
       = bump (fmt_3f f) 20 (freq_bytes r).
Proof.
  apply (ptt_selects_active_frequency
           Scenario.no_str_int Scenario.no_str_float
           [Upsert (fun _ => "QQQ"%string) Examples.now
                   ("10.0.0.9"%string, 6000) 333
                   (mk_meta None None None None)]
           Examples.now Examples.now 333
           (touch Examples.now
                  (new_session (fun _ => "QQQ"%string) Examples.now
                               ("10.0.0.9"%string, 6000) 333 None EmptyString
                               EmptyString))
           20).
  reflexivity.
Defined.

End Instances.
